(** * MetaMapPlugin: the WebSocket JSON-RPC server of the vault plugin

    A shallow embedding of [src/rpc/methods.ts], [src/rpc/wsRpcServer.ts],
    [src/utils/ws.ts] and [src/main.ts], and the properties the
    specification states about them.

    Conventions of the embedding.
    - A JavaScript string is a [string]: one [ascii] per UTF-16 code unit, so
      the strings covered are those whose code units are below 256.  The
      string built-ins ([trim], [toLowerCase], [split], ...) are written out
      for that range.
    - A JavaScript number is a [JSNumber]: NaN, the two infinities, or a
      finite value carried as a rational.  Only comparisons and [Math.min]
      are performed on numbers, and both are exact on rationals.
    - Values that come out of [JSON.parse] are [JSValue]s.
    - An [async] handler is a state transformer over the host application:
      it returns its result (or the error it throws) and the new state.
      Host calls that the handlers await are completed in place.
    - The version counter of the plugin is an integer.
    - What the JavaScript runtime and the host provide and no source file
      defines (number parsing and printing, UTF-8 decoding, [JSON.parse],
      [normalizePath]) is collected in the class [Host]. *)

From Stdlib Require Import ZArith QArith Qround List String Ascii Bool Lia DecimalString DecimalZ.
From stdpp Require Import base gmap strings list.
Import ListNotations.
Open Scope string_scope.
Open Scope list_scope.
Set Warnings "-register-all".

(* ================================================================== *)
(** ** JavaScript strings *)

Module JSString.

(** WhiteSpace and LineTerminator code units below 256 (what [trim] and the
    regular expression class [\s] remove): TAB, LF, VT, FF, CR, SP, NBSP. *)
Definition isWhiteSpace (c : ascii) : bool :=
  let n := nat_of_ascii c in
  ((9 <=? n)%nat && (n <=? 13)%nat) || (n =? 32)%nat || (n =? 160)%nat.

Fixpoint trimStart (s : string) : string :=
  match s with
  | EmptyString => EmptyString
  | String c r => if isWhiteSpace c then trimStart r else s
  end.

Fixpoint trimEnd (s : string) : string :=
  match s with
  | EmptyString => EmptyString
  | String c r =>
      match trimEnd r with
      | EmptyString => if isWhiteSpace c then EmptyString else String c EmptyString
      | r' => String c r'
      end
  end.

Definition trim (s : string) : string := trimEnd (trimStart s).

(** [toLowerCase] on code units below 256: A-Z, and the Latin-1 capitals
    U+00C0..U+00DE except the multiplication sign U+00D7. *)
Definition lowerChar (c : ascii) : ascii :=
  let n := nat_of_ascii c in
  if ((65 <=? n)%nat && (n <=? 90)%nat)
     || ((192 <=? n)%nat && (n <=? 222)%nat && negb (n =? 215)%nat)
  then ascii_of_nat (n + 32) else c.

Fixpoint toLowerCase (s : string) : string :=
  match s with
  | EmptyString => EmptyString
  | String c r => String (lowerChar c) (toLowerCase r)
  end.

Definition startsWith (s pre : string) : bool := String.prefix pre s.

Definition endsWith (s suf : string) : bool :=
  let n := String.length s in
  let k := String.length suf in
  (k <=? n)%nat && String.eqb (substring (n - k) k s) suf.

(** [s.split(sep)] for a one-character separator: never the empty list. *)
Fixpoint split (sep : ascii) (s : string) : list string :=
  match s with
  | EmptyString => [EmptyString]
  | String c r =>
      if Ascii.eqb c sep then EmptyString :: split sep r
      else match split sep r with
           | [] => [String c EmptyString]
           | h :: t => String c h :: t
           end
  end.

(** [parts.join(sep)]. *)
Definition join (sep : string) (parts : list string) : string :=
  String.concat sep parts.

(** [s.indexOf(q)]: [None] stands for -1. *)
Definition indexOf (s q : string) : option nat := String.index 0 q s.

(** [s.slice(start, end)] for [0 <= start] and [end <= s.length]. *)
Definition slice (s : string) (start stop : nat) : string :=
  substring start (stop - start) s.

(** [s.replace(/\s+/g, " ")]: every maximal run of white space becomes one
    space. *)
Fixpoint collapseWhiteSpace (s : string) : string :=
  match s with
  | EmptyString => EmptyString
  | String c r =>
      if isWhiteSpace c then
        match r with
        | String d _ =>
            if isWhiteSpace d then collapseWhiteSpace r
            else String " " (collapseWhiteSpace r)
        | EmptyString => String " " EmptyString
        end
      else String c (collapseWhiteSpace r)
  end.

(** The truthiness of a string: [!s] is [true] exactly on the empty one. *)
Definition nonEmpty (s : string) : bool :=
  match s with EmptyString => false | _ => true end.

End JSString.

(* ================================================================== *)
(** ** JavaScript numbers and values *)

Module JS.

(** A number: NaN, an infinity, or a finite value. *)
Inductive JSNumber : Type :=
| NaN
| NegInfinity
| Finite (q : Q)
| Infinity.

Definition ofZ (z : Z) : JSNumber := Finite (inject_Z z).
Definition ofNat (n : nat) : JSNumber := ofZ (Z.of_nat n).

(** [a >= b]: false as soon as one side is NaN. *)
Definition ge (a b : JSNumber) : bool :=
  match a, b with
  | NaN, _ | _, NaN => false
  | _, NegInfinity => true
  | Infinity, _ => true
  | NegInfinity, _ => false
  | Finite _, Infinity => false
  | Finite x, Finite y => Qle_bool y x
  end.

(** [Math.min(a, b)]: NaN as soon as one argument is NaN. *)
Definition Math_min (a b : JSNumber) : JSNumber :=
  match a, b with
  | NaN, _ | _, NaN => NaN
  | _, _ => if ge b a then a else b
  end.

(** The double nearest to the integer [x], ties to even (ECMA-262
    6.1.6.1): an integer of magnitude up to 2^53 is a double; a larger one
    is rounded to a multiple of its unit in the last place, the even
    multiple when it lies half way. *)
Definition roundToDouble (x : Z) : Z :=
  let a := Z.abs x in
  if (a <=? 2 ^ 53)%Z then x
  else
    let u := (2 ^ (Z.log2 a - 52))%Z in
    let q := (a / u)%Z in
    let r := (a mod u)%Z in
    let m := if (2 * r <? u)%Z then q
             else if (u <? 2 * r)%Z then (q + 1)%Z
             else if Z.even q then q else (q + 1)%Z in
    (Z.sgn x * (m * u))%Z.

(** [v + 1] on a number that holds the integer [v]: the exact sum, rounded
    to a double.  The sum is exact up to 2^53, where the number stops
    growing: [2^53 + 1] is rounded back to [2^53].  (Adding 1 to a double
    never overflows.) *)
Definition plusOne (v : Z) : Z := roundToDouble (v + 1).

(** What a script can throw here: [new Error(message)] from the handlers, and
    the runtime's [TypeError]. *)
Inductive JSError : Type :=
| Error (message : string)
| TypeError (message : string).

Inductive Result (A : Type) : Type :=
| Ok (a : A)
| Throw (e : JSError).
Arguments Ok {A} a.
Arguments Throw {A} e.

Definition isOk {A} (r : Result A) : bool :=
  match r with Ok _ => true | Throw _ => false end.

(** The values [JSON.parse] builds, and [undefined] for what is absent.  An
    object is the list of its own properties, first binding first. *)
Inductive JSValue : Type :=
| JUndefined
| JNull
| JBool (b : bool)
| JNum (n : JSNumber)
| JStr (s : string)
| JArr (items : list JSValue)
| JObj (fields : list (string * JSValue)).

Fixpoint assoc {A} (k : string) (l : list (string * A)) : option A :=
  match l with
  | [] => None
  | (k', v) :: r => if String.eqb k k' then Some v else assoc k r
  end.

Definition hasOwn (k : string) (fields : list (string * JSValue)) : bool :=
  match assoc k fields with Some _ => true | None => false end.

(** [p.name] on the own properties of a parsed object: none of the names the
    handlers read is inherited from [Object.prototype]. *)
Definition get (fields : list (string * JSValue)) (name : string) : JSValue :=
  match assoc name fields with Some v => v | None => JUndefined end.

(** [v ?? d]. *)
Definition nullish (v d : JSValue) : JSValue :=
  match v with
  | JUndefined | JNull => d
  | _ => v
  end.

(** [typeof v === "string" ? f(v) : ""]. *)
Definition stringOr (v : JSValue) (f : string -> string) : string :=
  match v with JStr s => f s | _ => EmptyString end.

(** What the runtime and the host provide: [StringToNumber] and
    [Number::toString] of ECMA-262, [Buffer#toString("utf8")],
    [JSON.parse] ([None] when it throws a SyntaxError) and the host's
    [normalizePath]. *)
Class Host : Type := {
  StringToNumber : string -> JSNumber;
  NumberToString : JSNumber -> string;
  utf8Decode : list Byte.byte -> string;
  JSON_parse : string -> option JSValue;
  normalizePath : string -> string
}.

Definition cannotConvert : JSError :=
  TypeError "Cannot convert object to primitive value".

Section Coercions.
Context `{Host}.

(** [ToString(v)] (ECMA-262 7.1.17).  A parsed object holds no function, so
    OrdinaryToPrimitive finds a callable [toString] exactly when the object
    has no own property of that name (it then inherits
    [Object.prototype.toString]); the inherited [valueOf] returns the object
    itself, and an own one is not callable.  An object with an own
    [toString] property therefore has no primitive value: TypeError.  An
    array is joined with commas, [undefined] and [null] items as empty
    strings. *)
Fixpoint ToString (v : JSValue) : Result string :=
  match v with
  | JUndefined => Ok "undefined"
  | JNull => Ok "null"
  | JBool true => Ok "true"
  | JBool false => Ok "false"
  | JNum n => Ok (NumberToString n)
  | JStr s => Ok s
  | JArr items =>
      (fix joinItems (l : list JSValue) : Result string :=
         match l with
         | [] => Ok EmptyString
         | x :: rest =>
             let sx := match x with
                       | JUndefined | JNull => Ok EmptyString
                       | _ => ToString x
                       end in
             match sx with
             | Throw e => Throw e
             | Ok s =>
                 match rest with
                 | [] => Ok s
                 | _ :: _ =>
                     match joinItems rest with
                     | Throw e => Throw e
                     | Ok r => Ok (s +:+ "," +:+ r)
                     end
                 end
             end
         end) items
  | JObj fields =>
      if hasOwn "toString" fields then Throw cannotConvert
      else Ok "[object Object]"
  end.

(** [Number(v)], that is [ToNumber(v)] (ECMA-262 7.1.4): an object or an
    array goes through its primitive value, which is the string above. *)
Definition Number (v : JSValue) : Result JSNumber :=
  match v with
  | JUndefined => Ok NaN
  | JNull => Ok (ofZ 0)
  | JBool true => Ok (ofZ 1)
  | JBool false => Ok (ofZ 0)
  | JNum n => Ok n
  | JStr s => Ok (StringToNumber s)
  | JArr _ | JObj _ =>
      match ToString v with
      | Throw e => Throw e
      | Ok s => Ok (StringToNumber s)
      end
  end.

End Coercions.

(** Modelled from the spec: [isRecord] of [src/utils/guard.ts], which is not
    among the sources.  The spec has each handler check field presence on an
    untyped params object; the guard accepts an object and nothing else.  A
    guard that also accepted arrays would give the same reads below: a parsed
    array has none of the properties the handlers ask for. *)
Definition isRecord (v : JSValue) : bool :=
  match v with JObj _ => true | _ => false end.

(** [isRecord(params) ? params : {}], as the list of own properties. *)
Definition recordOf (params : JSValue) : list (string * JSValue) :=
  if isRecord params then
    match params with JObj fields => fields | _ => [] end
  else [].

End JS.

Import JS.

(** The line feed, the path separator and the tag marker. *)
Definition LF : ascii := ascii_of_nat 10.
Definition newline : string := String LF EmptyString.
Definition slash : ascii := ascii_of_nat 47.
Definition hash : ascii := ascii_of_nat 35.

(* ================================================================== *)
(** ** Message codec: [src/utils/ws.ts] *)

(** [RawData] of the transport, with the two cases the function also tests
    for: a frame that is already a string, and anything else. *)
Inductive RawData : Type :=
| RawString (s : string)
| RawBuffer (bytes : list Byte.byte)
| RawArrayBuffer (bytes : list Byte.byte)
| RawFragments (chunks : list (list Byte.byte))
| RawOther.

(** [Buffer.concat(chunks)]. *)
Definition Buffer_concat (chunks : list (list Byte.byte)) : list Byte.byte :=
  List.concat chunks.

Definition rawToText `{Host} (raw : RawData) : string :=
  match raw with
  | RawString s => s
  | RawBuffer b => utf8Decode b
  | RawArrayBuffer b => utf8Decode b
  | RawFragments chunks => utf8Decode (Buffer_concat chunks)
  | RawOther => EmptyString
  end.

(* ================================================================== *)
(** ** The host application: vault and metadata cache *)

Module Obsidian.

Record FileStats : Type := { mtime : Z }.

Record TFile : Type := {
  path : string;
  basename : string;
  extension : string;
  stat : option FileStats
}.

(** A [TAbstractFile] is a [TFile], a [TFolder], or (as far as the type
    goes) neither. *)
Inductive TAbstractFile : Type :=
| AFile (f : TFile)
| AFolder (folderPath : string)
| AOther (otherPath : string).

Record TagCache : Type := { tag : string }.
Record CachedMetadata : Type := { tags : option (list TagCache) }.

Record MetadataCache : Type := {
  fileCache : list (string * CachedMetadata);
  resolvedLinks : option (list (string * list (string * Z)))
}.

(** What the handlers ask of the vault, in the order they ask it. *)
Inductive VaultOp : Type :=
| OpRead (p : string)
| OpCreateFolder (p : string)
| OpCreate (p : string) (data : string).

(** The vault: its entries by path in insertion order, the text of each
    file, the clock that stamps new files, and the journal of the calls
    made so far. *)
Record Vault : Type := {
  fileMap : list (string * TAbstractFile);
  contents : list (string * string);
  clock : Z;
  journal : list VaultOp
}.

Record App : Type := { vault : Vault; metadataCache : MetadataCache }.

Definition getAbstractFileByPath (v : Vault) (p : string) : option TAbstractFile :=
  assoc p (fileMap v).

Definition getMarkdownFiles (v : Vault) : list TFile :=
  flat_map (fun e => match snd e with
                     | AFile f => if String.eqb (extension f) "md" then [f] else []
                     | _ => []
                     end) (fileMap v).

Definition getFileCache (m : MetadataCache) (f : TFile) : option CachedMetadata :=
  assoc (path f) (fileCache m).

Definition logged (op : VaultOp) (v : Vault) : Vault :=
  {| fileMap := fileMap v; contents := contents v; clock := clock v;
     journal := journal v ++ [op] |}.

(** [await vault.cachedRead(f)]. *)
Definition cachedRead (f : TFile) (v : Vault) : string * Vault :=
  (match assoc (path f) (contents v) with Some text => text | None => EmptyString end,
   logged (OpRead (path f)) v).

(** The last path segment, cut at its last dot. *)
Definition fileName (p : string) : string :=
  List.last (JSString.split slash p) EmptyString.

Definition basenameOf (p : string) : string :=
  match JSString.split (ascii_of_nat 46) (fileName p) with
  | [] | [_] => fileName p
  | parts => JSString.join "." (removelast parts)
  end.

Definition extensionOf (p : string) : string :=
  match JSString.split (ascii_of_nat 46) (fileName p) with
  | [] | [_] => EmptyString
  | parts => List.last parts EmptyString
  end.

(** [await vault.createFolder(p)]: refused when something is at [p]. *)
Definition createFolder (p : string) (v : Vault) : Result unit * Vault :=
  match getAbstractFileByPath v p with
  | Some _ => (Throw (Error "Folder already exists."), v)
  | None =>
      (Ok tt,
       {| fileMap := fileMap v ++ [(p, AFolder p)]; contents := contents v;
          clock := clock v; journal := journal v ++ [OpCreateFolder p] |})
  end.

(** [await vault.create(p, data)]: refused when something is at [p]. *)
Definition create (p data : string) (v : Vault) : Result TFile * Vault :=
  match getAbstractFileByPath v p with
  | Some _ => (Throw (Error "File already exists."), v)
  | None =>
      let f := {| path := p; basename := basenameOf p; extension := extensionOf p;
                  stat := Some {| mtime := clock v |} |} in
      (Ok f,
       {| fileMap := fileMap v ++ [(p, AFile f)];
          contents := (p, data) :: contents v;
          clock := clock v; journal := journal v ++ [OpCreate p data] |})
  end.

Definition withVault (a : App) (v : Vault) : App :=
  {| vault := v; metadataCache := metadataCache a |}.

End Obsidian.

Import Obsidian.

(* ================================================================== *)
(** ** Result shapes: [src/types.ts] *)

Record GraphNode : Type := {
  node_id : string;
  node_path : string;
  node_title : string;
  node_mtime : Z;
  node_tags : list string
}.

Record GraphEdge : Type := {
  edge_source : string;
  edge_target : string;
  edge_count : Z
}.

Record NotePreview : Type := {
  preview_path : string;
  preview_title : string;
  preview_mtime : Z;
  preview_tags : list string;
  preview_excerpt : string
}.

Record SearchResult : Type := {
  result_path : string;
  result_title : string;
  result_snippet : string
}.

Record SearchResponse : Type := {
  response_query : string;
  response_results : list SearchResult
}.

(** [created] is the literal [true] in the source type. *)
Record CreateNoteResponse : Type := {
  created_path : string;
  created_title : string;
  created_mtime : Z
}.

(** What a registered method can return. [Unchanged v] is
    [{ version: v, changed: false }]; [Snapshot v nodes edges] is the
    [GraphSnapshot]. *)
Inductive RpcResult : Type :=
| Unchanged (version : JSNumber)
| Snapshot (version : JSNumber) (nodes : list GraphNode) (edges : list GraphEdge)
| Preview (p : NotePreview)
| Search (r : SearchResponse)
| Created (c : CreateNoteResponse).

(* ================================================================== *)
(** ** The registered methods: [src/rpc/methods.ts] *)

(** [tags.add(x)] on a [Set] kept in insertion order. *)
Definition setAdd (acc : list string) (x : string) : list string :=
  if existsb (String.eqb x) acc then acc else acc ++ [x].

(** [t.tag.startsWith("#") ? t.tag.slice(1) : t.tag]. *)
Definition stripMarker (t : string) : string :=
  match t with
  | String c r => if Ascii.eqb c hash then r else t
  | EmptyString => t
  end.

(** [if (t.tag) tags.add(...)]. *)
Definition addTag (acc : list string) (t : TagCache) : list string :=
  if JSString.nonEmpty (tag t) then setAdd acc (stripMarker (tag t)) else acc.

(** The loop both handlers run over [cache?.tags], and [[...tags]]. *)
Definition tagsOf (cache : option CachedMetadata) : list string :=
  match cache with
  | Some c =>
      match tags c with
      | Some ts => fold_left addTag ts []
      | None => []
      end
  | None => []
  end.

(** [f.stat?.mtime ?? 0]. *)
Definition mtimeOf (f : TFile) : Z :=
  match stat f with Some st => mtime st | None => 0%Z end.

Definition nodeOf (m : MetadataCache) (f : TFile) : GraphNode :=
  {| node_id := path f; node_path := path f; node_title := basename f;
     node_mtime := mtimeOf f; node_tags := tagsOf (getFileCache m f) |}.

Definition edgesOf (resolved : option (list (string * list (string * Z)))) : list GraphEdge :=
  match resolved with
  | Some links =>
      flat_map (fun st =>
                  map (fun tc => {| edge_source := fst st; edge_target := fst tc;
                                    edge_count := snd tc |}) (snd st)) links
  | None => []
  end.

Section Methods.
Context `{Host}.

(** A handler receives the params, the value [ctx.getGraphVersion()] would
    return, and the application [ctx.app] it may change. *)
Definition Handler : Type := JSValue -> JSNumber -> App -> Result RpcResult * App.

Definition rpcGraphGetSnapshot : Handler := fun params graphVersion app =>
  let p := recordOf params in
  match Number (nullish (get p "sinceVersion") (JNum (ofZ (-1)))) with
  | Throw e => (Throw e, app)
  | Ok sinceVersion =>
      if ge sinceVersion (ofZ 0) && ge sinceVersion graphVersion then
        (Ok (Unchanged graphVersion), app)
      else
        let files := getMarkdownFiles (vault app) in
        let nodes := map (nodeOf (metadataCache app)) files in
        let edges := edgesOf (resolvedLinks (metadataCache app)) in
        (Ok (Snapshot graphVersion nodes edges), app)
  end.

(** [content.split("\n").slice(0, 30).join("\n")]. *)
Definition excerptOf (content : string) : string :=
  JSString.join newline (take 30 (JSString.split LF content)).

Definition rpcNoteGetPreview : Handler := fun params _ app =>
  let p := recordOf params in
  let path := stringOr (get p "path") (fun s => s) in
  if negb (JSString.nonEmpty path) then (Throw (Error "Missing params.path"), app)
  else
    match getAbstractFileByPath (vault app) path with
    | Some (AFile file) =>
        let cache := getFileCache (metadataCache app) file in
        let tags := tagsOf cache in
        let (content, v') := cachedRead file (vault app) in
        (Ok (Preview {| preview_path := Obsidian.path file;
                        preview_title := basename file;
                        preview_mtime := mtimeOf file;
                        preview_tags := tags;
                        preview_excerpt := excerptOf content |}),
         withVault app v')
    | _ => (Throw (Error ("Not a file: " +:+ path)), app)
    end.

(** The snippet around a match at [idx]. *)
Definition snippetOf (content q : string) (idx : nat) : string :=
  let start := Nat.max 0 (idx - 80) in
  let stop := Nat.min (String.length content) (idx + String.length q + 80) in
  JSString.collapseWhiteSpace (JSString.slice content start stop).

(** The [for (const f of files)] loop of [rpcSearchQuery]: [results] is the
    array filled so far. *)
Fixpoint searchLoop (q : string) (limit : JSNumber) (files : list TFile)
    (results : list SearchResult) (v : Vault) : list SearchResult * Vault :=
  match files with
  | [] => (results, v)
  | f :: rest =>
      if ge (ofNat (length results)) limit then (results, v)
      else
        let (content, v') := cachedRead f v in
        match JSString.indexOf (JSString.toLowerCase content) (JSString.toLowerCase q) with
        | None => searchLoop q limit rest results v'
        | Some idx =>
            searchLoop q limit rest
              (results ++ [{| result_path := path f; result_title := basename f;
                              result_snippet := snippetOf content q idx |}]) v'
        end
  end.

Definition rpcSearchQuery : Handler := fun params _ app =>
  let p := recordOf params in
  let q := stringOr (get p "q") JSString.trim in
  if negb (JSString.nonEmpty q) then (Throw (Error "Missing params.q"), app)
  else
    match Number (nullish (get p "limit") (JNum (ofZ 50))) with
    | Throw e => (Throw e, app)
    | Ok n =>
        let limit := Math_min n (ofZ 200) in
        let files := getMarkdownFiles (vault app) in
        let (results, v') := searchLoop q limit files [] (vault app) in
        (Ok (Search {| response_query := q; response_results := results |}),
         withVault app v')
    end.

(** The loop of [ensureFolderPath]; [current] is the prefix built so far. *)
Fixpoint ensureLoop (segments : list string) (current : string) (v : Vault)
    : Result unit * Vault :=
  match segments with
  | [] => (Ok tt, v)
  | segment :: rest =>
      let current' :=
        if JSString.nonEmpty current then current +:+ "/" +:+ segment else segment in
      match getAbstractFileByPath v current' with
      | None =>
          match createFolder current' v with
          | (Throw e, v') => (Throw e, v')
          | (Ok _, v') => ensureLoop rest current' v'
          end
      | Some (AFolder _) => ensureLoop rest current' v
      | Some _ => (Throw (Error ("Path segment is not a folder: " +:+ current')), v)
      end
  end.

Definition ensureFolderPath (folderPath : string) (v : Vault) : Result unit * Vault :=
  let segments := List.filter JSString.nonEmpty (JSString.split slash folderPath) in
  ensureLoop segments EmptyString v.

(** The text [rpcNoteCreate] writes. *)
Definition noteContent (heading body : string) : string :=
  "# " +:+ heading +:+ newline +:+ newline +:+ JSString.trimEnd body +:+ newline.

Definition rpcNoteCreate : Handler := fun params _ app =>
  let p := recordOf params in
  let rawPath := stringOr (get p "path") JSString.trim in
  let heading := stringOr (get p "heading") JSString.trim in
  let body := stringOr (get p "body") (fun s => s) in
  if negb (JSString.nonEmpty rawPath) then (Throw (Error "Missing params.path"), app)
  else if negb (JSString.nonEmpty heading) then (Throw (Error "Missing params.heading"), app)
  else
    let path := normalizePath rawPath in
    if negb (JSString.endsWith (JSString.toLowerCase path) ".md") then
      (Throw (Error "params.path must end with .md"), app)
    else
      match getAbstractFileByPath (vault app) path with
      | Some (AFile _) => (Throw (Error ("File already exists: " +:+ path)), app)
      | Some (AOther _) =>
          (Throw (Error ("Path already exists and is not a markdown file: " +:+ path)), app)
      | _ =>
          let folderPath := JSString.join "/" (removelast (JSString.split slash path)) in
          let ensured :=
            if JSString.nonEmpty folderPath then ensureFolderPath folderPath (vault app)
            else (Ok tt, vault app) in
          match ensured with
          | (Throw e, v1) => (Throw e, withVault app v1)
          | (Ok _, v1) =>
              match create path (noteContent heading body) v1 with
              | (Throw e, v2) => (Throw e, withVault app v2)
              | (Ok file, v2) =>
                  (Ok (Created {| created_path := Obsidian.path file;
                                  created_title := basename file;
                                  created_mtime := mtimeOf file |}),
                   withVault app v2)
              end
          end
      end.

(** [addMethod] of the server: the name's previous handler is replaced. *)
Definition addMethod (name : string) (method : Handler)
    (server : gmap string Handler) : gmap string Handler :=
  <[name := method]> server.

(** Calling a method by name: the registered handler applied to the params
    and the context, [None] when the name is not registered. *)
Definition dispatch (server : gmap string Handler) (name : string)
    (params : JSValue) (graphVersion : JSNumber) (app : App)
    : option (Result RpcResult * App) :=
  match server !! name with
  | Some method => Some (method params graphVersion app)
  | None => None
  end.

Definition registerRpcMethods (server : gmap string Handler) : gmap string Handler :=
  let server := addMethod "graph.getSnapshot" (fun params ctx => rpcGraphGetSnapshot params ctx) server in
  let server := addMethod "note.getPreview" (fun params ctx => rpcNoteGetPreview params ctx) server in
  let server := addMethod "search.query" (fun params ctx => rpcSearchQuery params ctx) server in
  let server := addMethod "note.create" (fun params ctx => rpcNoteCreate params ctx) server in
  addMethod "createNote" (fun params ctx => rpcNoteCreate params ctx) server.

End Methods.

(* ================================================================== *)
(** ** The transport: sockets and what was sent on them *)

Inductive ErrorKind : Type := MethodNotFound | ApplicationError.

(** A frame stands for the text [JSON.stringify] makes of the envelope. *)
Inductive Frame : Type :=
| NotificationFrame (method : string) (params : JSValue)
| RequestFrame (id : Z) (method : string) (params : JSValue)
| SuccessFrame (id : JSValue) (result : RpcResult)
| ErrorFrame (id : JSValue) (kind : ErrorKind) (message : string).

Inductive ReadyState : Type := CONNECTING | OPEN | CLOSING | CLOSED.

Record WebSocket : Type := {
  readyState : ReadyState;
  sent : list Frame
}.

Definition isOpen (s : WebSocket) : bool :=
  match readyState s with OPEN => true | _ => false end.

(** [socket.send(frame)]. *)
Definition socketSend (frame : Frame) (s : WebSocket) : WebSocket :=
  {| readyState := readyState s; sent := sent s ++ [frame] |}.

(** [ws.close()]: starts the closing handshake of a socket that is not yet
    closing or closed. *)
Definition socketClose (s : WebSocket) : WebSocket :=
  match readyState s with
  | CLOSING | CLOSED => s
  | _ => {| readyState := CLOSING; sent := sent s |}
  end.

(** The send function [createServerAndClient] gives the client
    ([src/rpc/wsRpcServer.ts]): it rejects when there is no socket or the
    socket is not open, and sends otherwise. *)
Definition clientSend (request : Frame) (socket : option nat)
    (sockets : gmap nat WebSocket) : Result unit * gmap nat WebSocket :=
  match socket with
  | None => (Throw (Error "Socket is not open"), sockets)
  | Some ws =>
      match sockets !! ws with
      | Some s =>
          if isOpen s then (Ok tt, <[ws := socketSend request s]> sockets)
          else (Throw (Error "Socket is not open"), sockets)
      | None => (Throw (Error "Socket is not open"), sockets)
      end
  end.

(* ================================================================== *)
(** ** The per-connection session *)

Inductive Outcome : Type :=
| Resolved (result : JSValue)
| Rejected (message : string).

(** Modelled from the spec: the session object ([JSONRPCServerAndClient] of
    the json-rpc-2.0 package, which is not among the sources).  Spec 3: a
    method registry, and a table of pending outbound requests keyed by
    request id, each with the moment it was issued.  [settled] records every
    outbound call that completed, in order. *)
Record Session : Type := {
  methods : gmap string Handler;
  pending : gmap Z Z;
  nextId : Z;
  settled : list (Z * Outcome)
}.

(** Modelled from the spec: [notifyRemote] (spec 4.3), the package's
    [notify]: send a Notification, create no pending entry; a failure of the
    send is not reported. *)
Definition notify (method : string) (params : JSValue) (socket : option nat)
    (sockets : gmap nat WebSocket) : gmap nat WebSocket :=
  snd (clientSend (NotificationFrame method params) socket sockets).

(** Modelled from the spec: [callRemote] (spec 4.3), the package's
    [request]: take an id no pending request has, store the pending entry,
    send the Request.  [now] is the moment of the call. *)
Definition request (method : string) (params : JSValue) (socket : option nat) (now : Z)
    (s : Session) (sockets : gmap nat WebSocket) : Session * gmap nat WebSocket :=
  let id := nextId s in
  let s1 := {| methods := methods s; pending := <[id := now]> (pending s);
               nextId := (id + 1)%Z; settled := settled s |} in
  match clientSend (RequestFrame id method params) socket sockets with
  | (Ok _, sockets') => (s1, sockets')
  | (Throw e, sockets') =>
      ({| methods := methods s; pending := pending s; nextId := (id + 1)%Z;
          settled := settled s ++ [(id, Rejected "Socket is not open")] |}, sockets')
  end.

(** Modelled from the spec: [closeAndDrain] (spec 4.3), the package's
    [rejectAllPendingRequests]: fail every pending entry with the message and
    clear the table. *)
Definition rejectAllPendingRequests (message : string) (s : Session) : Session :=
  {| methods := methods s;
     pending := ∅;
     nextId := nextId s;
     settled := settled s ++ map (fun e => (fst e, Rejected message)) (map_to_list (pending s)) |}.

(** The id of a Response as a key of the pending table. *)
Definition idKey (id : JSValue) : option Z :=
  match id with
  | JNum (Finite q) =>
      if Pos.eqb (Qden (Qred q)) 1 then Some (Qnum (Qred q)) else None
  | _ => None
  end.

Definition isScalarId (id : JSValue) : bool :=
  match id with JNum _ | JStr _ => true | _ => false end.

Definition isDefined (v : JSValue) : bool :=
  match v with JUndefined => false | _ => true end.

Definition errorMessage (e : JSError) : string :=
  match e with Error m | TypeError m => m end.

(** Modelled from the spec: the Response case of [handleIncoming] (spec
    4.2): a Response settles the pending entry of its id and removes it;
    one that matches no pending entry is discarded. *)
Definition receiveResponse (payload : list (string * JSValue)) (s : Session) : Session :=
  match idKey (get payload "id") with
  | Some id =>
      match pending s !! id with
      | Some _ =>
          let outcome :=
            match get payload "error" with
            | JUndefined => Resolved (get payload "result")
            | err => Rejected (match err with
                               | JObj fields => stringOr (get fields "message") (fun m => m)
                               | _ => EmptyString
                               end)
            end in
          {| methods := methods s; pending := delete id (pending s);
             nextId := nextId s; settled := settled s ++ [(id, outcome)] |}
      | None => s
      end
  | None => s
  end.

(** The envelope carries [jsonrpc: "2.0"]. *)
Definition hasJsonRpcMarker (fields : list (string * JSValue)) : bool :=
  match get fields "jsonrpc" with
  | JStr marker => String.eqb marker "2.0"
  | _ => false
  end.

(** Modelled from the spec: [handleIncoming] (spec 4.2 and 4.3), the
    package's [receiveAndSend], with the rejection the message handler of
    [src/rpc/wsRpcServer.ts] swallows.  A payload that is not an object
    carrying [jsonrpc: "2.0"] is dropped.  With a [method]: an absent id
    makes it a Notification (handler run, nothing sent), a scalar id a
    Request (exactly one Response on that id: the result, the handler's
    error, or "method not found"), any other id is invalid and dropped.
    Without a [method]: an id with a result or an error is a Response. *)
Definition receiveAndSend (payload : JSValue) (graphVersion : JSNumber) (socket : option nat)
    (s : Session) (sockets : gmap nat WebSocket) (app : App)
    : Session * gmap nat WebSocket * App :=
  match payload with
  | JObj fields =>
      if hasJsonRpcMarker fields then
        match get fields "method" with
        | JStr method =>
            let id := get fields "id" in
            match id with
            | JUndefined =>
                match methods s !! method with
                | Some handler =>
                    let ra : Result RpcResult * App :=
                      handler (get fields "params") graphVersion app in
                    (s, sockets, snd ra)
                | None => (s, sockets, app)
                end
            | _ =>
                if isScalarId id then
                  match methods s !! method with
                  | Some handler =>
                      let ra : Result RpcResult * App :=
                        handler (get fields "params") graphVersion app in
                      let frame := match fst ra with
                                   | Ok result => SuccessFrame id result
                                   | Throw e => ErrorFrame id ApplicationError (errorMessage e)
                                   end in
                      (s, snd (clientSend frame socket sockets), snd ra)
                  | None =>
                      (s, snd (clientSend (ErrorFrame id MethodNotFound "Method not found")
                                 socket sockets), app)
                  end
                else (s, sockets, app)
            end
        | JUndefined =>
            if isDefined (get fields "id")
               && (isDefined (get fields "result") || isDefined (get fields "error"))
            then (receiveResponse fields s, sockets, app)
            else (s, sockets, app)
        | _ => (s, sockets, app)
        end
      else (s, sockets, app)
  | _ => (s, sockets, app)
  end.

(* ================================================================== *)
(** ** The server supervisor: [src/rpc/wsRpcServer.ts] *)

(** [onClientConnected] tells whether the optional callback is given; the
    one the plugin gives shows a notice. *)
Record WsRpcServerOptions : Type := {
  host : string;
  port : Z;
  onClientConnected : bool
}.

(** A [WebSocketServer] of the transport. *)
Record Listener : Type := {
  listen_host : string;
  listen_port : Z;
  listening : bool
}.

(** What the server and its event handlers share: the sockets of the
    transport and the session object created for each, by socket identity;
    every listening socket created so far; the notices shown by
    [onClientConnected]; the application. *)
Record Env : Type := {
  sockets : gmap nat WebSocket;
  sessions : gmap nat Session;
  listeners : list Listener;
  notices : nat;
  app : App
}.

(** [clients] is the key list of the [Map] in insertion order; the value
    under a socket is the session object created for it. *)
Record WsRpcServer : Type := {
  options : WsRpcServerOptions;
  wss : option nat;
  clients : list nat
}.

Definition withSockets (e : Env) (s : gmap nat WebSocket) : Env :=
  {| sockets := s; sessions := sessions e; listeners := listeners e;
     notices := notices e; app := app e |}.

Definition withSessions (e : Env) (s : gmap nat Session) : Env :=
  {| sockets := sockets e; sessions := s; listeners := listeners e;
     notices := notices e; app := app e |}.

Definition withClients (srv : WsRpcServer) (c : list nat) : WsRpcServer :=
  {| options := options srv; wss := wss srv; clients := c |}.

(** [Map.prototype.set] and [delete] on the key list. *)
Definition mapSet (ws : nat) (keys : list nat) : list nat :=
  if existsb (Nat.eqb ws) keys then keys else keys ++ [ws].

Definition mapDelete (ws : nat) (keys : list nat) : list nat :=
  List.filter (fun k => negb (Nat.eqb ws k)) keys.

(** [`${code}`] for an integral code. *)
Definition decimal (code : Z) : string :=
  NilEmpty.string_of_int (Z.to_int code).

Section Server.
Context `{Host}.

Definition start (srv : WsRpcServer) (env : Env) : WsRpcServer * Env :=
  match wss srv with
  | Some _ => (srv, env)
  | None =>
      ({| options := options srv; wss := Some (length (listeners env));
          clients := clients srv |},
       {| sockets := sockets env; sessions := sessions env;
          listeners := listeners env ++
            [{| listen_host := host (options srv); listen_port := port (options srv);
                listening := true |}];
          notices := notices env; app := app env |})
  end.

Definition createServerAndClient : Session :=
  {| methods := registerRpcMethods ∅; pending := ∅; nextId := 1%Z; settled := [] |}.

(** [{ version: v }]. *)
Definition versionParams (v : Z) : JSValue := JObj [("version", JNum (ofZ v))].

(** The ["connection"] handler; [graphVersion] is what [getGraphVersion()]
    returns at that moment. *)
Definition onConnection (ws : nat) (graphVersion : Z) (srv : WsRpcServer) (env : Env)
    : WsRpcServer * Env :=
  let serverAndClient := createServerAndClient in
  (withClients srv (mapSet ws (clients srv)),
   {| sockets := notify "hello" (versionParams graphVersion) (Some ws) (sockets env);
      sessions := <[ws := serverAndClient]> (sessions env);
      listeners := listeners env;
      notices := if onClientConnected (options srv) then S (notices env) else notices env;
      app := app env |}).

(** The message of the ["close"] handler. [reason] is [None] when the
    handler finds it falsy. *)
Definition closeMessage (code : Z) (reason : option (list Byte.byte)) : string :=
  let reasonText := match reason with Some r => utf8Decode r | None => EmptyString end in
  "Connection is closed (" +:+ decimal code
    +:+ (if JSString.nonEmpty reasonText then ": " +:+ reasonText else EmptyString)
    +:+ ").".

Definition onClose (ws : nat) (code : Z) (reason : option (list Byte.byte))
    (srv : WsRpcServer) (env : Env) : WsRpcServer * Env :=
  (withClients srv (mapDelete ws (clients srv)),
   withSessions env
     (alter (rejectAllPendingRequests (closeMessage code reason)) ws (sessions env))).

(** The ["message"] handler. *)
Definition onMessage (ws : nat) (raw : RawData) (graphVersion : Z)
    (srv : WsRpcServer) (env : Env) : WsRpcServer * Env :=
  let text := rawToText raw in
  if negb (JSString.nonEmpty text) then (srv, env)
  else
    match JSON_parse text with
    | None => (srv, env)
    | Some payload =>
        match sessions env !! ws with
        | Some serverAndClient =>
            match receiveAndSend payload (ofZ graphVersion) (Some ws) serverAndClient
                    (sockets env) (app env) with
            | (s', sockets', app') =>
                (srv,
                 {| sockets := sockets'; sessions := <[ws := s']> (sessions env);
                    listeners := listeners env; notices := notices env; app := app' |})
            end
        | None => (srv, env)
        end
    end.

Definition closeListener (l : Listener) : Listener :=
  {| listen_host := listen_host l; listen_port := listen_port l; listening := false |}.

Definition stop (srv : WsRpcServer) (env : Env) : WsRpcServer * Env :=
  let env1 :=
    fold_left (fun e ws =>
                 {| sockets := alter socketClose ws (sockets e);
                    sessions := alter (rejectAllPendingRequests "Connection closed.") ws (sessions e);
                    listeners := listeners e; notices := notices e; app := app e |})
              (clients srv) env in
  ({| options := options srv; wss := None; clients := [] |},
   {| sockets := sockets env1; sessions := sessions env1;
      listeners := match wss srv with
                   | Some i => alter closeListener i (listeners env1)
                   | None => listeners env1
                   end;
      notices := notices env1; app := app env1 |}).

Definition notifyAll (method : string) (params : JSValue) (srv : WsRpcServer) (env : Env) : Env :=
  withSockets env
    (fold_left (fun socks ws => notify method params (Some ws) socks) (clients srv) (sockets env)).

(* ------------------------------------------------------------------ *)
(** ** The plugin: [src/main.ts] *)

Record Plugin : Type := {
  graphVersion : Z;
  rpcServer : option WsRpcServer
}.

Definition bumpGraphVersion (p : Plugin) (env : Env) : Plugin * Env :=
  let v := plusOne (graphVersion p) in
  ({| graphVersion := v; rpcServer := rpcServer p |},
   match rpcServer p with
   | Some srv => notifyAll "graph.changed" (versionParams v) srv env
   | None => env
   end).

(** The vault events [onload] subscribes to; each calls
    [bumpGraphVersion]. *)
Inductive VaultEvent : Type := Modify | Create | Delete | Rename.

Definition onVaultEvent (e : VaultEvent) (p : Plugin) (env : Env) : Plugin * Env :=
  match e with
  | Modify => bumpGraphVersion p env
  | Create => bumpGraphVersion p env
  | Delete => bumpGraphVersion p env
  | Rename => bumpGraphVersion p env
  end.

(** The options [onload] passes. *)
Definition defaultOptions : WsRpcServerOptions :=
  {| host := "0.0.0.0"; port := 8787; onClientConnected := true |}.

(** [new WsRpcServer(...)] before [start()]. *)
Definition newServer : WsRpcServer :=
  {| options := defaultOptions; wss := None; clients := [] |}.

(** [onload], as far as the server goes: create it and start it. *)
Definition onload (p : Plugin) (env : Env) : Plugin * Env :=
  let started := start newServer env in
  ({| graphVersion := graphVersion p; rpcServer := Some (fst started) |}, snd started).

Definition onunload (p : Plugin) (env : Env) : Plugin * Env :=
  match rpcServer p with
  | Some srv => ({| graphVersion := graphVersion p; rpcServer := None |}, snd (stop srv env))
  | None => ({| graphVersion := graphVersion p; rpcServer := None |}, env)
  end.

(** A connection accepted by the plugin's server: the handler reads
    [this.graphVersion] through the closure given to the server. *)
Definition onClientSocket (ws : nat) (p : Plugin) (env : Env) : Plugin * Env :=
  match rpcServer p with
  | Some srv =>
      let (srv', env') := onConnection ws (graphVersion p) srv env in
      ({| graphVersion := graphVersion p; rpcServer := Some srv' |}, env')
  | None => (p, env)
  end.

End Server.

(* ================================================================== *)
(** ** A host to run the definitions on *)

(** The properties below hold for every [Host].  To evaluate the
    definitions on concrete inputs, [exampleHost] fixes one: it agrees with
    the runtime on the inputs the examples use (unsigned decimal integers
    and non-numeric words for [StringToNumber], integral numbers for
    [NumberToString], ASCII bytes for the decoder, a few JSON texts for
    [JSON.parse]), and says so where it is partial. *)
Module Example.

Fixpoint digitsValue (s : string) (acc : N) : option N :=
  match s with
  | EmptyString => Some acc
  | String c r =>
      let n := N_of_ascii c in
      if ((48 <=? n) && (n <=? 57))%N then digitsValue r (acc * 10 + (n - 48))%N
      else None
  end.

(** White space is trimmed, the empty string is 0, a run of decimal digits
    is its value; every other string is read as NaN (exact for strings that
    are no numeric literal at all, such as ["abc"]). *)
Definition stringToNumber (s : string) : JSNumber :=
  match JSString.trim s with
  | EmptyString => ofZ 0
  | t => match digitsValue t 0 with
         | Some n => ofZ (Z.of_N n)
         | None => NaN
         end
  end.

(** Exact on NaN, the infinities and integral values. *)
Definition numberToString (n : JSNumber) : string :=
  match n with
  | NaN => "NaN"
  | Infinity => "Infinity"
  | NegInfinity => "-Infinity"
  | Finite q => decimal (Qfloor q)
  end.

(** Exact on bytes below 128. *)
Definition decodeAscii (bytes : list Byte.byte) : string :=
  string_of_list_byte bytes.

(** The texts of [{}], [[]], [null] and [1]; every other text is taken to be
    malformed. *)
Definition parseJson (text : string) : option JSValue :=
  if String.eqb text "{}" then Some (JObj [])
  else if String.eqb text "[]" then Some (JArr [])
  else if String.eqb text "null" then Some JNull
  else if String.eqb text "1" then Some (JNum (ofZ 1))
  else None.

(** A slash or a back slash. *)
Definition isSeparator (c : ascii) : bool :=
  let n := nat_of_ascii c in (n =? 47)%nat || (n =? 92)%nat.

Fixpoint collapseSeparators (s : string) : string :=
  match s with
  | EmptyString => EmptyString
  | String c r =>
      if isSeparator c then
        match r with
        | String d _ =>
            if isSeparator d then collapseSeparators r
            else String slash (collapseSeparators r)
        | EmptyString => String slash EmptyString
        end
      else String (if (nat_of_ascii c =? 160)%nat then " "%char else c)
                  (collapseSeparators r)
  end.

Definition stripSlashes (s : string) : string :=
  let s1 := match s with
            | String c r => if Ascii.eqb c slash then r else s
            | EmptyString => s
            end in
  let n := String.length s1 in
  if JSString.endsWith s1 "/" then substring 0 (n - 1) s1 else s1.

(** The host's path normalisation on code units below 256: back slashes
    become slashes, runs of slashes collapse, leading and trailing slashes
    go, the empty path is the root, a no-break space becomes a space. *)
Definition normalize (p : string) : string :=
  match stripSlashes (collapseSeparators p) with
  | EmptyString => "/"
  | q => q
  end.

End Example.

#[local] Instance exampleHost : Host := {|
  StringToNumber := Example.stringToNumber;
  NumberToString := Example.numberToString;
  utf8Decode := Example.decodeAscii;
  JSON_parse := Example.parseJson;
  normalizePath := Example.normalize
|}.

(** An application with no file, and one with the given notes. *)
Definition emptyVault : Vault :=
  {| fileMap := []; contents := []; clock := 0%Z; journal := [] |}.

Definition emptyCache : MetadataCache :=
  {| fileCache := []; resolvedLinks := None |}.

Definition emptyApp : App := {| vault := emptyVault; metadataCache := emptyCache |}.

(** The file object of a note at [p]. *)
Definition noteAt (p : string) : TFile :=
  {| path := p; basename := basenameOf p; extension := extensionOf p;
     stat := Some {| mtime := 0%Z |} |}.

Definition vaultOf (notes : list (string * string)) : Vault :=
  {| fileMap := map (fun n => (fst n, AFile (noteAt (fst n)))) notes;
     contents := notes; clock := 0%Z; journal := [] |}.

Definition appOf (notes : list (string * string)) : App :=
  {| vault := vaultOf notes; metadataCache := emptyCache |}.

Definition emptyEnv : Env :=
  {| sockets := ∅; sessions := ∅; listeners := []; notices := 0; app := emptyApp |}.

(* ================================================================== *)
(** ** Vocabulary of the properties *)

(** [c] occurs in [s]. *)
Fixpoint hasChar (c : ascii) (s : string) : bool :=
  match s with
  | EmptyString => false
  | String d r => Ascii.eqb d c || hasChar c r
  end.

(** The lines of a text. *)
Definition lines (text : string) : list string := JSString.split LF text.

(** The text [cachedRead] returns for a file. *)
Definition noteText (v : Vault) (f : TFile) : string := fst (cachedRead f v).

(** The tags the metadata cache holds for a file, as stored. *)
Definition cacheTags (m : MetadataCache) (f : TFile) : list string :=
  match getFileCache m f with
  | Some c => match tags c with Some ts => map tag ts | None => [] end
  | None => []
  end.

(** A [sinceVersion] (or [limit]) is supplied when it is neither absent nor
    [null]: [??] then keeps it. *)
Definition isSupplied (v : JSValue) : bool :=
  match v with JUndefined | JNull => false | _ => true end.

(** The number [rpcGraphGetSnapshot] compares with the version. *)
Definition sinceVersionOf `{Host} (params : JSValue) : Result JSNumber :=
  Number (nullish (get (recordOf params) "sinceVersion") (JNum (ofZ (-1)))).

(** The number [rpcSearchQuery] caps at 200. *)
Definition limitOf `{Host} (params : JSValue) : Result JSNumber :=
  Number (nullish (get (recordOf params) "limit") (JNum (ofZ 50))).

(** [n] notes, each containing the word foo. *)
Definition notesWithFoo (n : nat) : list (string * string) :=
  map (fun i => ("n" +:+ decimal (Z.of_nat i) +:+ ".md", "foo")) (seq 0 n).

(** The sessions the plugin's server holds live. *)
Definition liveSessions (p : Plugin) : list nat :=
  match rpcServer p with Some srv => clients srv | None => [] end.

Definition openSocket : WebSocket := {| readyState := OPEN; sent := [] |}.
Definition closingSocket : WebSocket := {| readyState := CLOSING; sent := [] |}.

(** A session on socket 0 with two outbound calls pending. *)
Definition twoCalls : Session * gmap nat WebSocket :=
  let first := request "ping" JNull (Some 0) 5 createServerAndClient {[ 0 := openSocket ]} in
  request "ping" JNull (Some 0) 7 (fst first) (snd first).

Definition listeningServer (live : list nat) : WsRpcServer :=
  {| options := defaultOptions; wss := Some 0; clients := live |}.

Definition envWith (socks : gmap nat WebSocket) (sess : gmap nat Session) : Env :=
  {| sockets := socks; sessions := sess;
     listeners := [{| listen_host := "0.0.0.0"; listen_port := 8787; listening := true |}];
     notices := 0; app := emptyApp |}.

(** The plugin at version [v], its server listening with the sessions
    [live]. *)
Definition pluginWith (v : Z) (live : list nat) : Plugin :=
  {| graphVersion := v; rpcServer := Some (listeningServer live) |}.

(** The folder paths [ensureFolderPath] visits for the segments left, from
    the prefix [current]. *)
Fixpoint prefixesFrom (current : string) (segments : list string) : list string :=
  match segments with
  | [] => []
  | segment :: rest =>
      let current' :=
        if JSString.nonEmpty current then current +:+ "/" +:+ segment else segment in
      current' :: prefixesFrom current' rest
  end.

(** The intermediate folders of a note path, outermost first: for
    [a/b/c.md] they are [a] and [a/b]. *)
Definition intermediateFolders (path : string) : list string :=
  prefixesFrom EmptyString
    (List.filter JSString.nonEmpty (removelast (JSString.split slash path))).

(** Nothing is at [p] in the vault. *)
Definition missingIn (v : Vault) (p : string) : bool :=
  match getAbstractFileByPath v p with None => true | Some _ => false end.

(** The vault after [createFolder] on each path of [created], in order. *)
Definition withFolders (v : Vault) (created : list string) : Vault :=
  {| fileMap := fileMap v ++ map (fun p => (p, AFolder p)) created;
     contents := contents v;
     clock := clock v;
     journal := journal v ++ map OpCreateFolder created |}.

(** The fields [rpcNoteCreate] reads from its params. *)
Definition rawPathOf (params : JSValue) : string :=
  stringOr (get (recordOf params) "path") JSString.trim.
Definition headingOf (params : JSValue) : string :=
  stringOr (get (recordOf params) "heading") JSString.trim.
Definition bodyOf (params : JSValue) : string :=
  stringOr (get (recordOf params) "body") (fun s => s).

(** One character more than the length of each segment. *)
Definition weight (l : list string) : nat :=
  fold_right (fun x n => S (String.length x) + n) 0 l.

(** A vault with the note [a.md] of two lines, last modified at 42, tagged
    [#x], [x] and [#y] in the metadata cache. *)
Definition stampedNote : TFile :=
  {| path := "a.md"; basename := "a"; extension := "md";
     stat := Some {| mtime := 42%Z |} |}.

Definition stampedApp : App :=
  {| vault := {| fileMap := [("a.md", AFile stampedNote)];
                 contents := [("a.md", "one" +:+ newline +:+ "two")];
                 clock := 50%Z; journal := [] |};
     metadataCache :=
       {| fileCache := [("a.md", {| tags := Some [{| tag := "#x" |}; {| tag := "x" |};
                                                  {| tag := "#y" |}] |})];
          resolvedLinks := None |} |}.

(** A socket that can be sent frames, in an environment where nothing
    listens. *)
Definition oneSocketEnv : Env :=
  {| sockets := {[ 0 := openSocket ]}; sessions := ∅; listeners := []; notices := 0;
     app := emptyApp |}.

(** [{ path: "a/b/c.md", heading: " H", body: "text " }]: a heading with a
    leading space and a body with a trailing one. *)
Definition spacedNote : JSValue :=
  JObj [("path", JStr "a/b/c.md"); ("heading", JStr " H"); ("body", JStr "text ")].

(** A parsed frame that does not carry the [jsonrpc: "2.0"] marker: a
    scalar or [null], an object without the marker, or an array none of
    whose items carries it. *)
Fixpoint lacksMarker (payload : JSValue) : bool :=
  match payload with
  | JObj fields => negb (hasJsonRpcMarker fields)
  | JArr items =>
      (fix all (l : list JSValue) : bool :=
         match l with
         | [] => true
         | x :: rest => lacksMarker x && all rest
         end) items
  | _ => true
  end.

(** The result [rpcSearchQuery] pushes for a file whose text contains the
    query, [None] for a file it skips. *)
Definition matchOf (q : string) (v : Vault) (f : TFile) : option SearchResult :=
  match JSString.indexOf (JSString.toLowerCase (noteText v f)) (JSString.toLowerCase q) with
  | Some idx =>
      Some {| result_path := path f; result_title := basename f;
              result_snippet := snippetOf (noteText v f) q idx |}
  | None => None
  end.

(** The vault after [cachedRead] on each of the files, in order. *)
Definition withReads (v : Vault) (files : list TFile) : Vault :=
  {| fileMap := fileMap v; contents := contents v; clock := clock v;
     journal := journal v ++ map (fun f => OpRead (path f)) files |}.

(** The query [rpcSearchQuery] searches for. *)
Definition queryOf (params : JSValue) : string :=
  stringOr (get (recordOf params) "q") JSString.trim.

(** The two applications hold the same files, texts and metadata: they
    differ at most by the journal of reads. *)
Definition sameFiles (a b : App) : Prop :=
  fileMap (vault a) = fileMap (vault b)
  /\ contents (vault a) = contents (vault b)
  /\ clock (vault a) = clock (vault b)
  /\ metadataCache a = metadataCache b.

(** Every entry the journal gained from [before] to [after] is a read. *)
Definition onlyReads (before after : App) : Prop :=
  exists files, journal (vault after)
                = journal (vault before) ++ map (fun f => OpRead (path f)) files.

(** A vault with two markdown notes, an image, and a link from the first
    note to the second. *)
Definition linkedApp : App :=
  {| vault :=
       {| fileMap := [("a.md", AFile (noteAt "a.md")); ("pic.png", AFile (noteAt "pic.png"));
                      ("b.md", AFile (noteAt "b.md"))];
          contents := [("a.md", "see b"); ("b.md", "end")];
          clock := 0%Z; journal := [] |};
     metadataCache :=
       {| fileCache := [("a.md", {| tags := Some [{| tag := "#x" |}; {| tag := "#x" |}] |})];
          resolvedLinks := Some [("a.md", [("b.md", 2%Z)]); ("b.md", [])] |} |}.

(** A vault where a note sits at [a/b], where [note.create] for
    [a/b/c.md] needs a folder. *)
Definition blockedApp : App := appOf [("a/b", "x")].

(** The vault keeps each entry under one key, and a file under its own
    path. *)
Definition wellFormed (v : Vault) : Prop :=
  NoDup (map fst (fileMap v))
  /\ Forall (fun e => match snd e with AFile f => path f = fst e | _ => True end) (fileMap v).

(** [{ path: p }]. *)
Definition pathParams (p : string) : JSValue := JObj [("path", JStr p)].

(** The names [registerRpcMethods] registers. *)
Definition rpcMethodNames : list string :=
  ["graph.getSnapshot"; "note.getPreview"; "search.query"; "note.create"; "createNote"].

(** The listener at index [i] is listening. *)
Definition listeningAt (env : Env) (i : nat) : Prop :=
  exists l, listeners env !! i = Some l /\ listening l = true.

(** What happens to a server: the calls of its public methods and the
    events of its sockets, in any order. *)
Inductive ServerEvent : Type :=
| EvStart
| EvStop
| EvNotifyAll (method : string) (params : JSValue)
| EvConnection (ws : nat) (graphVersion : Z)
| EvClose (ws : nat) (code : Z) (reason : option (list Byte.byte))
| EvMessage (ws : nat) (raw : RawData) (graphVersion : Z).

Definition serverStep `{Host} (ev : ServerEvent) (st : WsRpcServer * Env) : WsRpcServer * Env :=
  match ev with
  | EvStart => start (fst st) (snd st)
  | EvStop => stop (fst st) (snd st)
  | EvNotifyAll method params => (fst st, notifyAll method params (fst st) (snd st))
  | EvConnection ws v => onConnection ws v (fst st) (snd st)
  | EvClose ws code reason => onClose ws code reason (fst st) (snd st)
  | EvMessage ws raw v => onMessage ws raw v (fst st) (snd st)
  end.

Definition serverRun `{Host} (evs : list ServerEvent) (st : WsRpcServer * Env)
    : WsRpcServer * Env :=
  fold_left (fun st ev => serverStep ev st) evs st.

(** The vault events of a list, one after the other. *)
Definition onVaultEvents `{Host} (es : list VaultEvent) (p : Plugin) (env : Env)
    : Plugin * Env :=
  fold_left (fun st e => onVaultEvent e (fst st) (snd st)) es (p, env).

(** The [graph.changed] notifications for the versions [v + 1] to
    [v + n]. *)
Definition changedFrames (v : Z) (n : nat) : list Frame :=
  map (fun k => NotificationFrame "graph.changed" (versionParams (v + Z.of_nat k)))
      (seq 1 n).

(** [q] occurs in [text], up to letter case, right after [pre]. *)
Definition occurs (q text pre : string) : Prop :=
  exists m post,
    text = pre +:+ m +:+ post /\ JSString.toLowerCase m = JSString.toLowerCase q.

(** What happens to the loaded plugin: a vault event, or a client that
    connects to its server. *)
Inductive PluginEvent : Type :=
| PVault (e : VaultEvent)
| PConnect (ws : nat).

Definition pluginStep `{Host} (ev : PluginEvent) (st : Plugin * Env) : Plugin * Env :=
  match ev with
  | PVault e => onVaultEvent e (fst st) (snd st)
  | PConnect ws => onClientSocket ws (fst st) (snd st)
  end.

Definition pluginRun `{Host} (evs : list PluginEvent) (st : Plugin * Env) : Plugin * Env :=
  fold_left (fun st ev => pluginStep ev st) evs st.

(** The number of vault events, and the sockets that connect, in a run. *)
Definition vaultEventsIn (evs : list PluginEvent) : nat :=
  length (List.filter (fun ev => match ev with PVault _ => true | _ => false end) evs).

Definition connectionsIn (evs : list PluginEvent) : list nat :=
  flat_map (fun ev => match ev with PConnect ws => [ws] | _ => [] end) evs.

(* ================================================================== *)
(** * Properties *)

(* ------------------------------------------------------------------ *)
(** ** The codec *)

(** C9: [rawToText] yields one string for every frame: a text frame
    unchanged, a buffer and an array buffer decoded as UTF-8, a list of
    fragments decoded as the bytes of the fragments one after the other,
    and the empty string for any other frame; it is total, so it never
    raises. *)
Theorem rawToText_codec `{Host} :
  (forall s, rawToText (RawString s) = s) /\
  (forall b, rawToText (RawBuffer b) = utf8Decode b) /\
  (forall b, rawToText (RawArrayBuffer b) = utf8Decode b) /\
  (forall chunks,
      rawToText (RawFragments chunks)
      = utf8Decode (fold_right (fun c rest => (c ++ rest)%list) [] chunks)) /\
  rawToText RawOther = EmptyString /\
  (forall raw, exists text, rawToText raw = text).
Proof.
  split; [reflexivity|]. split; [reflexivity|]. split; [reflexivity|].
  split; [|split; [reflexivity|]].
  - intros chunks. unfold rawToText, Buffer_concat.
    assert (E : List.concat chunks = fold_right (fun c rest => (c ++ rest)%list) [] chunks).
    { induction chunks as [|c rest IH]; simpl; [reflexivity | now rewrite IH]. }
    now rewrite E.
  - intros raw. now exists (rawToText raw).
Qed.

(** Where the fragments are cut does not matter. *)
Lemma rawToText_fragments_app `{Host} (a b : list (list Byte.byte)) :
  rawToText (RawFragments (a ++ b))
  = rawToText (RawBuffer (Buffer_concat a ++ Buffer_concat b)%list).
Proof. unfold rawToText, Buffer_concat. now rewrite concat_app. Qed.

(* ------------------------------------------------------------------ *)
(** ** The supervisor's [start] *)

(** C10: [start()] on a server that is listening changes nothing: no
    listening socket is created, and the live-session set, the sessions and
    the sockets are as before. *)
Theorem start_when_listening (srv : WsRpcServer) (env : Env) :
  wss srv <> None ->
  start srv env = (srv, env) /\
  length (listeners (snd (start srv env))) = length (listeners env) /\
  clients (fst (start srv env)) = clients srv /\
  sessions (snd (start srv env)) = sessions env.
Proof.
  intros Hl. unfold start. destruct (wss srv) as [l|] eqn:E; [|congruence].
  repeat split; reflexivity.
Qed.

(** A first [start()] creates the one listening socket. *)
Lemma start_when_stopped (srv : WsRpcServer) (env : Env) :
  wss srv = None ->
  wss (fst (start srv env)) = Some (length (listeners env)) /\
  length (listeners (snd (start srv env))) = S (length (listeners env)).
Proof.
  intros E. unfold start. rewrite E. simpl. split; [reflexivity|].
  rewrite length_app. simpl. lia.
Qed.

(** Starting twice is starting once. *)
Lemma start_twice (srv : WsRpcServer) (env : Env) :
  start (fst (start srv env)) (snd (start srv env)) = start srv env.
Proof.
  unfold start. destruct (wss srv) eqn:E; simpl; [now rewrite E | reflexivity].
Qed.

Lemma start_when_listening_witness :
  wss (fst (start newServer emptyEnv)) <> None /\
  start (fst (start newServer emptyEnv)) (snd (start newServer emptyEnv))
  = (fst (start newServer emptyEnv), snd (start newServer emptyEnv)).
Proof.
  split; [discriminate|].
  apply (start_when_listening (fst (start newServer emptyEnv)) (snd (start newServer emptyEnv))).
  discriminate.
Defined.

(* ------------------------------------------------------------------ *)
(** ** The registry *)

(** C8: whatever was registered before, after [registerRpcMethods] the
    names [createNote] and [note.create] dispatch to the same handler,
    [rpcNoteCreate]: same result or error, same effect on the application,
    for every params and context. *)
Theorem createNote_alias `{Host} (server : gmap string Handler)
    (params : JSValue) (graphVersion : JSNumber) (app : App) :
  dispatch (registerRpcMethods server) "createNote" params graphVersion app
  = dispatch (registerRpcMethods server) "note.create" params graphVersion app
  /\ dispatch (registerRpcMethods server) "note.create" params graphVersion app
     = Some (rpcNoteCreate params graphVersion app).
Proof.
  unfold dispatch, registerRpcMethods, addMethod.
  rewrite lookup_insert_eq.
  rewrite lookup_insert_ne by discriminate.
  rewrite lookup_insert_eq. split; reflexivity.
Qed.

(* ------------------------------------------------------------------ *)
(** ** Strings: [split], [join] and lengths *)

Lemma append_nil (b : string) : EmptyString +:+ b = b.
Proof. reflexivity. Qed.

Lemma append_cons (c : ascii) (a b : string) : String c a +:+ b = String c (a +:+ b).
Proof. reflexivity. Qed.

Lemma length_append (a b : string) :
  String.length (a +:+ b) = String.length a + String.length b.
Proof.
  induction a as [|c a IH]; [reflexivity|].
  rewrite append_cons. simpl. now rewrite IH.
Qed.

Lemma append_empty_r (a : string) : a +:+ EmptyString = a.
Proof.
  induction a as [|c a IH]; [reflexivity|]. rewrite append_cons. now rewrite IH.
Qed.

Lemma append_assoc (a b c : string) : (a +:+ b) +:+ c = a +:+ (b +:+ c).
Proof.
  induction a as [|x a IH]; [reflexivity|]. rewrite !append_cons. now rewrite IH.
Qed.

Lemma split_not_nil (sep : ascii) (s : string) : JSString.split sep s <> [].
Proof.
  induction s as [|c r IH]; simpl; [discriminate|].
  destruct (Ascii.eqb c sep); [discriminate|].
  destruct (JSString.split sep r); discriminate.
Qed.

Lemma split_no_sep (sep : ascii) (s : string) :
  Forall (fun x => hasChar sep x = false) (JSString.split sep s).
Proof.
  induction s as [|c r IH]; simpl.
  - repeat constructor.
  - destruct (Ascii.eqb c sep) eqn:E.
    + constructor; [reflexivity | exact IH].
    + destruct (JSString.split sep r) as [|h t]; inversion IH; subst;
        constructor; simpl; try rewrite E; simpl; auto.
Qed.

Lemma join_cons (sep x : string) (y : string) (l : list string) :
  JSString.join sep (x :: y :: l) = x +:+ sep +:+ JSString.join sep (y :: l).
Proof. reflexivity. Qed.

Lemma join_single (sep x : string) : JSString.join sep [x] = x.
Proof. reflexivity. Qed.

Lemma join_split (sep : ascii) (s : string) :
  JSString.join (String sep EmptyString) (JSString.split sep s) = s.
Proof.
  induction s as [|c r IH]; simpl; [reflexivity|].
  pose proof (split_not_nil sep r) as Hn.
  destruct (Ascii.eqb c sep) eqn:E.
  - apply Ascii.eqb_eq in E. subst c.
    destruct (JSString.split sep r) as [|h t] eqn:Es; [congruence|].
    rewrite join_cons, IH. reflexivity.
  - destruct (JSString.split sep r) as [|h t] eqn:Es; [congruence|].
    destruct t as [|h' t'].
    + rewrite join_single in *. now rewrite IH.
    + rewrite join_cons in *. rewrite append_cons. now rewrite IH.
Qed.

Lemma split_append_no_sep (sep : ascii) (x rest : string) :
  hasChar sep x = false ->
  JSString.split sep (x +:+ String sep rest) = x :: JSString.split sep rest.
Proof.
  induction x as [|c x IH]; intros Hx.
  - rewrite append_nil. simpl. now rewrite Ascii.eqb_refl.
  - simpl in Hx. apply orb_false_iff in Hx as [Hc Hx].
    rewrite append_cons. simpl. rewrite Hc. now rewrite IH.
Qed.

Lemma split_no_sep_single (sep : ascii) (x : string) :
  hasChar sep x = false -> JSString.split sep x = [x].
Proof.
  induction x as [|c x IH]; simpl; intros Hx; [reflexivity|].
  apply orb_false_iff in Hx as [Hc Hx]. rewrite Hc. now rewrite IH.
Qed.

Lemma split_join (sep : ascii) (l : list string) :
  l <> [] ->
  Forall (fun x => hasChar sep x = false) l ->
  JSString.split sep (JSString.join (String sep EmptyString) l) = l.
Proof.
  induction l as [|x l IH]; [congruence|]. intros _ Hall.
  inversion Hall as [|? ? Hx Hl]; subst.
  destruct l as [|y l].
  - rewrite join_single. now apply split_no_sep_single.
  - rewrite join_cons, append_cons, append_nil.
    rewrite split_append_no_sep by assumption.
    f_equal. apply IH; [discriminate | assumption].
Qed.

Lemma join_take_prefix (sep : string) (l : list string) (n : nat) :
  exists rest, JSString.join sep l = JSString.join sep (take (S n) l) +:+ rest.
Proof.
  revert n. induction l as [|x l IH]; intros n.
  - exists EmptyString. reflexivity.
  - destruct l as [|y l].
    + exists EmptyString. change (take (S n) [x]) with (x :: take n []).
      destruct n; simpl take; now rewrite append_empty_r.
    + destruct n as [|n].
      * exists (sep +:+ JSString.join sep (y :: l)). reflexivity.
      * destruct (IH n) as [rest E]. exists rest.
        change (take (S (S n)) (x :: y :: l)) with (x :: take (S n) (y :: l)).
        change (take (S n) (y :: l)) with (y :: take n l) in *.
        rewrite !join_cons. rewrite E. now rewrite !append_assoc.
Qed.

(* ------------------------------------------------------------------ *)
(** ** Tags *)

Lemma existsb_eqb_elem_of (x : string) (l : list string) :
  existsb (String.eqb x) l = true <-> x ∈ l.
Proof.
  induction l as [|y l IH]; simpl.
  - split; [discriminate | intros Hx; inversion Hx].
  - rewrite orb_true_iff, IH, String.eqb_eq, elem_of_cons. tauto.
Qed.

Lemma elem_of_setAdd (acc : list string) (x t : string) :
  t ∈ setAdd acc x <-> t ∈ acc \/ t = x.
Proof.
  unfold setAdd. destruct (existsb (String.eqb x) acc) eqn:E.
  - apply existsb_eqb_elem_of in E. split; [tauto|]. intros [Hacc | ->]; assumption.
  - rewrite elem_of_app, list_elem_of_singleton. tauto.
Qed.

Lemma NoDup_setAdd (acc : list string) (x : string) :
  NoDup acc -> NoDup (setAdd acc x).
Proof.
  intros Hnd. unfold setAdd. destruct (existsb (String.eqb x) acc) eqn:E; [assumption|].
  apply NoDup_app. split; [assumption|]. split.
  - intros y Hy Hy'. apply list_elem_of_singleton in Hy'. subst y.
    apply existsb_eqb_elem_of in Hy. congruence.
  - apply NoDup_singleton.
Qed.

Lemma nonEmpty_true (s : string) : JSString.nonEmpty s = true <-> s <> EmptyString.
Proof. destruct s; simpl; split; congruence. Qed.

Lemma NoDup_fold_addTag (ts : list TagCache) (acc : list string) :
  NoDup acc -> NoDup (fold_left addTag ts acc).
Proof.
  revert acc. induction ts as [|t ts IH]; intros acc Hnd; simpl; [assumption|].
  apply IH. unfold addTag. destruct (JSString.nonEmpty (tag t)); [|assumption].
  now apply NoDup_setAdd.
Qed.

Lemma elem_of_fold_addTag (ts : list TagCache) (acc : list string) (t : string) :
  t ∈ fold_left addTag ts acc <->
  t ∈ acc \/ exists raw, raw ∈ map tag ts /\ raw <> EmptyString /\ t = stripMarker raw.
Proof.
  revert acc. induction ts as [|x ts IH]; intros acc; simpl.
  - split; [tauto|]. intros [Hacc|(raw & Hin & _)]; [assumption | inversion Hin].
  - rewrite IH. unfold addTag. destruct (JSString.nonEmpty (tag x)) eqn:E.
    + apply nonEmpty_true in E. rewrite elem_of_setAdd. split.
      * intros [[Hacc | ->]|(raw & Hin & Hne & ->)]; [tauto| |].
        -- right. exists (tag x). rewrite elem_of_cons. tauto.
        -- right. exists raw. rewrite elem_of_cons. tauto.
      * intros [Hacc|(raw & Hin & Hne & ->)]; [tauto|].
        apply elem_of_cons in Hin as [->|Hin]; [tauto|].
        right. exists raw. tauto.
    + assert (tag x = EmptyString) as E0 by (destruct (tag x); simpl in E; congruence).
      split.
      * intros [Hacc|(raw & Hin & Hne & ->)]; [tauto|].
        right. exists raw. rewrite elem_of_cons. tauto.
      * intros [Hacc|(raw & Hin & Hne & ->)]; [tauto|].
        apply elem_of_cons in Hin as [->|Hin]; [congruence|].
        right. exists raw. tauto.
Qed.

Lemma tagsOf_NoDup (m : MetadataCache) (f : TFile) : NoDup (tagsOf (getFileCache m f)).
Proof.
  unfold tagsOf. destruct (getFileCache m f) as [c|]; [|constructor].
  destruct (tags c); [|constructor]. apply NoDup_fold_addTag. constructor.
Qed.

Lemma elem_of_tagsOf (m : MetadataCache) (f : TFile) (t : string) :
  t ∈ tagsOf (getFileCache m f) <->
  exists raw, raw ∈ cacheTags m f /\ raw <> EmptyString /\ t = stripMarker raw.
Proof.
  unfold tagsOf, cacheTags. destruct (getFileCache m f) as [c|].
  - destruct (tags c) as [ts|].
    + rewrite elem_of_fold_addTag. split; [|tauto].
      intros [Hin|Hex]; [inversion Hin | assumption].
    + split; [intros Hin; inversion Hin | intros (raw & Hin & _); inversion Hin].
  - split; [intros Hin; inversion Hin | intros (raw & Hin & _); inversion Hin].
Qed.

(** A stored tag that is the marker followed by a name gives the name. *)
Lemma stripMarker_marked (name : string) : stripMarker (String hash name) = name.
Proof. reflexivity. Qed.

(* ------------------------------------------------------------------ *)
(** ** [note.getPreview] *)

Lemma excerptOf_lines (content : string) :
  lines (excerptOf content) = take 30 (lines content).
Proof.
  unfold excerptOf, lines, newline. apply split_join.
  - pose proof (split_not_nil LF content) as Hn.
    destruct (JSString.split LF content); [congruence | discriminate].
  - apply Forall_take, split_no_sep.
Qed.

Lemma excerptOf_prefix (content : string) :
  exists rest, content = excerptOf content +:+ rest.
Proof.
  unfold excerptOf. destruct (join_take_prefix newline (JSString.split LF content) 29) as [rest E].
  exists rest. rewrite <- E. unfold newline. now rewrite join_split.
Qed.

(** A stored tag gives [t] exactly when it is the marker followed by [t],
    or is [t] itself and does not begin with the marker. *)
Lemma stripMarker_spec (raw t : string) :
  t = stripMarker raw <->
  raw = "#" +:+ t \/ (raw = t /\ forall rest, raw <> "#" +:+ rest).
Proof.
  destruct raw as [|c r]; simpl.
  - split.
    + intros ->. right. split; [reflexivity | discriminate].
    + intros [E|[E _]]; [discriminate | now subst].
  - destruct (Ascii.eqb c hash) eqn:Ec.
    + apply Ascii.eqb_eq in Ec. subst c. split.
      * intros ->. now left.
      * intros [E|[_ Hn]]; [now inversion E | exfalso; now apply (Hn r)].
    + apply Ascii.eqb_neq in Ec. split.
      * intros ->. right. split; [reflexivity|]. intros rest E. apply Ec. now inversion E.
      * intros [E|[E _]]; [exfalso; apply Ec; now inversion E | now subst].
Qed.

(** C6 (as amended): [note.getPreview] fails exactly when the path is
    missing (no string, or the empty one), names nothing in the vault, or
    names something that is not a file (a folder, say).  For every file,
    markdown note or not, it returns the file's path, its basename as
    title, its modification time (0 when the file has no stat), the tags
    the cache holds for it, each once and without one leading [#], and as
    excerpt the first 30 lines of the file's text. *)
Theorem rpcNoteGetPreview_spec `{Host} (params : JSValue) (graphVersion : JSNumber) (app : App) :
  let path := stringOr (get (recordOf params) "path") (fun s => s) in
  let r := rpcNoteGetPreview params graphVersion app in
  ((exists e, fst r = Throw e) <->
     path = EmptyString
     \/ getAbstractFileByPath (vault app) path = None
     \/ exists x, getAbstractFileByPath (vault app) path = Some x /\ forall f, x <> AFile f)
  /\ forall file,
       path <> EmptyString ->
       getAbstractFileByPath (vault app) path = Some (AFile file) ->
       exists tags excerpt,
         fst r = Ok (Preview {| preview_path := Obsidian.path file;
                                preview_title := basename file;
                                preview_mtime := match stat file with
                                                 | Some st => mtime st
                                                 | None => 0%Z
                                                 end;
                                preview_tags := tags;
                                preview_excerpt := excerpt |})
         /\ NoDup tags
         /\ (forall t, t ∈ tags <->
               exists raw, raw ∈ cacheTags (metadataCache app) file
                           /\ raw <> EmptyString
                           /\ (raw = "#" +:+ t \/ (raw = t /\ forall rest, raw <> "#" +:+ rest)))
         /\ lines excerpt = take 30 (lines (noteText (vault app) file))
         /\ exists rest, noteText (vault app) file = excerpt +:+ rest.
Proof.
  intros path r. subst r. unfold rpcNoteGetPreview. fold path.
  destruct (JSString.nonEmpty path) eqn:Hp; simpl negb; cbv iota.
  - apply nonEmpty_true in Hp.
    destruct (getAbstractFileByPath (vault app) path) as [[file|d|o]|] eqn:Hf.
    + split.
      * unfold cachedRead. simpl. split.
        -- intros [e He]. discriminate.
        -- intros [Hacc|[Hacc|(x & Hx & Hn)]]; [congruence | congruence |].
           inversion Hx; subst. exfalso. now apply (Hn file).
      * intros file' _ Hfile. inversion Hfile; subst file'.
        exists (tagsOf (getFileCache (metadataCache app) file)),
               (excerptOf (noteText (vault app) file)).
        split; [reflexivity|]. split; [apply tagsOf_NoDup|].
        split.
        { intros t. rewrite elem_of_tagsOf. split.
          - intros (raw & Hin & Hne & Et). exists raw. split; [exact Hin|].
            split; [exact Hne|]. now apply stripMarker_spec.
          - intros (raw & Hin & Hne & Et). exists raw. split; [exact Hin|].
            split; [exact Hne|]. now apply stripMarker_spec. }
        split; [apply excerptOf_lines | apply excerptOf_prefix].
    + split; [|intros ? _ ?; congruence].
      split; [|intros _; eexists; reflexivity].
      intros _. right. right. exists (AFolder d). split; [reflexivity | discriminate].
    + split; [|intros ? _ ?; congruence].
      split; [|intros _; eexists; reflexivity].
      intros _. right. right. exists (AOther o). split; [reflexivity | discriminate].
    + split; [|intros ? _ ?; congruence].
      split; [|intros _; eexists; reflexivity].
      intros _. right. left. reflexivity.
  - assert (path = EmptyString) as E by (destruct path; simpl in Hp; congruence).
    split; [|intros ? ? ?; congruence].
    split; [|intros _; eexists; reflexivity].
    intros _. now left.
Qed.

Lemma rpcNoteGetPreview_spec_witness :
  stringOr (get (recordOf (pathParams "a.md")) "path") (fun s => s) <> EmptyString
  /\ getAbstractFileByPath (vault stampedApp) "a.md" = Some (AFile stampedNote)
  /\ fst (rpcNoteGetPreview (pathParams "a.md") (ofZ 0) stampedApp)
     = Ok (Preview {| preview_path := "a.md"; preview_title := "a"; preview_mtime := 42;
                      preview_tags := ["x"; "y"];
                      preview_excerpt := "one" +:+ newline +:+ "two" |}).
Proof.
  assert (stringOr (get (recordOf (pathParams "a.md")) "path") (fun s => s) <> EmptyString)
    as Hp by discriminate.
  assert (getAbstractFileByPath (vault stampedApp) "a.md" = Some (AFile stampedNote))
    as Hf by reflexivity.
  split; [exact Hp|]. split; [exact Hf|].
  destruct (rpcNoteGetPreview_spec (pathParams "a.md") (ofZ 0) stampedApp) as [_ Hok].
  destruct (Hok stampedNote Hp Hf) as (tags & excerpt & E & _).
  pose proof E as E'. vm_compute in E'. injection E' as Ht Hx. subst tags excerpt.
  exact E.
Defined.

(** C6 (counterexample): [pic.png] is a file of the vault and no note (it
    is not among the markdown files), and [note.getPreview] answers for it:
    the call does not fail for a path that names something other than a
    note. *)
Lemma rpcNoteGetPreview_previews_a_file_that_is_no_note :
  getAbstractFileByPath (vault linkedApp) "pic.png" = Some (AFile (noteAt "pic.png"))
  /\ (noteAt "pic.png" ∉ getMarkdownFiles (vault linkedApp))
  /\ fst (rpcNoteGetPreview (pathParams "pic.png") (ofZ 0) linkedApp)
     = Ok (Preview {| preview_path := "pic.png"; preview_title := "pic"; preview_mtime := 0;
                      preview_tags := []; preview_excerpt := EmptyString |}).
Proof.
  split; [reflexivity|]. split; [|reflexivity].
  intros Hin. apply list_elem_of_In in Hin. simpl in Hin.
  destruct Hin as [E|[E|[]]]; discriminate.
Qed.

(* ------------------------------------------------------------------ *)
(** ** [graph.getSnapshot] *)

(** When [sinceVersion] converts to a number [V], the answer is
    [{version, changed: false}] exactly when a [sinceVersion] was supplied
    with [V >= 0] and [V >= graphVersion]; otherwise it is the snapshot of
    the vault at the current version.  The application is not changed. *)
Lemma rpcGraphGetSnapshot_converted `{Host} (params : JSValue) (graphVersion V : JSNumber)
    (app : App) :
  sinceVersionOf params = Ok V ->
  (rpcGraphGetSnapshot params graphVersion app = (Ok (Unchanged graphVersion), app) <->
     isSupplied (get (recordOf params) "sinceVersion") = true
     /\ ge V (ofZ 0) = true /\ ge V graphVersion = true)
  /\ (ge V (ofZ 0) && ge V graphVersion = false ->
      rpcGraphGetSnapshot params graphVersion app
      = (Ok (Snapshot graphVersion
               (map (nodeOf (metadataCache app)) (getMarkdownFiles (vault app)))
               (edgesOf (resolvedLinks (metadataCache app)))), app)).
Proof.
  unfold sinceVersionOf, rpcGraphGetSnapshot. intros EV. rewrite EV. split.
  - destruct (ge V (ofZ 0) && ge V graphVersion) eqn:E.
    + apply andb_true_iff in E as [E0 E1]. split; [|reflexivity].
      intros _. split; [|tauto].
      destruct (get (recordOf params) "sinceVersion"); try reflexivity;
        simpl in EV; inversion EV; subst V; discriminate.
    + split; [discriminate|]. intros (_ & E0 & E1). rewrite E0, E1 in E. discriminate.
  - intros E. now rewrite E.
Qed.

(** The call fails exactly when the conversion of [sinceVersion] does. *)
Lemma rpcGraphGetSnapshot_fails_iff `{Host} (params : JSValue) (graphVersion : JSNumber)
    (app : App) (e : JSError) :
  fst (rpcGraphGetSnapshot params graphVersion app) = Throw e <-> sinceVersionOf params = Throw e.
Proof.
  unfold sinceVersionOf, rpcGraphGetSnapshot.
  destruct (Number _) as [V|e']; simpl.
  - destruct (ge V (ofZ 0) && ge V graphVersion); simpl; split; discriminate.
  - split; intros E; inversion E; reflexivity.
Qed.

(** An object that has an own [toString] property converts to no number,
    whatever the host. *)
Lemma Number_own_toString `{Host} (fields : list (string * JSValue)) :
  hasOwn "toString" fields = true -> Number (JObj fields) = Throw cannotConvert.
Proof. intros E. unfold Number. simpl. now rewrite E. Qed.

(** C1 (failing input): with params
    [{ sinceVersion: { toString: 1 } }] the conversion [Number(...)] raises
    a TypeError, so [graph.getSnapshot] fails, where the specification has
    the call never fail. *)
Theorem rpcGraphGetSnapshot_fails_on_own_toString :
  rpcGraphGetSnapshot (JObj [("sinceVersion", JObj [("toString", JNum (ofZ 1))])])
    (ofZ 0) emptyApp
  = (Throw cannotConvert, emptyApp).
Proof. reflexivity. Qed.

(** The same on every host, at every version and application. *)
Lemma getSnapshot_own_toString_any_host `{Host} (fields : list (string * JSValue))
    (graphVersion : JSNumber) (app : App) :
  hasOwn "toString" fields = true ->
  rpcGraphGetSnapshot (JObj [("sinceVersion", JObj fields)]) graphVersion app
  = (Throw cannotConvert, app).
Proof.
  intros E. unfold rpcGraphGetSnapshot. simpl recordOf.
  change (get [("sinceVersion", JObj fields)] "sinceVersion") with (JObj fields).
  simpl nullish. now rewrite (Number_own_toString fields E).
Qed.

(* ------------------------------------------------------------------ *)
(** ** [search.query] *)

Lemma ge_ofNat_ofZ (k : nat) (z : Z) : ge (ofNat k) (ofZ z) = (z <=? Z.of_nat k)%Z.
Proof.
  unfold ge, ofNat, ofZ. apply eq_true_iff_eq.
  rewrite Qle_bool_iff, <- Zle_Qle, Z.leb_le. reflexivity.
Qed.

Lemma searchLoop_cons (q : string) (limit : JSNumber) (f : TFile) (rest : list TFile)
    (results : list SearchResult) (v : Vault) :
  searchLoop q limit (f :: rest) results v
  = if ge (ofNat (length results)) limit then (results, v)
    else match JSString.indexOf (JSString.toLowerCase (fst (cachedRead f v)))
                 (JSString.toLowerCase q) with
         | None => searchLoop q limit rest results (snd (cachedRead f v))
         | Some idx =>
             searchLoop q limit rest
               (results ++ [{| result_path := path f; result_title := basename f;
                               result_snippet := snippetOf (fst (cachedRead f v)) q idx |}])
               (snd (cachedRead f v))
         end.
Proof. reflexivity. Qed.

(** Once [cap] results are enough for the loop to stop, it never holds more
    than [cap]. *)
Lemma searchLoop_capped (q : string) (limit : JSNumber) (cap : nat)
    (files : list TFile) (results : list SearchResult) (v : Vault) :
  (forall k, cap <= k -> ge (ofNat k) limit = true) ->
  length results <= cap ->
  length (fst (searchLoop q limit files results v)) <= cap.
Proof.
  intros Hcap. revert results v. induction files as [|f rest IH]; intros results v Hlen.
  - exact Hlen.
  - rewrite searchLoop_cons.
    destruct (ge (ofNat (length results)) limit) eqn:E; [exact Hlen|].
    assert (length results < cap) as Hlt.
    { destruct (le_lt_dec cap (length results)) as [Hge|Hlt]; [|exact Hlt].
      rewrite (Hcap _ Hge) in E. discriminate. }
    destruct (JSString.indexOf _ _).
    + apply IH. rewrite length_app. simpl. lia.
    + apply IH. exact Hlen.
Qed.

(** A limit that is a number, capped at 200, stops the loop at 200. *)
Lemma Math_min_200_stops (n : JSNumber) (k : nat) :
  n <> NaN -> 200 <= k -> ge (ofNat k) (Math_min n (ofZ 200)) = true.
Proof.
  intros Hn Hk.
  assert (ge (ofNat k) (ofZ 200) = true) as H200.
  { rewrite ge_ofNat_ofZ. apply Z.leb_le. lia. }
  destruct n as [| |x|]; [congruence| reflexivity | | exact H200].
  unfold Math_min. destruct (ge (ofZ 200) (Finite x)) eqn:E; [|exact H200].
  unfold ge, ofNat, ofZ in *. apply Qle_bool_iff in E, H200. apply Qle_bool_iff.
  eapply Qle_trans; eassumption.
Qed.

(** With a limit that converts to a number, at most 200 results come back. *)
Lemma rpcSearchQuery_hard_cap `{Host} (params : JSValue) (graphVersion n : JSNumber)
    (app : App) (r : SearchResponse) :
  limitOf params = Ok n -> n <> NaN ->
  fst (rpcSearchQuery params graphVersion app) = Ok (Search r) ->
  length (response_results r) <= 200.
Proof.
  unfold limitOf, rpcSearchQuery. intros En Hn.
  destruct (negb _); [discriminate|]. rewrite En.
  destruct (searchLoop _ _ _ _ _) as [results v'] eqn:El. simpl.
  intros E. inversion E; subst r. simpl.
  change results with (fst (results, v')). rewrite <- El.
  apply searchLoop_capped; [|simpl; lia].
  intros k Hk. now apply Math_min_200_stops.
Qed.

(** With an integral limit [z], at most [min(z, 200)] results come back
    (none when [z] is negative). *)
Lemma rpcSearchQuery_integral_limit `{Host} (params : JSValue) (graphVersion : JSNumber)
    (z : Z) (app : App) (r : SearchResponse) :
  limitOf params = Ok (ofZ z) ->
  fst (rpcSearchQuery params graphVersion app) = Ok (Search r) ->
  (Z.of_nat (length (response_results r)) <= Z.max 0 (Z.min z 200))%Z.
Proof.
  unfold limitOf, rpcSearchQuery. intros En.
  destruct (negb _); [discriminate|]. rewrite En.
  destruct (searchLoop _ _ _ _ _) as [results v'] eqn:El. simpl.
  intros E. inversion E; subst r. simpl.
  change results with (fst (results, v')). rewrite <- El.
  assert (Math_min (ofZ z) (ofZ 200) = ofZ (Z.min z 200)) as Em.
  { unfold Math_min, ofZ, ge. destruct (Qle_bool (inject_Z z) (inject_Z 200)) eqn:E1.
    - apply Qle_bool_iff in E1. rewrite <- Zle_Qle in E1. now rewrite Z.min_l.
    - assert (~ (z <= 200)%Z) as Hz.
      { intros Hz. rewrite Zle_Qle in Hz. apply Qle_bool_iff in Hz. congruence. }
      rewrite Z.min_r by lia. reflexivity. }
  rewrite Em.
  pose proof (searchLoop_capped
                (stringOr (get (recordOf params) "q") JSString.trim)
                (ofZ (Z.min z 200)) (Z.to_nat (Z.max 0 (Z.min z 200)))
                (getMarkdownFiles (vault app)) [] (vault app)) as Hc.
  assert (length (fst (searchLoop (stringOr (get (recordOf params) "q") JSString.trim)
                         (ofZ (Z.min z 200)) (getMarkdownFiles (vault app)) [] (vault app)))
          <= Z.to_nat (Z.max 0 (Z.min z 200))) as Hle.
  { apply Hc; [|simpl; lia]. intros k Hk. rewrite ge_ofNat_ofZ. apply Z.leb_le. lia. }
  lia.
Qed.

(** The loop reads a prefix of the files, in order, and leaves a file unread
    only because the results had reached the limit. *)
Lemma searchLoop_short_circuit (q : string) (limit : JSNumber)
    (files : list TFile) (results : list SearchResult) (v : Vault) :
  exists k,
    journal (snd (searchLoop q limit files results v))
    = journal v ++ map (fun f => OpRead (path f)) (take k files)
    /\ (k < length files ->
        ge (ofNat (length (fst (searchLoop q limit files results v)))) limit = true).
Proof.
  revert results v. induction files as [|f rest IH]; intros results v.
  - exists 0. simpl. split; [now rewrite app_nil_r | lia].
  - rewrite searchLoop_cons.
    destruct (ge (ofNat (length results)) limit) eqn:E.
    + exists 0. simpl. split; [now rewrite app_nil_r | intros _; exact E].
    + destruct (JSString.indexOf _ _);
        match goal with
        | |- context [searchLoop q limit rest ?rs ?v1] =>
            destruct (IH rs v1) as (k & Hj & Hk)
        end;
        exists (S k); (split; [rewrite Hj; simpl; now rewrite <- app_assoc | intros Hlt; apply Hk; simpl in Hlt; lia]).
Qed.

(** With a limit that is NaN the loop never stops early: it reads every
    file. *)
Lemma searchLoop_NaN_reads_all (q : string) (files : list TFile)
    (results : list SearchResult) (v : Vault) :
  journal (snd (searchLoop q NaN files results v))
  = journal v ++ map (fun f => OpRead (path f)) files.
Proof.
  revert results v. induction files as [|f rest IH]; intros results v.
  - simpl. now rewrite app_nil_r.
  - rewrite searchLoop_cons. change (ge (ofNat (length results)) NaN) with false. cbv iota.
    destruct (JSString.indexOf _ _); rewrite IH; simpl; now rewrite <- app_assoc.
Qed.

(** C3 (failing input): with params [{ q: "foo", limit: "abc" }] the limit
    is [Math.min(NaN, 200)], that is NaN, no comparison with it holds, and
    a vault of 201 notes containing foo yields 201 results: more than the
    hard cap of 200. *)
Theorem rpcSearchQuery_NaN_limit_exceeds_cap :
  match fst (rpcSearchQuery (JObj [("q", JStr "foo"); ("limit", JStr "abc")])
               (ofZ 0) (appOf (notesWithFoo 201))) with
  | Ok (Search r) => length (response_results r) = 201
  | _ => False
  end.
Proof. vm_compute. reflexivity. Qed.

(* ------------------------------------------------------------------ *)
(** ** Closing a socket *)

(** The decimal rendering reads back as the code, and is never empty. *)
Lemma decimal_reads_back (code : Z) :
  decimal code <> EmptyString
  /\ Z.of_int <$> NilEmpty.int_of_string (decimal code) = Some code.
Proof.
  unfold decimal.
  assert (NilEmpty.int_of_string (NilEmpty.string_of_int (Z.to_int code))
          = Some (Z.to_int code)) as Er by apply NilEmpty.isi.
  split.
  - intros E. rewrite E in Er. simpl in Er. inversion Er as [Ed].
    pose proof (DecimalZ.to_of (Z.to_int code)) as Hn.
    rewrite DecimalZ.of_to in Hn. rewrite <- Ed in Hn. discriminate.
  - rewrite Er. simpl. now rewrite DecimalZ.of_to.
Qed.

Lemma rejectAll_settled (message : string) (s : Session) :
  exists rejected,
    settled (rejectAllPendingRequests message s) = settled s ++ rejected
    /\ length rejected = size (pending s)
    /\ Forall (fun e => snd e = Rejected message) rejected
    /\ NoDup (map fst rejected)
    /\ forall id, id ∈ map fst rejected <-> is_Some (pending s !! id).
Proof.
  exists (map (fun e => (fst e, Rejected message)) (map_to_list (pending s))).
  split; [reflexivity|]. split; [now rewrite length_map, length_map_to_list|].
  split; [apply Forall_forall; intros e He; apply list_elem_of_fmap in He;
          destruct He as (y & -> & _); reflexivity|].
  assert (map fst (map (fun e : Z * Z => (fst e, Rejected message)) (map_to_list (pending s)))
          = (map_to_list (pending s)).*1) as E.
  { rewrite map_map. simpl. reflexivity. }
  rewrite E. split; [apply NoDup_fst_map_to_list|].
  intros id. rewrite list_elem_of_fmap. split.
  - intros ([i x] & -> & Hin). apply elem_of_map_to_list in Hin. simpl. eauto.
  - intros [x Hx]. exists (id, x). split; [reflexivity|]. now apply elem_of_map_to_list.
Qed.

Lemma rejectAll_drained (m1 m2 : string) (s : Session) :
  rejectAllPendingRequests m2 (rejectAllPendingRequests m1 s) = rejectAllPendingRequests m1 s.
Proof.
  unfold rejectAllPendingRequests at 1. simpl.
  rewrite map_to_list_empty. simpl. rewrite app_nil_r. reflexivity.
Qed.

Lemma mapDelete_not_elem (ws : nat) (keys : list nat) : ws ∉ mapDelete ws keys.
Proof.
  unfold mapDelete. intros Hin. apply list_elem_of_In, filter_In in Hin as [_ Hne].
  now rewrite Nat.eqb_refl in Hne.
Qed.

(** C4: when the socket of a session closes, every outbound call pending on
    that session is rejected, each once (as many rejections as pending
    calls, no id twice, exactly the pending ids), with the message
    [Connection is closed (code: reason).], where the code stands in
    decimal digits (a numeral that reads back as the code) and the reason,
    when it is not empty, follows a colon; the table is left empty, so that
    nothing is left hanging and a later drain rejects nothing again; the
    session is no longer live, and the other sessions are untouched. *)
Theorem onClose_rejects_pending_once `{Host} (ws : nat) (code : Z)
    (reason : option (list Byte.byte)) (srv : WsRpcServer) (env : Env) (s : Session) :
  sessions env !! ws = Some s ->
  exists s' rejected,
    sessions (snd (onClose ws code reason srv env)) !! ws = Some s'
    /\ settled s' = settled s ++ rejected
    /\ length rejected = size (pending s)
    /\ Forall (fun e => snd e = Rejected (closeMessage code reason)) rejected
    /\ NoDup (map fst rejected)
    /\ (forall id, id ∈ map fst rejected <-> is_Some (pending s !! id))
    /\ pending s' = ∅
    /\ (forall again, rejectAllPendingRequests again s' = s')
    /\ (ws ∉ clients (fst (onClose ws code reason srv env)))
    /\ (forall other, other <> ws ->
          sessions (snd (onClose ws code reason srv env)) !! other = sessions env !! other)
    /\ exists digits,
         digits <> EmptyString
         /\ Z.of_int <$> NilEmpty.int_of_string digits = Some code
         /\ closeMessage code reason
            = "Connection is closed (" +:+ digits
              +:+ match reason with
                  | Some r => if JSString.nonEmpty (utf8Decode r)
                              then ": " +:+ utf8Decode r else EmptyString
                  | None => EmptyString
                  end
              +:+ ").".
Proof.
  intros Hs.
  destruct (rejectAll_settled (closeMessage code reason) s) as (rejected & E1 & E2 & E3 & E4 & E5).
  exists (rejectAllPendingRequests (closeMessage code reason) s), rejected.
  split.
  { unfold onClose, withSessions. simpl. rewrite lookup_alter_eq, Hs. reflexivity. }
  repeat (split; [assumption|]).
  split; [reflexivity|].
  split; [intros again; apply rejectAll_drained|].
  split; [apply mapDelete_not_elem|].
  split.
  { intros other Hne. unfold onClose, withSessions. simpl.
    now rewrite lookup_alter_ne by congruence. }
  exists (decimal code). destruct (decimal_reads_back code) as [Hne Hread].
  split; [exact Hne|]. split; [exact Hread|].
  unfold closeMessage. now destruct reason.
Qed.

Lemma onClose_rejects_pending_once_witness :
  sessions (envWith (snd twoCalls) {[ 0 := fst twoCalls ]}) !! 0 = Some (fst twoCalls)
  /\ size (pending (fst twoCalls)) = 2
  /\ exists s' rejected,
       sessions (snd (onClose 0 1006 (Some [Byte.x62; Byte.x79; Byte.x65])
                        (listeningServer [0])
                        (envWith (snd twoCalls) {[ 0 := fst twoCalls ]}))) !! 0 = Some s'
       /\ settled s' = settled (fst twoCalls) ++ rejected
       /\ length rejected = 2
       /\ Forall (fun e => snd e = Rejected "Connection is closed (1006: bye).") rejected
       /\ forall id, id ∈ map fst rejected <-> id = 1%Z \/ id = 2%Z.
Proof.
  split; [reflexivity|]. split; [reflexivity|].
  assert (sessions (envWith (snd twoCalls) {[ 0 := fst twoCalls ]}) !! 0 = Some (fst twoCalls))
    as Hs by reflexivity.
  destruct (onClose_rejects_pending_once 0 1006 (Some [Byte.x62; Byte.x79; Byte.x65])
              (listeningServer [0])
              (envWith (snd twoCalls) {[ 0 := fst twoCalls ]}) (fst twoCalls) Hs)
    as (s' & rejected & E1 & E2 & E3 & E4 & _ & E6 & _).
  exists s', rejected. split; [exact E1|]. split; [exact E2|]. split; [exact E3|].
  split; [exact E4|].
  intros id. rewrite E6.
  change (pending (fst twoCalls)) with (<[2%Z := 7%Z]> (<[1%Z := 5%Z]> (∅ : gmap Z Z))).
  rewrite !lookup_insert. split.
  - intros [x Hx]. destruct (decide (2%Z = id)); [now right|].
    destruct (decide (1%Z = id)); [now left|]. rewrite lookup_empty in Hx. discriminate.
  - intros [->| ->]; simpl; eauto.
Defined.

(* ------------------------------------------------------------------ *)
(** ** Version bumps and their broadcast *)

Lemma notify_lookup (method : string) (params : JSValue) (ws w : nat)
    (socks : gmap nat WebSocket) :
  notify method params (Some ws) socks !! w
  = match socks !! w with
    | Some s =>
        if Nat.eqb ws w && isOpen s
        then Some (socketSend (NotificationFrame method params) s)
        else Some s
    | None => None
    end.
Proof.
  unfold notify, clientSend.
  destruct (Nat.eqb ws w) eqn:E.
  - apply Nat.eqb_eq in E. subst w.
    destruct (socks !! ws) as [s|] eqn:Es; simpl; [|now rewrite Es].
    destruct (isOpen s); simpl; [now rewrite lookup_insert_eq | now rewrite Es].
  - apply Nat.eqb_neq in E.
    destruct (socks !! ws) as [s|] eqn:Es; simpl; [|now destruct (socks !! w)].
    destruct (isOpen s); simpl; [rewrite lookup_insert_ne by assumption|];
      now destruct (socks !! w).
Qed.

(** What [notifyAll] leaves on each socket, the live sessions being
    pairwise distinct (they are the keys of a [Map]). *)
Lemma notifyAll_lookup (method : string) (params : JSValue) (live : list nat) (w : nat)
    (socks : gmap nat WebSocket) :
  NoDup live ->
  fold_left (fun socks ws => notify method params (Some ws) socks) live socks !! w
  = match socks !! w with
    | Some s =>
        if bool_decide (w ∈ live) && isOpen s
        then Some (socketSend (NotificationFrame method params) s)
        else Some s
    | None => None
    end.
Proof.
  intros Hnd. revert socks. induction Hnd as [|x live Hx Hnd IH]; intros socks; simpl.
  - now destruct (socks !! w).
  - rewrite IH, notify_lookup.
    destruct (socks !! w) as [s|]; [|reflexivity].
    destruct (Nat.eqb x w) eqn:E.
    + apply Nat.eqb_eq in E. subst w.
      rewrite (bool_decide_eq_false_2 _ Hx).
      rewrite (bool_decide_eq_true_2 (x ∈ x :: live)) by (apply elem_of_cons; now left).
      simpl. destruct (isOpen s); reflexivity.
    + apply Nat.eqb_neq in E. simpl.
      assert (bool_decide (w ∈ x :: live) = bool_decide (w ∈ live)) as ->.
      { apply bool_decide_ext. rewrite elem_of_cons. split; [intros [?|?]; congruence | tauto]. }
      reflexivity.
Qed.

Lemma NoDup_mapSet (ws : nat) (keys : list nat) : NoDup keys -> NoDup (mapSet ws keys).
Proof.
  intros Hnd. unfold mapSet. destruct (existsb (Nat.eqb ws) keys) eqn:E; [assumption|].
  apply NoDup_app. split; [assumption|]. split; [|apply NoDup_singleton].
  intros y Hy Hy'. apply list_elem_of_singleton in Hy'. subst y.
  assert (existsb (Nat.eqb ws) keys = true) as E'.
  { apply existsb_exists. exists ws. split; [now apply list_elem_of_In | apply Nat.eqb_refl]. }
  congruence.
Qed.

Lemma NoDup_mapDelete (ws : nat) (keys : list nat) : NoDup keys -> NoDup (mapDelete ws keys).
Proof.
  intros Hnd. unfold mapDelete. apply NoDup_ListNoDup, List.NoDup_filter.
  now apply NoDup_ListNoDup.
Qed.

Lemma roundToDouble_exact (x : Z) : (Z.abs x <= 2 ^ 53)%Z -> roundToDouble x = x.
Proof.
  intros Hx. unfold roundToDouble. cbv zeta.
  now rewrite (proj2 (Z.leb_le (Z.abs x) (2 ^ 53)) Hx).
Qed.

Lemma plusOne_exact (v : Z) : (- 2 ^ 53 <= v < 2 ^ 53)%Z -> plusOne v = (v + 1)%Z.
Proof. intros Hv. unfold plusOne. apply roundToDouble_exact. lia. Qed.

(** At 2^53 the number stops growing: a further vault event leaves the
    version where it is. *)
Lemma plusOne_at_limit : plusOne (2 ^ 53) = (2 ^ 53)%Z.
Proof. reflexivity. Qed.

(** C5 (as amended): while the version is below 2^53 (up to there a
    number holds every integer), a vault event (modify, create, delete,
    rename) raises the version by exactly 1 and leaves the live sessions as
    they are; every live session whose socket is open is sent exactly one
    more frame, the [graph.changed] notification carrying the new version;
    a socket that is not open, or belongs to no live session, is sent
    nothing; and a socket that connects afterwards is sent [hello] with the
    new version. *)
Theorem bump_notifies_open_sessions `{Host} (e : VaultEvent) (p : Plugin) (env : Env) :
  NoDup (liveSessions p) ->
  (- 2 ^ 53 <= graphVersion p < 2 ^ 53)%Z ->
  graphVersion (fst (onVaultEvent e p env)) = (graphVersion p + 1)%Z
  /\ liveSessions (fst (onVaultEvent e p env)) = liveSessions p
  /\ (forall ws s,
        ws ∈ liveSessions p -> sockets env !! ws = Some s -> isOpen s = true ->
        sockets (snd (onVaultEvent e p env)) !! ws
        = Some (socketSend (NotificationFrame "graph.changed"
                              (versionParams (graphVersion p + 1))) s))
  /\ (forall ws s,
        sockets env !! ws = Some s -> ws ∉ liveSessions p \/ isOpen s = false ->
        sockets (snd (onVaultEvent e p env)) !! ws = Some s)
  /\ (forall ws s srv,
        rpcServer p = Some srv ->
        sockets (snd (onVaultEvent e p env)) !! ws = Some s -> isOpen s = true ->
        sockets (snd (onClientSocket ws (fst (onVaultEvent e p env))
                        (snd (onVaultEvent e p env)))) !! ws
        = Some (socketSend (NotificationFrame "hello"
                              (versionParams (graphVersion p + 1))) s)).
Proof.
  intros Hnd Hb.
  assert (onVaultEvent e p env = bumpGraphVersion p env) as -> by (destruct e; reflexivity).
  unfold bumpGraphVersion, liveSessions in *. simpl. rewrite (plusOne_exact _ Hb).
  split; [reflexivity|]. split; [reflexivity|].
  destruct (rpcServer p) as [srv|] eqn:Es.
  - unfold notifyAll, withSockets. simpl. repeat split.
    + intros ws s Hin Hs Ho. rewrite notifyAll_lookup by assumption. rewrite Hs, Ho.
      now rewrite (bool_decide_eq_true_2 _ Hin).
    + intros ws s Hs [Hn|Hc]; rewrite notifyAll_lookup by assumption; rewrite Hs.
      * now rewrite (bool_decide_eq_false_2 _ Hn).
      * rewrite Hc. now rewrite andb_false_r.
    + intros ws s srv' _ Hs Ho. unfold onClientSocket, onConnection. simpl.
      rewrite notify_lookup, Hs, Ho, Nat.eqb_refl. reflexivity.
  - repeat split.
    + intros ws s Hin. inversion Hin.
    + intros ws s Hs _. exact Hs.
    + intros ws s srv' Hsrv. discriminate.
Qed.

Lemma bump_notifies_open_sessions_witness :
  NoDup (liveSessions (pluginWith 3 [0; 1]))
  /\ (- 2 ^ 53 <= graphVersion (pluginWith 3 [0%nat; 1%nat]) < 2 ^ 53)%Z
  /\ graphVersion (fst (onVaultEvent Create (pluginWith 3 [0; 1])
                          (envWith {[ 0 := openSocket; 1 := closingSocket ]} ∅))) = 4%Z
  /\ sockets (snd (onVaultEvent Create (pluginWith 3 [0; 1])
                     (envWith {[ 0 := openSocket; 1 := closingSocket ]} ∅))) !! 0
     = Some (socketSend (NotificationFrame "graph.changed" (versionParams 4)) openSocket).
Proof.
  assert (NoDup (liveSessions (pluginWith 3 [0; 1]))) as Hnd.
  { apply (bool_decide_unpack _). vm_compute. exact I. }
  assert (- 2 ^ 53 <= graphVersion (pluginWith 3 [0%nat; 1%nat]) < 2 ^ 53)%Z as Hb
      by (unfold pluginWith; simpl graphVersion; lia).
  split; [exact Hnd|]. split; [exact Hb|].
  destruct (bump_notifies_open_sessions Create (pluginWith 3 [0; 1])
              (envWith {[ 0 := openSocket; 1 := closingSocket ]} ∅) Hnd Hb)
    as (Hv & _ & Hopen & _).
  split; [exact Hv|].
  apply (Hopen 0 openSocket); [|reflexivity|reflexivity].
  apply elem_of_cons. now left.
Defined.

(** C5 (counterexample): the session of a socket that is closing is still
    live, and a vault event sends it nothing: the notification does not
    reach every live session. *)
Lemma bump_skips_socket_not_open :
  ~ (forall ws s,
        ws ∈ liveSessions (pluginWith 3 [0]) ->
        sockets (envWith {[ 0 := closingSocket ]} {[ 0 := createServerAndClient ]}) !! ws = Some s ->
        sockets (snd (onVaultEvent Modify (pluginWith 3 [0])
                        (envWith {[ 0 := closingSocket ]} {[ 0 := createServerAndClient ]}))) !! ws
        = Some (socketSend (NotificationFrame "graph.changed" (versionParams 4)) s)).
Proof.
  intros Hall.
  specialize (Hall 0 closingSocket).
  assert (0 ∈ liveSessions (pluginWith 3 [0])) as Hin by (apply elem_of_cons; now left).
  specialize (Hall Hin eq_refl). vm_compute in Hall. discriminate.
Qed.

(* ------------------------------------------------------------------ *)
(** ** Incoming frames *)

Lemma receiveAndSend_without_marker (payload : JSValue) (graphVersion : JSNumber)
    (socket : option nat) (s : Session) (socks : gmap nat WebSocket) (app : App) :
  lacksMarker payload = true ->
  receiveAndSend payload graphVersion socket s socks app = (s, socks, app).
Proof.
  intros Hm. destruct payload as [| | | | |items|fields]; try reflexivity.
  unfold receiveAndSend. simpl in Hm. apply negb_true_iff in Hm. now rewrite Hm.
Qed.

(** C7: a frame whose text is empty, a frame whose text is not JSON, and a
    frame of well-formed JSON that does not carry [jsonrpc: "2.0"] change
    nothing: the sockets hold exactly the frames sent before (no response,
    no error), and the sessions and the application are untouched. *)
Theorem onMessage_drops_malformed `{Host} (ws : nat) (raw : RawData) (graphVersion : Z)
    (srv : WsRpcServer) (env : Env) :
  rawToText raw = EmptyString
  \/ JSON_parse (rawToText raw) = None
  \/ (exists payload,
        JSON_parse (rawToText raw) = Some payload /\ lacksMarker payload = true) ->
  onMessage ws raw graphVersion srv env = (srv, env)
  /\ sockets (snd (onMessage ws raw graphVersion srv env)) = sockets env.
Proof.
  intros Hcase.
  assert (onMessage ws raw graphVersion srv env = (srv, env)) as E.
  { unfold onMessage.
    destruct (JSString.nonEmpty (rawToText raw)) eqn:Hn; simpl negb; cbv iota; [|reflexivity].
    destruct Hcase as [He|[Hp|(payload & Hp & Hm)]].
    - rewrite He in Hn. discriminate.
    - now rewrite Hp.
    - rewrite Hp. destruct (sessions env !! ws) as [s|] eqn:Es; [|reflexivity].
      rewrite (receiveAndSend_without_marker _ _ _ _ _ _ Hm).
      rewrite (insert_id _ _ _ Es). destruct env; reflexivity. }
  split; [exact E | now rewrite E].
Qed.

Lemma onMessage_drops_malformed_witness :
  (exists payload,
      JSON_parse (rawToText (RawString "{}")) = Some payload /\ lacksMarker payload = true)
  /\ sockets (snd (onMessage 0 (RawString "{}") 3 (listeningServer [0])
                     (envWith {[ 0 := openSocket ]} {[ 0 := createServerAndClient ]})))
     = sockets (envWith {[ 0 := openSocket ]} {[ 0 := createServerAndClient ]}).
Proof.
  assert (exists payload,
             JSON_parse (rawToText (RawString "{}")) = Some payload
             /\ lacksMarker payload = true) as Hm.
  { exists (JObj []). split; reflexivity. }
  split; [exact Hm|].
  apply (proj2 (onMessage_drops_malformed 0 (RawString "{}") 3 (listeningServer [0])
                  (envWith {[ 0 := openSocket ]} {[ 0 := createServerAndClient ]})
                  (or_intror (or_intror Hm)))).
Defined.

(* ------------------------------------------------------------------ *)
(** ** [note.create]: the folders on the way *)

Lemma assoc_app {A} (k : string) (l m : list (string * A)) :
  assoc k (l ++ m) = match assoc k l with Some x => Some x | None => assoc k m end.
Proof.
  induction l as [|[k' x] l IH]; simpl; [reflexivity|].
  destruct (String.eqb k k'); [reflexivity | exact IH].
Qed.

Lemma assoc_folders (k : string) (created : list string) :
  assoc k (map (fun p => (p, AFolder p)) created)
  = if bool_decide (k ∈ created) then Some (AFolder k) else None.
Proof.
  induction created as [|c created IH]; simpl; [reflexivity|].
  destruct (String.eqb k c) eqn:E.
  - apply String.eqb_eq in E. subst c.
    rewrite bool_decide_eq_true_2; [reflexivity | apply elem_of_cons; now left].
  - apply String.eqb_neq in E. rewrite IH.
    assert (bool_decide (k ∈ created) = bool_decide (k ∈ c :: created)) as ->.
    { apply bool_decide_ext. rewrite elem_of_cons. tauto. }
    reflexivity.
Qed.

Lemma lookup_withFolders (v : Vault) (created : list string) (k : string) :
  getAbstractFileByPath (withFolders v created) k
  = match getAbstractFileByPath v k with
    | Some x => Some x
    | None => if bool_decide (k ∈ created) then Some (AFolder k) else None
    end.
Proof. unfold getAbstractFileByPath, withFolders. simpl. now rewrite assoc_app, assoc_folders. Qed.

Lemma withFolders_nil (v : Vault) : withFolders v [] = v.
Proof. destruct v. unfold withFolders. simpl. now rewrite !app_nil_r. Qed.

Lemma withFolders_cons (v : Vault) (c : string) (created : list string) :
  withFolders (withFolders v [c]) created = withFolders v (c :: created).
Proof. unfold withFolders. simpl. now rewrite <- !app_assoc. Qed.

Lemma createFolder_missing (c : string) (v : Vault) :
  getAbstractFileByPath v c = None -> createFolder c v = (Ok tt, withFolders v [c]).
Proof. intros E. unfold createFolder. now rewrite E. Qed.

Lemma ensureLoop_cons (segment : string) (rest : list string) (current : string) (v : Vault) :
  ensureLoop (segment :: rest) current v
  = let current' :=
      if JSString.nonEmpty current then current +:+ "/" +:+ segment else segment in
    match getAbstractFileByPath v current' with
    | None =>
        match createFolder current' v with
        | (Throw e, v') => (Throw e, v')
        | (Ok _, v') => ensureLoop rest current' v'
        end
    | Some (AFolder _) => ensureLoop rest current' v
    | Some _ => (Throw (Error ("Path segment is not a folder: " +:+ current')), v)
    end.
Proof. reflexivity. Qed.

(** Every folder on the way being missing or a folder, the loop succeeds
    and creates the missing ones, in order. *)
Lemma ensureLoop_creates_missing (segments : list string) (current : string) (v : Vault) :
  NoDup (prefixesFrom current segments) ->
  (forall p, p ∈ prefixesFrom current segments ->
             getAbstractFileByPath v p = None
             \/ exists d, getAbstractFileByPath v p = Some (AFolder d)) ->
  ensureLoop segments current v
  = (Ok tt, withFolders v (List.filter (missingIn v) (prefixesFrom current segments))).
Proof.
  revert current v. induction segments as [|segment rest IH]; intros current v Hnd Hall.
  - simpl. now rewrite withFolders_nil.
  - rewrite ensureLoop_cons. cbv zeta. simpl prefixesFrom in *.
    set (c := if JSString.nonEmpty current then current +:+ "/" +:+ segment else segment) in *.
    apply NoDup_cons in Hnd as [Hc Hnd].
    assert (forall w, (forall p, p ∈ prefixesFrom c rest ->
                                 getAbstractFileByPath w p = getAbstractFileByPath v p) ->
                      List.filter (missingIn w) (prefixesFrom c rest)
                      = List.filter (missingIn v) (prefixesFrom c rest)) as Hfilter.
    { intros w Hw. apply List.filter_ext_in. intros p Hp. unfold missingIn.
      now rewrite Hw by now apply list_elem_of_In. }
    destruct (Hall c) as [Hmiss|[d Hd]]; [apply elem_of_cons; now left| |].
    + rewrite Hmiss, (createFolder_missing c v Hmiss).
      assert (forall p, p ∈ prefixesFrom c rest ->
                        getAbstractFileByPath (withFolders v [c]) p = getAbstractFileByPath v p) as Hsame.
      { intros p Hp. rewrite lookup_withFolders.
        destruct (getAbstractFileByPath v p); [reflexivity|].
        rewrite bool_decide_eq_false_2; [reflexivity|].
        intros Hin. apply list_elem_of_singleton in Hin. subst p. contradiction. }
      rewrite IH.
      * rewrite withFolders_cons, (Hfilter _ Hsame). simpl List.filter.
        unfold missingIn at 2. now rewrite Hmiss.
      * assumption.
      * intros p Hp. rewrite (Hsame p Hp). apply Hall. apply elem_of_cons. now right.
    + rewrite Hd. rewrite IH.
      * simpl List.filter. unfold missingIn at 2. now rewrite Hd.
      * assumption.
      * intros p Hp. apply Hall. apply elem_of_cons. now right.
Qed.

(** A folder on the way that exists and is no folder makes the loop fail;
    all it has done by then is to create folders. *)
Lemma ensureLoop_conflict (segments : list string) (current : string) (v : Vault)
    (p : string) (x : TAbstractFile) :
  p ∈ prefixesFrom current segments ->
  getAbstractFileByPath v p = Some x ->
  (forall d, x <> AFolder d) ->
  exists e created, ensureLoop segments current v = (Throw e, withFolders v created).
Proof.
  revert current v. induction segments as [|segment rest IH]; intros current v Hin Hx Hnf.
  - inversion Hin.
  - rewrite ensureLoop_cons. cbv zeta. simpl prefixesFrom in Hin.
    set (c := if JSString.nonEmpty current then current +:+ "/" +:+ segment else segment) in *.
    destruct (getAbstractFileByPath v c) as [[f|d|o]|] eqn:Hc.
    + exists (Error ("Path segment is not a folder: " +:+ c)), []. now rewrite withFolders_nil.
    + apply elem_of_cons in Hin as [->|Hin].
      * rewrite Hc in Hx. inversion Hx; subst x. exfalso. now apply (Hnf d).
      * now apply IH.
    + exists (Error ("Path segment is not a folder: " +:+ c)), []. now rewrite withFolders_nil.
    + rewrite (createFolder_missing c v Hc).
      apply elem_of_cons in Hin as [->|Hin]; [congruence|].
      destruct (IH c (withFolders v [c]) Hin) as (e & created & E).
      * rewrite lookup_withFolders, Hx. reflexivity.
      * assumption.
      * exists e, (c :: created). now rewrite E, withFolders_cons.
Qed.

(** The prefixes grow: each is longer than the one before, and all are
    shorter than the path they lead to. *)
Lemma prefixesFrom_longer (segments : list string) (current p : string) :
  Forall (fun s => JSString.nonEmpty s = true) segments ->
  p ∈ prefixesFrom current segments ->
  String.length current < String.length p.
Proof.
  revert current. induction segments as [|segment rest IH]; intros current Hne Hin.
  - inversion Hin.
  - inversion Hne as [|? ? Hs Hrest]; subst. simpl in Hin.
    set (c := if JSString.nonEmpty current then current +:+ "/" +:+ segment else segment) in *.
    assert (String.length current < String.length c) as Hc.
    { subst c. destruct current as [|a current]; simpl JSString.nonEmpty; cbv iota.
      - destruct segment; [discriminate | simpl; lia].
      - rewrite !length_append. simpl. lia. }
    apply elem_of_cons in Hin as [->|Hin]; [exact Hc|].
    specialize (IH c Hrest Hin). lia.
Qed.

Lemma prefixesFrom_NoDup (segments : list string) (current : string) :
  Forall (fun s => JSString.nonEmpty s = true) segments ->
  NoDup (prefixesFrom current segments).
Proof.
  revert current. induction segments as [|segment rest IH]; intros current Hne; simpl.
  - constructor.
  - inversion Hne as [|? ? Hs Hrest]; subst. apply NoDup_cons. split; [|now apply IH].
    intros Hin. apply prefixesFrom_longer in Hin; [lia | assumption].
Qed.

Lemma prefixesFrom_bound (segments : list string) (current p : string) :
  p ∈ prefixesFrom current segments ->
  String.length p <= String.length current + weight segments.
Proof.
  revert current. induction segments as [|segment rest IH]; intros current Hin.
  - inversion Hin.
  - simpl in Hin.
    set (c := if JSString.nonEmpty current then current +:+ "/" +:+ segment else segment) in *.
    assert (String.length c <= String.length current + S (String.length segment)) as Hc.
    { subst c. destruct (JSString.nonEmpty current); [rewrite !length_append; simpl|]; lia. }
    simpl weight. apply elem_of_cons in Hin as [->|Hin]; [lia|].
    specialize (IH c Hin). lia.
Qed.

Lemma prefixesFrom_empty_bound (segments : list string) (p : string) :
  p ∈ prefixesFrom EmptyString segments -> S (String.length p) <= weight segments.
Proof.
  destruct segments as [|segment rest]; intros Hin; [inversion Hin|].
  simpl in Hin. simpl weight. apply elem_of_cons in Hin as [->|Hin]; [lia|].
  apply prefixesFrom_bound in Hin. lia.
Qed.

Lemma weight_filter (f : string -> bool) (l : list string) :
  weight (List.filter f l) <= weight l.
Proof.
  induction l as [|x l IH]; simpl; [lia|]. destruct (f x); simpl; lia.
Qed.

Lemma length_join (l : list string) :
  l <> [] -> S (String.length (JSString.join "/" l)) = weight l.
Proof.
  induction l as [|x l IH]; [congruence|]. intros _. destruct l as [|y l].
  - rewrite join_single. simpl. lia.
  - specialize (IH ltac:(discriminate)). rewrite join_cons.
    set (j := JSString.join "/" (y :: l)) in *.
    rewrite !length_append. change (weight (x :: y :: l)) with (S (String.length x) + weight (y :: l)).
    simpl String.length. lia.
Qed.

Lemma weight_removelast_lt (l : list string) :
  l <> [] -> S (weight (removelast l)) <= weight l.
Proof.
  induction l as [|x l IH]; [congruence|]. intros _. destruct l as [|y l].
  - simpl. lia.
  - specialize (IH ltac:(discriminate)). change (removelast (x :: y :: l)) with (x :: removelast (y :: l)).
    simpl weight in *. lia.
Qed.

Lemma intermediateFolders_shorter (path p : string) :
  p ∈ intermediateFolders path -> String.length p < String.length path.
Proof.
  unfold intermediateFolders. intros Hin. apply prefixesFrom_empty_bound in Hin.
  pose proof (weight_filter JSString.nonEmpty (removelast (JSString.split slash path))) as H1.
  pose proof (weight_removelast_lt (JSString.split slash path) (split_not_nil _ _)) as H2.
  pose proof (length_join (JSString.split slash path) (split_not_nil _ _)) as H3.
  change "/" with (String slash EmptyString) in H3. rewrite join_split in H3. lia.
Qed.

Lemma filter_nonEmpty_Forall (l : list string) :
  Forall (fun s => JSString.nonEmpty s = true) (List.filter JSString.nonEmpty l).
Proof.
  apply Forall_forall. intros x Hx. apply list_elem_of_In, filter_In in Hx. tauto.
Qed.

Lemma intermediateFolders_NoDup (path : string) : NoDup (intermediateFolders path).
Proof. apply prefixesFrom_NoDup, filter_nonEmpty_Forall. Qed.

Lemma Forall_removelast {A} (P : A -> Prop) (l : list A) :
  Forall P l -> Forall P (removelast l).
Proof.
  induction 1 as [|x l Hx Hl IH]; simpl; [constructor|].
  destruct l; [constructor | now constructor].
Qed.

(** The segments [ensureFolderPath] walks are those of the path without its
    last one: going through the joined [folderPath] loses nothing, and an
    empty [folderPath] has no segment to walk. *)
Lemma ensureFolderPath_segments (path : string) (v : Vault) :
  let folderPath := JSString.join "/" (removelast (JSString.split slash path)) in
  (if JSString.nonEmpty folderPath then ensureFolderPath folderPath v else (Ok tt, v))
  = ensureLoop (List.filter JSString.nonEmpty (removelast (JSString.split slash path)))
      EmptyString v.
Proof.
  cbv zeta. set (l := removelast (JSString.split slash path)).
  assert (Forall (fun x => hasChar slash x = false) l) as Hl
      by apply Forall_removelast, split_no_sep.
  destruct (JSString.nonEmpty (JSString.join "/" l)) eqn:E.
  - unfold ensureFolderPath. destruct l as [|x l'] eqn:El; [discriminate|].
    change "/" with (String slash EmptyString). rewrite split_join; [reflexivity|discriminate|assumption].
  - destruct l as [|x [|y l']]; [reflexivity| |].
    + rewrite join_single in E. destruct x; [reflexivity | discriminate].
    + rewrite join_cons in E. destruct x; discriminate.
Qed.

(* ------------------------------------------------------------------ *)
(** ** [note.create] *)

Lemma withVault_same (a : App) : withVault a (vault a) = a.
Proof. now destruct a. Qed.

(** The handler once its params have passed the three checks. *)
Lemma rpcNoteCreate_checked `{Host} (params : JSValue) (graphVersion : JSNumber) (app : App) :
  let path := normalizePath (rawPathOf params) in
  rawPathOf params <> EmptyString ->
  headingOf params <> EmptyString ->
  JSString.endsWith (JSString.toLowerCase path) ".md" = true ->
  rpcNoteCreate params graphVersion app
  = match getAbstractFileByPath (vault app) path with
    | Some (AFile _) => (Throw (Error ("File already exists: " +:+ path)), app)
    | Some (AOther _) =>
        (Throw (Error ("Path already exists and is not a markdown file: " +:+ path)), app)
    | _ =>
        match ensureLoop (List.filter JSString.nonEmpty (removelast (JSString.split slash path)))
                EmptyString (vault app) with
        | (Throw e, v1) => (Throw e, withVault app v1)
        | (Ok _, v1) =>
            match create path (noteContent (headingOf params) (bodyOf params)) v1 with
            | (Throw e, v2) => (Throw e, withVault app v2)
            | (Ok file, v2) =>
                (Ok (Created {| created_path := Obsidian.path file;
                                created_title := basename file;
                                created_mtime := mtimeOf file |}),
                 withVault app v2)
            end
        end
    end.
Proof.
  intros path Hp Hh He. unfold rpcNoteCreate.
  fold (rawPathOf params) (headingOf params) (bodyOf params). fold path.
  apply nonEmpty_true in Hp, Hh. rewrite Hp, Hh, He. simpl negb. cbv iota.
  rewrite (ensureFolderPath_segments path (vault app)). reflexivity.
Qed.

Lemma lookup_snoc (w v : Vault) (q k : string) (x : TAbstractFile) :
  fileMap w = fileMap v ++ [(q, x)] ->
  getAbstractFileByPath w k
  = match getAbstractFileByPath v k with
    | Some y => Some y
    | None => if String.eqb k q then Some x else None
    end.
Proof.
  intros E. unfold getAbstractFileByPath. rewrite E, assoc_app. reflexivity.
Qed.

(** C2 (as amended): for params whose trimmed path and trimmed heading are
    not empty and whose normalised path ends in [.md]:
    - when nothing is at the path and each intermediate folder is missing
      or is a folder, the call creates the missing intermediate folders,
      outermost first, and then the file; the file's text is ["# "], the
      trimmed heading, a blank line, the body without its trailing white
      space, and a line feed; a second identical call fails with
      "File already exists" and changes nothing;
    - when an intermediate folder exists and is not a folder, the call
      fails, and all it may have done is to create folders: no file. *)
Theorem rpcNoteCreate_spec `{Host} (params : JSValue) (graphVersion : JSNumber) (app : App) :
  let path := normalizePath (rawPathOf params) in
  let heading := headingOf params in
  let body := bodyOf params in
  let content := "# " +:+ heading +:+ newline +:+ newline +:+ JSString.trimEnd body +:+ newline in
  rawPathOf params <> EmptyString ->
  heading <> EmptyString ->
  JSString.endsWith (JSString.toLowerCase path) ".md" = true ->
  (getAbstractFileByPath (vault app) path = None ->
   (forall p, p ∈ intermediateFolders path ->
              getAbstractFileByPath (vault app) p = None
              \/ exists d, getAbstractFileByPath (vault app) p = Some (AFolder d)) ->
   exists file app1,
     rpcNoteCreate params graphVersion app
     = (Ok (Created {| created_path := path; created_title := basename file;
                       created_mtime := mtimeOf file |}), app1)
     /\ journal (vault app1)
        = journal (vault app)
          ++ map OpCreateFolder (List.filter (missingIn (vault app)) (intermediateFolders path))
          ++ [OpCreate path content]
     /\ (forall p, p ∈ intermediateFolders path ->
                   exists d, getAbstractFileByPath (vault app1) p = Some (AFolder d))
     /\ getAbstractFileByPath (vault app1) path = Some (AFile file)
     /\ noteText (vault app1) file = content
     /\ rpcNoteCreate params graphVersion app1
        = (Throw (Error ("File already exists: " +:+ path)), app1))
  /\ (forall p x,
        p ∈ intermediateFolders path ->
        getAbstractFileByPath (vault app) p = Some x ->
        (forall d, x <> AFolder d) ->
        exists e created,
          rpcNoteCreate params graphVersion app
          = (Throw e, withVault app (withFolders (vault app) created))).
Proof.
  intros path heading body content Hp Hh He. split.
  - intros Hnone Hall.
    set (created := List.filter (missingIn (vault app)) (intermediateFolders path)).
    set (file := {| Obsidian.path := path; basename := basenameOf path;
                    extension := extensionOf path;
                    stat := Some {| mtime := clock (vault app) |} |}).
    set (v1 := withFolders (vault app) created).
    set (v2 := {| fileMap := fileMap v1 ++ [(path, AFile file)];
                  contents := (path, content) :: contents v1;
                  clock := clock v1; journal := journal v1 ++ [OpCreate path content] |}).
    assert (path ∉ created) as Hnot.
    { intros Hin. apply list_elem_of_In, filter_In in Hin as [Hin _].
      apply list_elem_of_In, intermediateFolders_shorter in Hin. lia. }
    assert (getAbstractFileByPath v1 path = None) as Hv1.
    { unfold v1. rewrite lookup_withFolders, Hnone. now rewrite bool_decide_eq_false_2. }
    assert (create path content v1 = (Ok file, v2)) as Hcreate.
    { unfold create. rewrite Hv1. reflexivity. }
    assert (getAbstractFileByPath v2 path = Some (AFile file)) as Hv2.
    { rewrite (lookup_snoc v2 v1 path path (AFile file) eq_refl), Hv1.
      now rewrite String.eqb_refl. }
    exists file, (withVault app v2).
    split.
    { rewrite (rpcNoteCreate_checked params graphVersion app Hp Hh He). fold path.
      rewrite Hnone.
      rewrite (ensureLoop_creates_missing _ EmptyString (vault app)
                 (intermediateFolders_NoDup path) Hall).
      fold (intermediateFolders path). fold created. fold v1.
      change (noteContent (headingOf params) (bodyOf params)) with content.
      rewrite Hcreate. reflexivity. }
    split.
    { simpl. unfold created. now rewrite app_assoc. }
    split.
    { intros p Hin. simpl vault.
      rewrite (lookup_snoc v2 v1 path p (AFile file) eq_refl).
      unfold v1. rewrite lookup_withFolders.
      destruct (Hall p Hin) as [Hm|[d Hd]].
      - rewrite Hm. rewrite bool_decide_eq_true_2; [eauto|].
        apply list_elem_of_In, filter_In. split; [now apply list_elem_of_In|].
        unfold missingIn. now rewrite Hm.
      - rewrite Hd. eauto. }
    split; [exact Hv2|].
    split.
    { unfold noteText, cachedRead. simpl. now rewrite String.eqb_refl. }
    rewrite (rpcNoteCreate_checked params graphVersion (withVault app v2) Hp Hh He). fold path.
    simpl vault. rewrite Hv2. reflexivity.
  - intros p x Hin Hx Hnf.
    rewrite (rpcNoteCreate_checked params graphVersion app Hp Hh He). fold path.
    destruct (ensureLoop_conflict _ EmptyString (vault app) p x Hin Hx Hnf) as (e & created & E).
    destruct (getAbstractFileByPath (vault app) path) as [[f|d|o]|].
    + eexists _, []. now rewrite withFolders_nil, withVault_same.
    + rewrite E. eauto.
    + eexists _, []. now rewrite withFolders_nil, withVault_same.
    + rewrite E. eauto.
Qed.

Lemma rpcNoteCreate_spec_witness :
  rawPathOf spacedNote <> EmptyString
  /\ headingOf spacedNote <> EmptyString
  /\ JSString.endsWith (JSString.toLowerCase (normalizePath (rawPathOf spacedNote))) ".md" = true
  /\ exists file app1,
       rpcNoteCreate spacedNote (ofZ 0) emptyApp
       = (Ok (Created {| created_path := "a/b/c.md"; created_title := basename file;
                         created_mtime := mtimeOf file |}), app1)
       /\ journal (vault app1)
          = [OpCreateFolder "a"; OpCreateFolder "a/b";
             OpCreate "a/b/c.md" ("# H" +:+ newline +:+ newline +:+ "text" +:+ newline)]
       /\ rpcNoteCreate spacedNote (ofZ 0) app1
          = (Throw (Error "File already exists: a/b/c.md"), app1).
Proof.
  assert (rawPathOf spacedNote <> EmptyString) as Hp by discriminate.
  assert (headingOf spacedNote <> EmptyString) as Hh by discriminate.
  assert (JSString.endsWith (JSString.toLowerCase (normalizePath (rawPathOf spacedNote))) ".md"
          = true) as He by reflexivity.
  split; [exact Hp|]. split; [exact Hh|]. split; [exact He|].
  destruct (rpcNoteCreate_spec spacedNote (ofZ 0) emptyApp Hp Hh He) as [Hfresh _].
  destruct Hfresh as (file & app1 & E1 & E2 & _ & _ & _ & E6).
  - reflexivity.
  - intros p _. left. reflexivity.
  - exists file, app1. split; [exact E1|]. split; [exact E2 | exact E6].
Defined.

(** C2 (counterexample): for the heading [" H"] and the body ["text "] the
    call succeeds and the file holds ["# H"], a blank line and ["text"]: it
    does not begin with ["# "] followed by the heading and the body as they
    were given. *)
Lemma rpcNoteCreate_trims_heading_and_body :
  isOk (fst (rpcNoteCreate spacedNote (ofZ 0) emptyApp)) = true
  /\ noteText (vault (snd (rpcNoteCreate spacedNote (ofZ 0) emptyApp))) (noteAt "a/b/c.md")
     = "# H" +:+ newline +:+ newline +:+ "text" +:+ newline
  /\ JSString.startsWith
       (noteText (vault (snd (rpcNoteCreate spacedNote (ofZ 0) emptyApp))) (noteAt "a/b/c.md"))
       ("# " +:+ " H" +:+ newline +:+ newline +:+ "text ") = false.
Proof. vm_compute. repeat split. Qed.

(* ------------------------------------------------------------------ *)
(** ** [search.query]: what is read and what is returned *)

Lemma withReads_nil (v : Vault) : withReads v [] = v.
Proof. destruct v. unfold withReads. simpl. now rewrite app_nil_r. Qed.

Lemma withReads_cons (v : Vault) (f : TFile) (files : list TFile) :
  withReads (snd (cachedRead f v)) files = withReads v (f :: files).
Proof. unfold withReads, cachedRead, logged. simpl. now rewrite <- app_assoc. Qed.

Lemma matchOf_after_read (q : string) (v : Vault) (f g : TFile) :
  matchOf q (snd (cachedRead f v)) g = matchOf q v g.
Proof. reflexivity. Qed.

Lemma searchLoop_step (q : string) (limit : JSNumber) (f : TFile) (rest : list TFile)
    (results : list SearchResult) (v : Vault) :
  ge (ofNat (length results)) limit = false ->
  searchLoop q limit (f :: rest) results v
  = searchLoop q limit rest (results ++ omap (matchOf q v) [f]) (snd (cachedRead f v)).
Proof.
  intros E. rewrite searchLoop_cons, E. unfold matchOf, noteText. simpl omap.
  destruct (JSString.indexOf _ _); simpl; [reflexivity | now rewrite app_nil_r].
Qed.

(** The loop reads the first [k] files and returns the matches among them,
    in order; it goes on as long as the results are below the limit, and
    leaves a file unread only when they have reached it. *)
Lemma searchLoop_result (q : string) (limit : JSNumber) (files : list TFile)
    (results : list SearchResult) (v : Vault) :
  exists k,
    k <= length files
    /\ searchLoop q limit files results v
       = (results ++ omap (matchOf q v) (take k files), withReads v (take k files))
    /\ (forall j, j < k ->
          ge (ofNat (length (results ++ omap (matchOf q v) (take j files)))) limit = false)
    /\ (k < length files ->
          ge (ofNat (length (results ++ omap (matchOf q v) (take k files)))) limit = true).
Proof.
  revert results v. induction files as [|f rest IH]; intros results v.
  - exists 0. simpl. rewrite app_nil_r, withReads_nil. repeat split; intros; lia.
  - destruct (ge (ofNat (length results)) limit) eqn:E.
    + exists 0. rewrite searchLoop_cons, E. simpl. rewrite app_nil_r, withReads_nil.
      repeat split; [lia | intros; lia | intros _; exact E].
    + rewrite (searchLoop_step q limit f rest results v E).
      destruct (IH (results ++ omap (matchOf q v) [f]) (snd (cachedRead f v)))
        as (k & Hk & Eq & Hbelow & Hstop).
      assert (forall j, (results ++ omap (matchOf q v) [f])
                        ++ omap (matchOf q (snd (cachedRead f v))) (take j rest)
                        = results ++ omap (matchOf q v) (take (S j) (f :: rest))) as Happ.
      { intros j. rewrite <- app_assoc. f_equal.
        change (take (S j) (f :: rest)) with ([f] ++ take j rest).
        rewrite omap_app. reflexivity. }
      exists (S k). split; [simpl; lia|]. split.
      { rewrite Eq, Happ, withReads_cons. reflexivity. }
      split.
      * intros [|j] Hj.
        -- simpl take. simpl omap. rewrite app_nil_r. exact E.
        -- rewrite <- Happ. apply Hbelow. lia.
      * intros Hlt. rewrite <- Happ. apply Hstop. simpl in Hlt. lia.
Qed.

(** X1: with a query that is not empty and a limit that converts to a
    number or to NaN, [search.query] reads the first [k] markdown files of
    the vault, for some [k], and nothing else; its results are exactly the
    matches among those files, in vault order; it went on reading as long
    as the results were below [Math.min(limit, 200)] and left a file unread
    only when they had reached it. *)
Theorem rpcSearchQuery_results `{Host} (params : JSValue) (graphVersion n : JSNumber)
    (app : App) :
  queryOf params <> EmptyString ->
  limitOf params = Ok n ->
  exists k,
    k <= length (getMarkdownFiles (vault app))
    /\ rpcSearchQuery params graphVersion app
       = (Ok (Search {| response_query := queryOf params;
                        response_results :=
                          omap (matchOf (queryOf params) (vault app))
                               (take k (getMarkdownFiles (vault app))) |}),
          withVault app (withReads (vault app) (take k (getMarkdownFiles (vault app)))))
    /\ (forall j, j < k ->
          ge (ofNat (length (omap (matchOf (queryOf params) (vault app))
                               (take j (getMarkdownFiles (vault app))))))
             (Math_min n (ofZ 200)) = false)
    /\ (k < length (getMarkdownFiles (vault app)) ->
          ge (ofNat (length (omap (matchOf (queryOf params) (vault app))
                               (take k (getMarkdownFiles (vault app))))))
             (Math_min n (ofZ 200)) = true).
Proof.
  intros Hq Hn. unfold limitOf in Hn. unfold rpcSearchQuery. fold (queryOf params).
  apply nonEmpty_true in Hq. rewrite Hq, Hn. simpl negb. cbv iota.
  destruct (searchLoop_result (queryOf params) (Math_min n (ofZ 200))
              (getMarkdownFiles (vault app)) [] (vault app))
    as (k & Hk & Eq & Hbelow & Hstop).
  exists k. split; [exact Hk|]. split; [now rewrite Eq|]. split; assumption.
Qed.

Lemma rpcSearchQuery_results_witness :
  queryOf (JObj [("q", JStr " Foo "); ("limit", JNum (ofZ 2))]) <> EmptyString
  /\ limitOf (JObj [("q", JStr " Foo "); ("limit", JNum (ofZ 2))]) = Ok (ofZ 2)
  /\ exists k,
       k <= 5
       /\ fst (rpcSearchQuery (JObj [("q", JStr " Foo "); ("limit", JNum (ofZ 2))]) (ofZ 0)
                 (appOf (notesWithFoo 5)))
          = Ok (Search {| response_query := "Foo";
                          response_results :=
                            omap (matchOf "Foo" (vaultOf (notesWithFoo 5)))
                                 (take k (getMarkdownFiles (vaultOf (notesWithFoo 5)))) |}).
Proof.
  assert (queryOf (JObj [("q", JStr " Foo "); ("limit", JNum (ofZ 2))]) <> EmptyString)
    as Hq by discriminate.
  assert (limitOf (JObj [("q", JStr " Foo "); ("limit", JNum (ofZ 2))]) = Ok (ofZ 2))
    as Hn by reflexivity.
  split; [exact Hq|]. split; [exact Hn|].
  destruct (rpcSearchQuery_results (JObj [("q", JStr " Foo "); ("limit", JNum (ofZ 2))])
              (ofZ 0) (ofZ 2) (appOf (notesWithFoo 5)) Hq Hn) as (k & Hk & Eq & _).
  exists k. split; [exact Hk|]. now rewrite Eq.
Defined.

(** Induction on values through the items of arrays. *)
Lemma JSValue_items_ind (P : JSValue -> Prop) :
  P JUndefined -> P JNull -> (forall b, P (JBool b)) -> (forall n, P (JNum n)) ->
  (forall s, P (JStr s)) ->
  (forall items, Forall P items -> P (JArr items)) ->
  (forall fields, P (JObj fields)) ->
  forall v, P v.
Proof.
  intros Hu Hn Hb Hnum Hs Harr Hobj.
  fix IH 1. intros [| |b|n|s|items|fields].
  - exact Hu.
  - exact Hn.
  - apply Hb.
  - apply Hnum.
  - apply Hs.
  - apply Harr. induction items as [|x items IHitems]; constructor; [apply IH | exact IHitems].
  - apply Hobj.
Qed.

Lemma ToString_array_nil `{Host} : ToString (JArr []) = Ok EmptyString.
Proof. reflexivity. Qed.

(** The join of an array, one item at a time. *)
Lemma ToString_array_cons `{Host} (x : JSValue) (rest : list JSValue) :
  ToString (JArr (x :: rest))
  = match (match x with
           | JUndefined | JNull => Ok EmptyString
           | _ => ToString x
           end) with
    | Throw e => Throw e
    | Ok s =>
        match rest with
        | [] => Ok s
        | _ :: _ =>
            match ToString (JArr rest) with
            | Throw e => Throw e
            | Ok r => Ok (s +:+ "," +:+ r)
            end
        end
    end.
Proof. reflexivity. Qed.

(** The only error a conversion raises is the TypeError of an object
    without primitive value. *)
Lemma ToString_throws `{Host} (v : JSValue) (e : JSError) :
  ToString v = Throw e -> e = cannotConvert.
Proof.
  revert e. induction v as [| |b|n|s|items HF|fields] using JSValue_items_ind; intros e.
  - discriminate.
  - discriminate.
  - destruct b; discriminate.
  - discriminate.
  - discriminate.
  - revert e. induction HF as [|x rest Hx HF IH]; intros e; [discriminate|].
    rewrite ToString_array_cons.
    assert (forall e', match x with
                       | JUndefined | JNull => Ok EmptyString
                       | _ => ToString x
                       end = Throw e' -> e' = cannotConvert) as Hsx.
    { intros e'. destruct x; try discriminate; apply Hx. }
    destruct (match x with
              | JUndefined | JNull => Ok EmptyString
              | _ => ToString x
              end) as [sx|ex].
    + destruct rest as [|y rest']; [discriminate|].
      destruct (ToString (JArr (y :: rest'))) as [r|er].
      * discriminate.
      * intros E. inversion E; subst. now apply IH.
    + intros E. inversion E; subst. now apply Hsx.
  - simpl. destruct (hasOwn "toString" fields); [|discriminate].
    intros E. now inversion E.
Qed.

Lemma Number_throws `{Host} (v : JSValue) (e : JSError) :
  Number v = Throw e -> e = cannotConvert.
Proof.
  destruct v as [| |[|]|n|s|items|fields]; unfold Number; try discriminate.
  - destruct (ToString (JArr items)) eqn:E; [discriminate|].
    intros E'. inversion E'; subst. now apply ToString_throws in E.
  - destruct (ToString (JObj fields)) eqn:E; [discriminate|].
    intros E'. inversion E'; subst. now apply ToString_throws in E.
Qed.

(** X2: [search.query] fails with "Missing params.q" exactly when the query
    is missing, is no string, or is empty once trimmed; it then reads no
    file and leaves the application as it was. *)
Theorem rpcSearchQuery_missing_query `{Host} (params : JSValue) (graphVersion : JSNumber)
    (app : App) :
  (queryOf params = EmptyString <->
     rpcSearchQuery params graphVersion app = (Throw (Error "Missing params.q"), app))
  /\ (fst (rpcSearchQuery params graphVersion app) = Throw (Error "Missing params.q") ->
      queryOf params = EmptyString)
  /\ (forall x, (forall s, x <> JStr s) -> queryOf (JObj [("q", x)]) = EmptyString)
  /\ (forall s, JSString.trim s = EmptyString -> queryOf (JObj [("q", JStr s)]) = EmptyString).
Proof.
  assert (fst (rpcSearchQuery params graphVersion app) = Throw (Error "Missing params.q") ->
          queryOf params = EmptyString) as Hback.
  { unfold rpcSearchQuery. fold (queryOf params).
    destruct (JSString.nonEmpty (queryOf params)) eqn:Hq; simpl negb; cbv iota.
    - destruct (Number _) as [n|e] eqn:En.
      + cbv zeta. destruct (searchLoop _ _ _ _ _). simpl. discriminate.
      + simpl. intros E. inversion E; subst e. apply Number_throws in En. discriminate.
    - intros _. destruct (queryOf params); [reflexivity | discriminate]. }
  split; [|split; [exact Hback|split]].
  - split.
    + intros E. unfold rpcSearchQuery. fold (queryOf params). now rewrite E.
    + intros E. apply Hback. now rewrite E.
  - intros x Hx. unfold queryOf. simpl. destruct x; try reflexivity. now destruct (Hx s).
  - intros s Hs. unfold queryOf. simpl. exact Hs.
Qed.

(* ------------------------------------------------------------------ *)
(** ** [search.query]: limits and snippets *)

Lemma rpcSearchQuery_ok_inv `{Host} (params : JSValue) (graphVersion : JSNumber) (app : App)
    (r : SearchResponse) :
  fst (rpcSearchQuery params graphVersion app) = Ok (Search r) ->
  exists n,
    limitOf params = Ok n
    /\ r = {| response_query := queryOf params;
              response_results :=
                fst (searchLoop (queryOf params) (Math_min n (ofZ 200))
                       (getMarkdownFiles (vault app)) [] (vault app)) |}.
Proof.
  unfold rpcSearchQuery, limitOf. fold (queryOf params).
  destruct (negb _); [discriminate|].
  destruct (Number _) as [n|e]; [|discriminate].
  cbv zeta. destruct (searchLoop _ _ _ _ _) as [results v'] eqn:El. simpl.
  intros E. inversion E; subst r. exists n. split; [reflexivity|]. now rewrite El.
Qed.

Lemma limitOf_default `{Host} (params : JSValue) :
  isSupplied (get (recordOf params) "limit") = false -> limitOf params = Ok (ofZ 50).
Proof.
  unfold limitOf. destruct (get (recordOf params) "limit"); simpl; intros E;
    try discriminate; reflexivity.
Qed.

(** X3: whenever [search.query] answers, the number of results obeys the
    limit: at most 50 when no limit is supplied (absent or null), at most
    200 for every limit that converts to a number, and at most
    [max(0, min(limit, 200))] for an integral limit. *)
Theorem rpcSearchQuery_limits `{Host} (params : JSValue) (graphVersion : JSNumber)
    (app : App) (r : SearchResponse) :
  fst (rpcSearchQuery params graphVersion app) = Ok (Search r) ->
  (isSupplied (get (recordOf params) "limit") = false ->
   length (response_results r) <= 50)
  /\ (forall n, limitOf params = Ok n -> n <> NaN -> length (response_results r) <= 200)
  /\ (forall z, limitOf params = Ok (ofZ z) ->
                (Z.of_nat (length (response_results r)) <= Z.max 0 (Z.min z 200))%Z).
Proof.
  intros Hr. split; [|split].
  - intros Hd.
    pose proof (rpcSearchQuery_integral_limit params graphVersion 50 app r
                  (limitOf_default params Hd) Hr) as Hle.
    lia.
  - intros n Hn Hnan. exact (rpcSearchQuery_hard_cap params graphVersion n app r Hn Hnan Hr).
  - intros z Hz. exact (rpcSearchQuery_integral_limit params graphVersion z app r Hz Hr).
Qed.

Lemma rpcSearchQuery_limits_witness :
  exists r,
    fst (rpcSearchQuery (JObj [("q", JStr "foo")]) (ofZ 0) (appOf (notesWithFoo 60)))
    = Ok (Search r)
    /\ length (response_results r) <= 50.
Proof.
  destruct (fst (rpcSearchQuery (JObj [("q", JStr "foo")]) (ofZ 0) (appOf (notesWithFoo 60))))
    as [[| | |r|]|] eqn:E; try (vm_compute in E; discriminate).
  exists r. split; [reflexivity|].
  apply (proj1 (rpcSearchQuery_limits (JObj [("q", JStr "foo")]) (ofZ 0)
                  (appOf (notesWithFoo 60)) r E)).
  reflexivity.
Defined.

Lemma length_substring (n m : nat) (s : string) : String.length (substring n m s) <= m.
Proof.
  revert n m. induction s as [|c s IH]; intros n m.
  - destruct n, m; simpl; lia.
  - destruct n as [|n].
    + destruct m as [|m]; simpl; [lia|]. specialize (IH 0 m). lia.
    + simpl. apply IH.
Qed.

Lemma length_collapseWhiteSpace (s : string) :
  String.length (JSString.collapseWhiteSpace s) <= String.length s.
Proof.
  induction s as [|c s IH]; simpl; [lia|].
  destruct (JSString.isWhiteSpace c).
  - destruct s as [|d s']; [simpl; lia|].
    destruct (JSString.isWhiteSpace d); simpl in *; lia.
  - simpl. lia.
Qed.

Lemma hasChar_cons (c d : ascii) (r : string) :
  hasChar c (String d r) = Ascii.eqb d c || hasChar c r.
Proof. reflexivity. Qed.

Lemma collapseWhiteSpace_cons (c : ascii) (r : string) :
  JSString.collapseWhiteSpace (String c r)
  = if JSString.isWhiteSpace c then
      match r with
      | String d _ =>
          if JSString.isWhiteSpace d then JSString.collapseWhiteSpace r
          else String " " (JSString.collapseWhiteSpace r)
      | EmptyString => String " " EmptyString
      end
    else String c (JSString.collapseWhiteSpace r).
Proof. reflexivity. Qed.

Lemma collapseWhiteSpace_spaces (s : string) (c : ascii) :
  JSString.isWhiteSpace c = true -> c <> " "%char ->
  hasChar c (JSString.collapseWhiteSpace s) = false.
Proof.
  intros Hw Hc.
  assert (Ascii.eqb " " c = false) as Hsp by (apply Ascii.eqb_neq; congruence).
  induction s as [|d s IH]; [reflexivity|].
  rewrite collapseWhiteSpace_cons. destruct (JSString.isWhiteSpace d) eqn:Hd.
  - destruct s as [|d' s']; [now rewrite hasChar_cons, Hsp|].
    destruct (JSString.isWhiteSpace d'); [exact IH|].
    now rewrite hasChar_cons, Hsp, IH.
  - rewrite hasChar_cons, IH, orb_false_r.
    apply Ascii.eqb_neq. intros ->. congruence.
Qed.

Lemma snippetOf_length (content q : string) (idx : nat) :
  String.length (snippetOf content q idx) <= String.length q + 160.
Proof.
  unfold snippetOf, JSString.slice.
  etransitivity; [apply length_collapseWhiteSpace|].
  etransitivity; [apply length_substring|]. lia.
Qed.

(** X4: every snippet [search.query] returns is at most the length of the
    query plus 160 characters long, and the only white space it holds is
    the plain space (line breaks and tabs of the note are collapsed). *)
Theorem rpcSearchQuery_snippets `{Host} (params : JSValue) (graphVersion : JSNumber)
    (app : App) (r : SearchResponse) :
  fst (rpcSearchQuery params graphVersion app) = Ok (Search r) ->
  Forall (fun x =>
            String.length (result_snippet x) <= String.length (response_query r) + 160
            /\ forall c, JSString.isWhiteSpace c = true -> c <> " "%char ->
                         hasChar c (result_snippet x) = false)
         (response_results r).
Proof.
  intros Hr. destruct (rpcSearchQuery_ok_inv params graphVersion app r Hr) as (n & _ & ->).
  simpl.
  destruct (searchLoop_result (queryOf params) (Math_min n (ofZ 200))
              (getMarkdownFiles (vault app)) [] (vault app)) as (k & _ & Eq & _).
  rewrite Eq. simpl. apply Forall_forall. intros x Hx.
  apply list_elem_of_omap in Hx as (f & _ & Hf). unfold matchOf in Hf.
  destruct (JSString.indexOf _ _) as [idx|]; [|discriminate].
  inversion Hf; subst x. simpl. split.
  - apply snippetOf_length.
  - intros c Hw Hc. unfold snippetOf. now apply collapseWhiteSpace_spaces.
Qed.

Lemma rpcSearchQuery_snippets_witness :
  exists r,
    fst (rpcSearchQuery (JObj [("q", JStr "foo")]) (ofZ 0) (appOf (notesWithFoo 2)))
    = Ok (Search r)
    /\ Forall (fun x => String.length (result_snippet x) <= 3 + 160) (response_results r).
Proof.
  destruct (fst (rpcSearchQuery (JObj [("q", JStr "foo")]) (ofZ 0) (appOf (notesWithFoo 2))))
    as [[| | |r|]|] eqn:E; try (vm_compute in E; discriminate).
  exists r. split; [reflexivity|].
  pose proof (rpcSearchQuery_snippets (JObj [("q", JStr "foo")]) (ofZ 0)
                (appOf (notesWithFoo 2)) r E) as Hall.
  assert (response_query r = "foo") as Eq.
  { destruct (rpcSearchQuery_ok_inv _ _ _ _ E) as (n & _ & ->). reflexivity. }
  rewrite Eq in Hall. simpl in Hall.
  eapply Forall_impl; [exact Hall|]. intros x [Hx _]. exact Hx.
Defined.

(* ------------------------------------------------------------------ *)
(** ** [graph.getSnapshot]: the answer *)

Lemma ge_ofZ (a b : Z) : ge (ofZ a) (ofZ b) = (b <=? a)%Z.
Proof.
  unfold ge, ofZ. apply eq_true_iff_eq.
  rewrite Qle_bool_iff, <- Zle_Qle, Z.leb_le. reflexivity.
Qed.

(** X5: polling [graph.getSnapshot].  The answer is
    [{version, changed: false}] exactly when a [sinceVersion] is supplied
    (not absent, [undefined] or [null]) whose conversion [Number(...)]
    gives a number [V] with [V >= 0] and [V >= version]; it is the full
    snapshot exactly when none is supplied, or [V] fails one of the two
    comparisons (as [NaN] does); and the call fails exactly when the
    conversion throws.  So an integer [s] is told "unchanged" against the
    integer version [g] exactly when [0 <= s] and [g <= s], and so is
    anything else that converts to such a number: [true] counts as 1,
    [false] as 0, a string as the number it spells. *)
Theorem rpcGraphGetSnapshot_polling `{Host} (params : JSValue) (graphVersion : JSNumber)
    (app : App) :
  let since := get (recordOf params) "sinceVersion" in
  let answer := fst (rpcGraphGetSnapshot params graphVersion app) in
  let snapshot :=
    Ok (Snapshot graphVersion
          (map (nodeOf (metadataCache app)) (getMarkdownFiles (vault app)))
          (edgesOf (resolvedLinks (metadataCache app)))) in
  (answer = Ok (Unchanged graphVersion) <->
     isSupplied since = true
     /\ exists V, Number since = Ok V /\ ge V (ofZ 0) = true /\ ge V graphVersion = true)
  /\ (answer = snapshot <->
        isSupplied since = false
        \/ exists V, Number since = Ok V
                     /\ (ge V (ofZ 0) = false \/ ge V graphVersion = false))
  /\ (forall e, answer = Throw e <-> isSupplied since = true /\ Number since = Throw e)
  /\ (forall s g : Z, since = JNum (ofZ s) -> graphVersion = ofZ g ->
        (answer = Ok (Unchanged graphVersion) <-> (0 <= s /\ g <= s)%Z))
  /\ (forall (b : bool) (g : Z), since = JBool b -> graphVersion = ofZ g ->
        (answer = Ok (Unchanged graphVersion) <-> (g <= if b then 1 else 0)%Z))
  /\ (forall (text : string) (s g : Z),
        since = JStr text -> StringToNumber text = ofZ s -> graphVersion = ofZ g ->
        (answer = Ok (Unchanged graphVersion) <-> (0 <= s /\ g <= s)%Z))
  /\ (since = JNum NaN -> answer = snapshot).
Proof.
  cbv zeta.
  assert (forall V, Number (nullish (get (recordOf params) "sinceVersion") (JNum (ofZ (-1))))
                    = Ok V ->
            fst (rpcGraphGetSnapshot params graphVersion app)
            = if ge V (ofZ 0) && ge V graphVersion then Ok (Unchanged graphVersion)
              else Ok (Snapshot graphVersion
                         (map (nodeOf (metadataCache app)) (getMarkdownFiles (vault app)))
                         (edgesOf (resolvedLinks (metadataCache app))))) as Hok.
  { intros V EV. unfold rpcGraphGetSnapshot. rewrite EV.
    now destruct (ge V (ofZ 0) && ge V graphVersion). }
  assert (forall e, Number (nullish (get (recordOf params) "sinceVersion") (JNum (ofZ (-1))))
                    = Throw e ->
            fst (rpcGraphGetSnapshot params graphVersion app) = Throw e) as Hthrow.
  { intros e EV. unfold rpcGraphGetSnapshot. now rewrite EV. }
  assert (isSupplied (get (recordOf params) "sinceVersion") = true ->
          nullish (get (recordOf params) "sinceVersion") (JNum (ofZ (-1)))
          = get (recordOf params) "sinceVersion") as Hsup.
  { destruct (get (recordOf params) "sinceVersion"); simpl; congruence. }
  assert (isSupplied (get (recordOf params) "sinceVersion") = false ->
          fst (rpcGraphGetSnapshot params graphVersion app)
          = Ok (Snapshot graphVersion
                  (map (nodeOf (metadataCache app)) (getMarkdownFiles (vault app)))
                  (edgesOf (resolvedLinks (metadataCache app))))) as Hdefault.
  { intros E. rewrite (Hok (ofZ (-1))); [reflexivity|].
    destruct (get (recordOf params) "sinceVersion"); simpl in E |- *; congruence. }
  assert (forall V, isSupplied (get (recordOf params) "sinceVersion") = true ->
            Number (get (recordOf params) "sinceVersion") = Ok V ->
            fst (rpcGraphGetSnapshot params graphVersion app)
            = if ge V (ofZ 0) && ge V graphVersion then Ok (Unchanged graphVersion)
              else Ok (Snapshot graphVersion
                         (map (nodeOf (metadataCache app)) (getMarkdownFiles (vault app)))
                         (edgesOf (resolvedLinks (metadataCache app))))) as Hconv.
  { intros V Es EV. apply Hok. now rewrite (Hsup Es). }
  assert (forall V s g, isSupplied (get (recordOf params) "sinceVersion") = true ->
            Number (get (recordOf params) "sinceVersion") = Ok V ->
            V = ofZ s -> graphVersion = ofZ g ->
            (fst (rpcGraphGetSnapshot params graphVersion app) = Ok (Unchanged graphVersion)
             <-> (0 <= s /\ g <= s)%Z)) as Hint.
  { intros V s g Es EV -> Eg. rewrite (Hconv _ Es EV), Eg, !ge_ofZ.
    destruct (0 <=? s)%Z eqn:E0; destruct (g <=? s)%Z eqn:E1; simpl;
      rewrite ?Z.leb_le, ?Z.leb_gt in *; split; intros; try discriminate;
      try reflexivity; lia. }
  destruct (isSupplied (get (recordOf params) "sinceVersion")) eqn:Es.
  - specialize (Hsup eq_refl).
    destruct (Number (get (recordOf params) "sinceVersion")) as [V|e0] eqn:EV.
    + specialize (Hconv V eq_refl eq_refl).
      split; [|split; [|split; [|split; [|split; [|split]]]]].
      * rewrite Hconv. destruct (ge V (ofZ 0)) eqn:E0; destruct (ge V graphVersion) eqn:E1;
          simpl; split; try discriminate;
          try (intros _; split; [reflexivity|]; exists V; now auto);
          try (intros _; reflexivity);
          intros (_ & V' & HV & Ha & Hb); inversion HV; subst V'; congruence.
      * rewrite Hconv. destruct (ge V (ofZ 0)) eqn:E0; destruct (ge V graphVersion) eqn:E1;
          simpl; split; try discriminate; try (intros _; right; exists V; now auto);
          try (intros _; reflexivity).
        intros [E|(V' & HV & [E|E])]; [discriminate | |]; inversion HV; subst V'; congruence.
      * intros e. rewrite Hconv. destruct (ge V (ofZ 0) && ge V graphVersion);
          split; try discriminate; intros [_ E]; discriminate.
      * intros s g Esince Eg. apply (Hint V s g eq_refl eq_refl); [|exact Eg].
        rewrite Esince in EV. simpl in EV. congruence.
      * intros b g Esince Eg. rewrite Esince in EV.
        destruct b; simpl in EV; inversion EV; subst V.
        -- etransitivity; [apply (Hint (ofZ 1) 1%Z g eq_refl eq_refl eq_refl Eg)|].
           split; lia.
        -- etransitivity; [apply (Hint (ofZ 0) 0%Z g eq_refl eq_refl eq_refl Eg)|].
           split; lia.
      * intros text s g Esince Et Eg. apply (Hint V s g eq_refl eq_refl); [|exact Eg].
        rewrite Esince in EV. simpl in EV. congruence.
      * intros Esince. rewrite Esince in EV. simpl in EV. inversion EV; subst V.
        rewrite Hconv. reflexivity.
    + assert (fst (rpcGraphGetSnapshot params graphVersion app) = Throw e0) as Hf.
      { apply Hthrow. now rewrite Hsup. }
      split; [|split; [|split; [|split; [|split; [|split]]]]].
      * rewrite Hf. split; [discriminate|]. intros (_ & V & E & _). discriminate.
      * rewrite Hf. split; [discriminate|].
        intros [E|(V & E & _)]; discriminate.
      * intros e. rewrite Hf. split.
        -- intros [= <-]. now split.
        -- intros [_ [= <-]]. reflexivity.
      * intros s g Esince. rewrite Esince in EV. discriminate.
      * intros b g Esince. rewrite Esince in EV. destruct b; discriminate.
      * intros text s g Esince. rewrite Esince in EV. discriminate.
      * intros Esince. rewrite Esince in EV. discriminate.
  - specialize (Hdefault eq_refl).
    split; [|split; [|split; [|split; [|split; [|split]]]]].
    + rewrite Hdefault. split; [discriminate|]. intros [E _]. discriminate.
    + rewrite Hdefault. split; [now left | reflexivity].
    + intros e. rewrite Hdefault. split; [discriminate|]. intros [E _]. discriminate.
    + intros s g Esince. rewrite Esince in Es. discriminate.
    + intros b g Esince. rewrite Esince in Es. discriminate.
    + intros text s g Esince. rewrite Esince in Es. discriminate.
    + intros Esince. rewrite Esince in Es. discriminate.
Qed.

Lemma elem_of_edgesOf (links : list (string * list (string * Z))) (e : GraphEdge) :
  e ∈ edgesOf (Some links) <->
  exists targets, (edge_source e, targets) ∈ links
                  /\ (edge_target e, edge_count e) ∈ targets.
Proof.
  unfold edgesOf. rewrite list_elem_of_In, in_flat_map. split.
  - intros ([s targets] & Hin & He). apply in_map_iff in He as ([t c] & <- & Ht).
    simpl in *. exists targets. split; now apply list_elem_of_In.
  - intros (targets & Hs & Ht). exists (edge_source e, targets).
    split; [now apply list_elem_of_In|]. apply in_map_iff.
    exists (edge_target e, edge_count e). simpl.
    split; [now destruct e | now apply list_elem_of_In].
Qed.

Lemma length_edgesOf (links : list (string * list (string * Z))) :
  length (edgesOf (Some links)) = list_sum (map (fun st => length (snd st)) links).
Proof.
  unfold edgesOf. induction links as [|[s targets] links IH]; simpl; [reflexivity|].
  now rewrite length_app, length_map, IH.
Qed.

(** X6: a snapshot returned by [graph.getSnapshot] carries the current
    version; it has one node per markdown file of the vault, in vault
    order, whose id and path are the file's path, whose title is its
    basename and whose tags hold no duplicate; and its edges are exactly
    the (source, target, count) entries of the resolved links, none when
    the cache has no link table. *)
Theorem rpcGraphGetSnapshot_snapshot `{Host} (params : JSValue) (graphVersion v : JSNumber)
    (app : App) (nodes : list GraphNode) (edges : list GraphEdge) :
  fst (rpcGraphGetSnapshot params graphVersion app) = Ok (Snapshot v nodes edges) ->
  v = graphVersion
  /\ map node_path nodes = map path (getMarkdownFiles (vault app))
  /\ map node_title nodes = map basename (getMarkdownFiles (vault app))
  /\ Forall (fun n => node_id n = node_path n /\ NoDup (node_tags n)) nodes
  /\ (forall e, e ∈ edges <->
        exists links targets,
          resolvedLinks (metadataCache app) = Some links
          /\ (edge_source e, targets) ∈ links
          /\ (edge_target e, edge_count e) ∈ targets)
  /\ length edges
     = match resolvedLinks (metadataCache app) with
       | Some links => list_sum (map (fun st => length (snd st)) links)
       | None => 0
       end.
Proof.
  unfold rpcGraphGetSnapshot. destruct (Number _) as [V|e]; [|discriminate].
  destruct (ge V (ofZ 0) && ge V graphVersion); [discriminate|]. simpl.
  intros E. inversion E; subst v nodes edges. clear E.
  split; [reflexivity|].
  split; [rewrite map_map; reflexivity|].
  split; [rewrite map_map; reflexivity|].
  split.
  { apply Forall_forall. intros n Hn. apply list_elem_of_In, in_map_iff in Hn as (f & <- & _).
    split; [reflexivity | apply tagsOf_NoDup]. }
  destruct (resolvedLinks (metadataCache app)) as [links|].
  - split; [|apply length_edgesOf].
    intros e. rewrite elem_of_edgesOf. split.
    + intros (targets & Hs & Ht). now exists links, targets.
    + intros (links' & targets & El & Hs & Ht). inversion El; subst. now exists targets.
  - split; [|reflexivity]. intros e. split.
    + intros Hin. inversion Hin.
    + intros (links & targets & El & _). discriminate.
Qed.

Lemma rpcGraphGetSnapshot_snapshot_witness :
  exists nodes edges,
    fst (rpcGraphGetSnapshot (JObj [("sinceVersion", JNum (ofZ 2))]) (ofZ 3) linkedApp)
    = Ok (Snapshot (ofZ 3) nodes edges)
    /\ map node_path nodes = ["a.md"; "b.md"]
    /\ length edges = 1.
Proof.
  destruct (fst (rpcGraphGetSnapshot (JObj [("sinceVersion", JNum (ofZ 2))]) (ofZ 3) linkedApp))
    as [[|v nodes edges| | |]|] eqn:E; try (vm_compute in E; discriminate).
  destruct (rpcGraphGetSnapshot_snapshot (JObj [("sinceVersion", JNum (ofZ 2))]) (ofZ 3) v
              linkedApp nodes edges E) as (-> & Hp & _ & _ & _ & Hl).
  exists nodes, edges. split; [reflexivity|]. split; [exact Hp | exact Hl].
Defined.

(* ------------------------------------------------------------------ *)
(** ** The three reading methods change no file *)

Lemma searchLoop_reads (q : string) (limit : JSNumber) (files : list TFile)
    (results : list SearchResult) (v : Vault) :
  exists read, snd (searchLoop q limit files results v) = withReads v read.
Proof.
  destruct (searchLoop_result q limit files results v) as (k & _ & Eq & _).
  exists (take k files). now rewrite Eq.
Qed.

(** X7: [graph.getSnapshot], [note.getPreview] and [search.query] never
    write: whatever the params and whether they answer or fail, the vault
    holds the same entries, the same texts and the same clock afterwards,
    the metadata cache is the same, and all the journal gained is reads
    (none at all for [graph.getSnapshot]). *)
Theorem readers_change_no_file `{Host} (params : JSValue) (graphVersion : JSNumber)
    (app : App) :
  snd (rpcGraphGetSnapshot params graphVersion app) = app
  /\ sameFiles app (snd (rpcNoteGetPreview params graphVersion app))
  /\ onlyReads app (snd (rpcNoteGetPreview params graphVersion app))
  /\ sameFiles app (snd (rpcSearchQuery params graphVersion app))
  /\ onlyReads app (snd (rpcSearchQuery params graphVersion app)).
Proof.
  assert (forall read, sameFiles app (withVault app (withReads (vault app) read))
                       /\ onlyReads app (withVault app (withReads (vault app) read))) as Hreads.
  { intros read. split; [repeat split | now exists read]. }
  assert (sameFiles app app /\ onlyReads app app) as Hsame.
  { split; [repeat split | exists []; simpl; now rewrite app_nil_r]. }
  split; [|split; [|split; [|split]]].
  - unfold rpcGraphGetSnapshot. destruct (Number _); [|reflexivity].
    now destruct (ge _ _ && ge _ _).
  - unfold rpcNoteGetPreview. destruct (negb _); [apply Hsame|].
    destruct (getAbstractFileByPath _ _) as [[f|d|o]|];
      first [apply (Hreads [f]) | apply Hsame].
  - unfold rpcNoteGetPreview. destruct (negb _); [apply Hsame|].
    destruct (getAbstractFileByPath _ _) as [[f|d|o]|];
      first [apply (Hreads [f]) | apply Hsame].
  - unfold rpcSearchQuery. destruct (negb _); [apply Hsame|].
    destruct (Number _) as [n|e]; [|apply Hsame]. cbv zeta.
    match goal with
    | |- context [searchLoop ?q ?l ?fs ?rs ?v] =>
        destruct (searchLoop_reads q l fs rs v) as [read Er];
        destruct (searchLoop q l fs rs v) as [results v']
    end.
    simpl in Er. subst v'. apply Hreads.
  - unfold rpcSearchQuery. destruct (negb _); [apply Hsame|].
    destruct (Number _) as [n|e]; [|apply Hsame]. cbv zeta.
    match goal with
    | |- context [searchLoop ?q ?l ?fs ?rs ?v] =>
        destruct (searchLoop_reads q l fs rs v) as [read Er];
        destruct (searchLoop q l fs rs v) as [results v']
    end.
    simpl in Er. subst v'. apply Hreads.
Qed.

(* ------------------------------------------------------------------ *)
(** ** [ensureFolderPath] and [note.create]: every outcome *)

(** Whatever the loop meets, all it does to the vault is to create folders
    that were missing, each one of the prefixes; when it succeeds every
    prefix was missing or a folder, and is a folder afterwards; when it
    fails, a prefix was there and no folder. *)
Lemma ensureLoop_folders (segments : list string) (current : string) (v : Vault) :
  exists created,
    snd (ensureLoop segments current v) = withFolders v created
    /\ Forall (fun p => p ∈ prefixesFrom current segments /\ missingIn v p = true) created
    /\ (isOk (fst (ensureLoop segments current v)) = true ->
        forall p, p ∈ prefixesFrom current segments ->
          (getAbstractFileByPath v p = None
           \/ exists d, getAbstractFileByPath v p = Some (AFolder d))
          /\ exists d, getAbstractFileByPath (withFolders v created) p = Some (AFolder d))
    /\ (forall e, fst (ensureLoop segments current v) = Throw e ->
        exists p x, p ∈ prefixesFrom current segments
                    /\ getAbstractFileByPath v p = Some x
                    /\ (forall d, x <> AFolder d)
                    /\ e = Error ("Path segment is not a folder: " +:+ p)).
Proof.
  revert current v. induction segments as [|segment rest IH]; intros current v.
  - exists []. simpl. rewrite withFolders_nil. split; [reflexivity|].
    split; [constructor|]. split; [|discriminate]. intros _ p Hp. inversion Hp.
  - rewrite ensureLoop_cons. cbv zeta. simpl prefixesFrom.
    set (c := if JSString.nonEmpty current then current +:+ "/" +:+ segment else segment) in *.
    destruct (getAbstractFileByPath v c) as [[f|d|o]|] eqn:Hc.
    + exists []. simpl. rewrite withFolders_nil. split; [reflexivity|].
      split; [constructor|]. split; [discriminate|].
      intros e E. inversion E. exists c, (AFile f).
      split; [apply elem_of_cons; now left|]. split; [exact Hc|]. split; [discriminate|reflexivity].
    + destruct (IH c v) as (created & Es & Hall & Hok & Hthrow). exists created.
      split; [exact Es|]. split; [|split].
      * eapply Forall_impl; [exact Hall|]. intros p [Hp Hm].
        split; [apply elem_of_cons; now right | exact Hm].
      * intros Hisok p Hp. apply elem_of_cons in Hp as [->|Hp].
        -- split; [right; eauto|]. rewrite lookup_withFolders, Hc. eauto.
        -- now apply Hok.
      * intros e E. destruct (Hthrow e E) as (p & x & Hp & Hrest).
        exists p, x. split; [apply elem_of_cons; now right | exact Hrest].
    + exists []. simpl. rewrite withFolders_nil. split; [reflexivity|].
      split; [constructor|]. split; [discriminate|].
      intros e E. inversion E. exists c, (AOther o).
      split; [apply elem_of_cons; now left|]. split; [exact Hc|]. split; [discriminate|reflexivity].
    + rewrite (createFolder_missing c v Hc). cbv iota beta.
      destruct (IH c (withFolders v [c])) as (created & Es & Hall & Hok & Hthrow).
      exists (c :: created). split; [now rewrite Es, withFolders_cons|]. split; [|split].
      * constructor.
        { split; [apply elem_of_cons; now left | unfold missingIn; now rewrite Hc]. }
        eapply Forall_impl; [exact Hall|]. intros p [Hp Hm].
        split; [apply elem_of_cons; now right|].
        unfold missingIn in *. rewrite lookup_withFolders in Hm.
        destruct (getAbstractFileByPath v p); [simpl in Hm; discriminate | reflexivity].
      * intros Hisok p Hp. apply elem_of_cons in Hp as [->|Hp].
        -- split; [now left|]. rewrite lookup_withFolders, Hc.
           rewrite bool_decide_eq_true_2; [eauto | apply elem_of_cons; now left].
        -- destruct (Hok Hisok p Hp) as [Hpre Hpost]. rewrite withFolders_cons in Hpost.
           split; [|exact Hpost].
           rewrite lookup_withFolders in Hpre.
           destruct (getAbstractFileByPath v p) as [x|]; [|now left].
           right. destruct Hpre as [Hn|[d Hd]]; [discriminate|]. inversion Hd. eauto.
      * intros e E. destruct (Hthrow e E) as (p & x & Hp & Hx & Hnf & He).
        exists p, x. split; [apply elem_of_cons; now right|].
        split; [|split; assumption].
        rewrite lookup_withFolders in Hx.
        destruct (getAbstractFileByPath v p) as [y|]; [exact Hx|].
        destruct (bool_decide (p ∈ [c])); [|discriminate].
        inversion Hx; subst x. exfalso. now apply (Hnf p).
Qed.

Lemma filter_missing_nil (v : Vault) (l : list string) :
  (forall p, p ∈ l -> exists d, getAbstractFileByPath v p = Some (AFolder d)) ->
  List.filter (missingIn v) l = [].
Proof.
  induction l as [|p l IH]; intros Hall; simpl; [reflexivity|].
  destruct (Hall p) as [d Hd]; [apply elem_of_cons; now left|].
  unfold missingIn at 1. rewrite Hd. apply IH. intros q Hq. apply Hall.
  apply elem_of_cons. now right.
Qed.

(** X8: when [ensureFolderPath] succeeds, every folder on the way (each
    prefix of the path's non-empty segments) is a folder afterwards,
    whatever was in the vault before is still there, and a second call for
    the same path succeeds and does nothing. *)
Theorem ensureFolderPath_idempotent (folderPath : string) (v : Vault) :
  fst (ensureFolderPath folderPath v) = Ok tt ->
  let v1 := snd (ensureFolderPath folderPath v) in
  (forall p, p ∈ prefixesFrom EmptyString
                   (List.filter JSString.nonEmpty (JSString.split slash folderPath)) ->
             exists d, getAbstractFileByPath v1 p = Some (AFolder d))
  /\ (forall k x, getAbstractFileByPath v k = Some x -> getAbstractFileByPath v1 k = Some x)
  /\ ensureFolderPath folderPath v1 = (Ok tt, v1).
Proof.
  unfold ensureFolderPath. cbv zeta.
  set (segments := List.filter JSString.nonEmpty (JSString.split slash folderPath)).
  intros E.
  destruct (ensureLoop_folders segments EmptyString v) as (created & Es & _ & Hok & _).
  rewrite E in Hok. specialize (Hok eq_refl). rewrite Es.
  assert (forall p, p ∈ prefixesFrom EmptyString segments ->
                    exists d, getAbstractFileByPath (withFolders v created) p = Some (AFolder d))
    as Hfolders by (intros p Hp; apply (Hok p Hp)).
  split; [exact Hfolders|]. split.
  - intros k x Hk. now rewrite lookup_withFolders, Hk.
  - rewrite (ensureLoop_creates_missing segments EmptyString (withFolders v created)).
    + rewrite (filter_missing_nil _ _ Hfolders). now rewrite withFolders_nil.
    + apply prefixesFrom_NoDup, filter_nonEmpty_Forall.
    + intros p Hp. right. now apply Hfolders.
Qed.

Lemma ensureFolderPath_idempotent_witness :
  fst (ensureFolderPath "a//b/" emptyVault) = Ok tt
  /\ journal (snd (ensureFolderPath "a//b/" emptyVault)) = [OpCreateFolder "a"; OpCreateFolder "a/b"]
  /\ ensureFolderPath "a//b/" (snd (ensureFolderPath "a//b/" emptyVault))
     = (Ok tt, snd (ensureFolderPath "a//b/" emptyVault)).
Proof.
  assert (fst (ensureFolderPath "a//b/" emptyVault) = Ok tt) as E by reflexivity.
  split; [exact E|]. split; [reflexivity|].
  exact (proj2 (proj2 (ensureFolderPath_idempotent "a//b/" emptyVault E))).
Defined.

Lemma rpcNoteCreate_unchecked `{Host} (params : JSValue) (graphVersion : JSNumber) (app : App) :
  (rawPathOf params = EmptyString ->
   rpcNoteCreate params graphVersion app = (Throw (Error "Missing params.path"), app))
  /\ (rawPathOf params <> EmptyString -> headingOf params = EmptyString ->
      rpcNoteCreate params graphVersion app = (Throw (Error "Missing params.heading"), app))
  /\ (rawPathOf params <> EmptyString -> headingOf params <> EmptyString ->
      JSString.endsWith (JSString.toLowerCase (normalizePath (rawPathOf params))) ".md" = false ->
      rpcNoteCreate params graphVersion app
      = (Throw (Error "params.path must end with .md"), app)).
Proof.
  unfold rpcNoteCreate. fold (rawPathOf params) (headingOf params) (bodyOf params).
  split; [|split].
  - intros ->. reflexivity.
  - intros Hp ->. apply nonEmpty_true in Hp. rewrite Hp. reflexivity.
  - intros Hp Hh He. apply nonEmpty_true in Hp, Hh. rewrite Hp, Hh, He. reflexivity.
Qed.

Lemma trim_only_white (s : string) :
  Forall (fun c => JSString.isWhiteSpace c = true) (list_ascii_of_string s) ->
  JSString.trim s = EmptyString.
Proof.
  unfold JSString.trim. induction s as [|c s IH]; intros Hall; [reflexivity|].
  inversion Hall as [|? ? Hc Hs]; subst. simpl JSString.trimStart. rewrite Hc. now apply IH.
Qed.

(** X9: [note.create] checks its params before it touches the vault, in
    this order: a [path] that is missing, no string, empty or white space
    only fails with "Missing params.path"; then a [heading] that is missing,
    no string, empty or white space only fails with "Missing
    params.heading"; then a normalised path that does not end in [.md]
    (in any letter case) fails with "params.path must end with .md".  In
    each case the application is left as it was. *)
Theorem rpcNoteCreate_invalid_params `{Host} (params : JSValue) (graphVersion : JSNumber)
    (app : App) :
  let path := get (recordOf params) "path" in
  let heading := get (recordOf params) "heading" in
  let missing := fun v : JSValue =>
    (forall s, v <> JStr s)
    \/ exists s, v = JStr s
                 /\ Forall (fun c => JSString.isWhiteSpace c = true) (list_ascii_of_string s) in
  (missing path ->
   rpcNoteCreate params graphVersion app = (Throw (Error "Missing params.path"), app))
  /\ (rawPathOf params <> EmptyString -> missing heading ->
      rpcNoteCreate params graphVersion app = (Throw (Error "Missing params.heading"), app))
  /\ (rawPathOf params <> EmptyString -> headingOf params <> EmptyString ->
      JSString.endsWith (JSString.toLowerCase (normalizePath (rawPathOf params))) ".md" = false ->
      rpcNoteCreate params graphVersion app
      = (Throw (Error "params.path must end with .md"), app)).
Proof.
  cbv zeta.
  assert (forall v, ((forall s, v <> JStr s)
                     \/ exists s, v = JStr s
                          /\ Forall (fun c => JSString.isWhiteSpace c = true)
                               (list_ascii_of_string s)) ->
                    stringOr v JSString.trim = EmptyString) as Hmissing.
  { intros v [Hns|(s & -> & Hs)].
    - destruct v; try reflexivity. now destruct (Hns s).
    - simpl. now apply trim_only_white. }
  destruct (rpcNoteCreate_unchecked params graphVersion app) as (H1 & H2 & H3).
  split; [|split].
  - intros Hm. apply H1. unfold rawPathOf. now apply Hmissing.
  - intros Hp Hm. apply (H2 Hp). unfold headingOf. now apply Hmissing.
  - exact H3.
Qed.

Lemma map_OpCreateFolder_inj (l m : list string) :
  map OpCreateFolder l = map OpCreateFolder m -> l = m.
Proof.
  revert m. induction l as [|x l IH]; intros [|y m] E; try discriminate; [reflexivity|].
  simpl in E. inversion E. f_equal. now apply IH.
Qed.

Lemma getMarkdownFiles_withFolders (v : Vault) (created : list string) :
  getMarkdownFiles (withFolders v created) = getMarkdownFiles v.
Proof.
  unfold getMarkdownFiles, withFolders. simpl. rewrite flat_map_app.
  assert (flat_map (fun e : string * TAbstractFile =>
                      match snd e with
                      | AFile f => if String.eqb (extension f) "md" then [f] else []
                      | _ => []
                      end) (map (fun p => (p, AFolder p)) created) = []) as ->.
  { induction created as [|c created IH]; simpl; [reflexivity | exact IH]. }
  now rewrite app_nil_r.
Qed.

(** X10: every failure of [note.create], and what it leaves behind.  A call
    that fails has written no file: all it may have done to the vault is to
    create intermediate folders of the path that were missing.  It fails
    for one of these reasons only: the path, the heading or the [.md]
    ending is missing; a file, or something that is neither file nor
    folder, is at the path; an intermediate folder exists and is no folder;
    or a folder is at the path itself, in which case the missing
    intermediate folders are created before the vault refuses the file. *)
Theorem rpcNoteCreate_failure `{Host} (params : JSValue) (graphVersion : JSNumber)
    (app : App) (e : JSError) :
  fst (rpcNoteCreate params graphVersion app) = Throw e ->
  let path := normalizePath (rawPathOf params) in
  let after := snd (rpcNoteCreate params graphVersion app) in
  exists created,
    after = withVault app (withFolders (vault app) created)
    /\ Forall (fun p => p ∈ intermediateFolders path /\ missingIn (vault app) p = true) created
    /\ getMarkdownFiles (vault after) = getMarkdownFiles (vault app)
    /\ contents (vault after) = contents (vault app)
    /\ ((rawPathOf params = EmptyString /\ e = Error "Missing params.path" /\ created = [])
        \/ (headingOf params = EmptyString /\ e = Error "Missing params.heading" /\ created = [])
        \/ (JSString.endsWith (JSString.toLowerCase path) ".md" = false
            /\ e = Error "params.path must end with .md" /\ created = [])
        \/ (exists f, getAbstractFileByPath (vault app) path = Some (AFile f)
                      /\ e = Error ("File already exists: " +:+ path) /\ created = [])
        \/ (exists o, getAbstractFileByPath (vault app) path = Some (AOther o)
                      /\ e = Error ("Path already exists and is not a markdown file: " +:+ path)
                      /\ created = [])
        \/ (exists p x, p ∈ intermediateFolders path
                        /\ getAbstractFileByPath (vault app) p = Some x
                        /\ (forall d, x <> AFolder d)
                        /\ e = Error ("Path segment is not a folder: " +:+ p))
        \/ (exists d, getAbstractFileByPath (vault app) path = Some (AFolder d)
                      /\ created = List.filter (missingIn (vault app)) (intermediateFolders path)
                      /\ fst (create path (noteContent (headingOf params) (bodyOf params))
                                (withFolders (vault app) created)) = Throw e)).
Proof.
  cbv zeta. set (path := normalizePath (rawPathOf params)).
  assert (forall created r,
            rpcNoteCreate params graphVersion app
            = (r, withVault app (withFolders (vault app) created)) ->
            snd (rpcNoteCreate params graphVersion app)
            = withVault app (withFolders (vault app) created)
            /\ getMarkdownFiles (vault (snd (rpcNoteCreate params graphVersion app)))
               = getMarkdownFiles (vault app)
            /\ contents (vault (snd (rpcNoteCreate params graphVersion app)))
               = contents (vault app)) as Hafter.
  { intros created r ->. split; [reflexivity|]. split; [|reflexivity].
    apply getMarkdownFiles_withFolders. }
  assert (forall r, rpcNoteCreate params graphVersion app = (Throw r, app) ->
            fst (rpcNoteCreate params graphVersion app) = Throw e ->
            r = e
            /\ snd (rpcNoteCreate params graphVersion app)
               = withVault app (withFolders (vault app) [])
            /\ getMarkdownFiles (vault (snd (rpcNoteCreate params graphVersion app)))
               = getMarkdownFiles (vault app)
            /\ contents (vault (snd (rpcNoteCreate params graphVersion app)))
               = contents (vault app)) as Hsame.
  { intros r Er E. split; [rewrite Er in E; now inversion E|].
    apply (Hafter [] (Throw r)). now rewrite withFolders_nil, withVault_same. }
  destruct (rpcNoteCreate_unchecked params graphVersion app) as (H1 & H2 & H3).
  fold path in H3. intros E.
  destruct (decide (rawPathOf params = EmptyString)) as [Hp|Hp].
  { destruct (Hsame _ (H1 Hp) E) as (<- & Hs & Hm & Hc). exists [].
    split; [exact Hs|]. split; [constructor|]. split; [exact Hm|]. split; [exact Hc|].
    left. auto. }
  destruct (decide (headingOf params = EmptyString)) as [Hh|Hh].
  { destruct (Hsame _ (H2 Hp Hh) E) as (<- & Hs & Hm & Hc). exists [].
    split; [exact Hs|]. split; [constructor|]. split; [exact Hm|]. split; [exact Hc|].
    right; left. auto. }
  destruct (JSString.endsWith (JSString.toLowerCase path) ".md") eqn:He.
  2: { destruct (Hsame _ (H3 Hp Hh eq_refl) E) as (<- & Hs & Hm & Hc). exists [].
       split; [exact Hs|]. split; [constructor|]. split; [exact Hm|]. split; [exact Hc|].
       right; right; left. auto. }
  pose proof (rpcNoteCreate_checked params graphVersion app Hp Hh He) as Echecked.
  cbv zeta in Echecked. fold path in Echecked.
  set (segments := List.filter JSString.nonEmpty (removelast (JSString.split slash path))) in *.
  destruct (ensureLoop_folders segments EmptyString (vault app))
    as (created & Es & Hall & Hok & Hthrow).
  fold (intermediateFolders path) in Hall, Hok, Hthrow.
  assert (path ∉ created) as Hnot.
  { intros Hin. rewrite Forall_forall in Hall. destruct (Hall path Hin) as [Hi _].
    apply intermediateFolders_shorter in Hi. lia. }
  assert (forall x, getAbstractFileByPath (vault app) path = x ->
            match x with Some (AFile _) | Some (AOther _) => False | _ => True end ->
            rpcNoteCreate params graphVersion app
            = match ensureLoop segments EmptyString (vault app) with
              | (Throw e, v1) => (Throw e, withVault app v1)
              | (Ok _, v1) =>
                  match create path (noteContent (headingOf params) (bodyOf params)) v1 with
                  | (Throw e, v2) => (Throw e, withVault app v2)
                  | (Ok file, v2) =>
                      (Ok (Created {| created_path := Obsidian.path file;
                                      created_title := basename file;
                                      created_mtime := mtimeOf file |}),
                       withVault app v2)
                  end
              end) as Hrun.
  { intros x Ex Hx. rewrite Echecked, Ex. destruct x as [[f|d|o]|]; tauto. }
  destruct (getAbstractFileByPath (vault app) path) as [[f|d|o]|] eqn:Hlook.
  - destruct (Hsame _ Echecked E) as (<- & Hs & Hm & Hc). exists [].
    split; [exact Hs|]. split; [constructor|]. split; [exact Hm|]. split; [exact Hc|].
    do 3 right. left. eauto.
  - specialize (Hrun _ eq_refl I).
    destruct (ensureLoop segments EmptyString (vault app)) as [[u|e1] v1] eqn:Eloop;
      simpl in Es; subst v1.
    + assert (getAbstractFileByPath (withFolders (vault app) created) path = Some (AFolder d))
        as Hv1 by now rewrite lookup_withFolders, Hlook.
      unfold create in Hrun at 1. rewrite Hv1 in Hrun.
      rewrite Hrun in E. simpl in E. inversion E; subst e.
      destruct (Hafter created _ Hrun) as (Hs & Hm & Hc).
      exists created. split; [exact Hs|]. split; [exact Hall|]. split; [exact Hm|].
      split; [exact Hc|]. do 6 right. exists d. split; [reflexivity|]. split.
      * specialize (Hok eq_refl).
        pose proof (ensureLoop_creates_missing segments EmptyString (vault app)
                      (intermediateFolders_NoDup path) (fun p Hp' => proj1 (Hok p Hp'))) as Eagain.
        rewrite Eloop in Eagain. apply (f_equal snd) in Eagain. simpl in Eagain.
        fold (intermediateFolders path) in Eagain.
        apply (f_equal journal) in Eagain. simpl in Eagain.
        apply app_inv_head in Eagain. now apply map_OpCreateFolder_inj.
      * unfold create. now rewrite Hv1.
    + rewrite Hrun in E. simpl in E. inversion E; subst e1.
      destruct (Hafter created _ Hrun) as (Hs & Hm & Hc).
      exists created. split; [exact Hs|]. split; [exact Hall|]. split; [exact Hm|].
      split; [exact Hc|]. do 5 right. left.
      destruct (Hthrow e eq_refl) as (p & x & Hin & Hx & Hnf & ->). exists p, x. auto.
  - destruct (Hsame _ Echecked E) as (<- & Hs & Hm & Hc). exists [].
    split; [exact Hs|]. split; [constructor|]. split; [exact Hm|]. split; [exact Hc|].
    do 4 right. left. eauto.
  - specialize (Hrun _ eq_refl I).
    destruct (ensureLoop segments EmptyString (vault app)) as [[u|e1] v1] eqn:Eloop;
      simpl in Es; subst v1.
    + assert (getAbstractFileByPath (withFolders (vault app) created) path = None) as Hv1.
      { rewrite lookup_withFolders, Hlook. now rewrite bool_decide_eq_false_2. }
      unfold create in Hrun. rewrite Hv1 in Hrun. rewrite Hrun in E. discriminate.
    + rewrite Hrun in E. simpl in E. inversion E; subst e1.
      destruct (Hafter created _ Hrun) as (Hs & Hm & Hc).
      exists created. split; [exact Hs|]. split; [exact Hall|]. split; [exact Hm|].
      split; [exact Hc|]. do 5 right. left.
      destruct (Hthrow e eq_refl) as (p & x & Hin & Hx & Hnf & ->). exists p, x. auto.
Qed.

Lemma rpcNoteCreate_failure_witness :
  fst (rpcNoteCreate spacedNote (ofZ 0) blockedApp)
  = Throw (Error "Path segment is not a folder: a/b")
  /\ journal (vault (snd (rpcNoteCreate spacedNote (ofZ 0) blockedApp))) = [OpCreateFolder "a"]
  /\ getMarkdownFiles (vault (snd (rpcNoteCreate spacedNote (ofZ 0) blockedApp)))
     = getMarkdownFiles (vault blockedApp).
Proof.
  assert (fst (rpcNoteCreate spacedNote (ofZ 0) blockedApp)
          = Throw (Error "Path segment is not a folder: a/b")) as E by reflexivity.
  split; [exact E|]. split; [reflexivity|].
  destruct (rpcNoteCreate_failure spacedNote (ofZ 0) blockedApp _ E)
    as (created & _ & _ & Hm & _).
  exact Hm.
Defined.

(** A call that answers has passed every check and found every
    intermediate folder missing or a folder; the vault it leaves is the one
    after the folders and the file were created. *)
Lemma rpcNoteCreate_ok_inv `{Host} (params : JSValue) (graphVersion : JSNumber)
    (app : App) (r : RpcResult) :
  fst (rpcNoteCreate params graphVersion app) = Ok r ->
  let path := normalizePath (rawPathOf params) in
  let content := noteContent (headingOf params) (bodyOf params) in
  let file := {| Obsidian.path := path; basename := basenameOf path;
                 extension := extensionOf path;
                 stat := Some {| mtime := clock (vault app) |} |} in
  rawPathOf params <> EmptyString
  /\ headingOf params <> EmptyString
  /\ JSString.endsWith (JSString.toLowerCase path) ".md" = true
  /\ getAbstractFileByPath (vault app) path = None
  /\ (forall p, p ∈ intermediateFolders path ->
                getAbstractFileByPath (vault app) p = None
                \/ exists d, getAbstractFileByPath (vault app) p = Some (AFolder d))
  /\ r = Created {| created_path := path; created_title := basenameOf path;
                    created_mtime := clock (vault app) |}
  /\ exists created,
       getAbstractFileByPath (withFolders (vault app) created) path = None
       /\ snd (rpcNoteCreate params graphVersion app)
          = withVault app
              {| fileMap := fileMap (withFolders (vault app) created) ++ [(path, AFile file)];
                 contents := (path, content) :: contents (vault app);
                 clock := clock (vault app);
                 journal := journal (withFolders (vault app) created)
                            ++ [OpCreate path content] |}.
Proof.
  cbv zeta. set (path := normalizePath (rawPathOf params)). intros E.
  destruct (rpcNoteCreate_unchecked params graphVersion app) as (H1 & H2 & H3).
  fold path in H3.
  destruct (decide (rawPathOf params = EmptyString)) as [Hp|Hp];
    [rewrite (H1 Hp) in E; discriminate|].
  destruct (decide (headingOf params = EmptyString)) as [Hh|Hh];
    [rewrite (H2 Hp Hh) in E; discriminate|].
  destruct (JSString.endsWith (JSString.toLowerCase path) ".md") eqn:He;
    [|rewrite (H3 Hp Hh eq_refl) in E; discriminate].
  split; [exact Hp|]. split; [exact Hh|]. split; [reflexivity|].
  rewrite (rpcNoteCreate_checked params graphVersion app Hp Hh He) in E |- *.
  cbv zeta in E |- *. fold path in E |- *.
  set (segments := List.filter JSString.nonEmpty (removelast (JSString.split slash path))) in *.
  destruct (ensureLoop_folders segments EmptyString (vault app))
    as (created & Es & Hall & Hok & _).
  fold (intermediateFolders path) in Hall, Hok.
  assert (forall x, getAbstractFileByPath (vault app) path = x ->
            getAbstractFileByPath (withFolders (vault app) created) path = None -> x = None)
    as Hfree.
  { intros x <-. rewrite lookup_withFolders.
    destruct (getAbstractFileByPath (vault app) path); [discriminate | reflexivity]. }
  destruct (getAbstractFileByPath (vault app) path) as [[f|d|o]|] eqn:Hlook;
    try (simpl in E; discriminate).
  - destruct (ensureLoop segments EmptyString (vault app)) as [[u|e1] v1] eqn:Eloop;
      [|simpl in E; discriminate].
    simpl in Es; subst v1. unfold create in E.
    destruct (getAbstractFileByPath (withFolders (vault app) created) path) eqn:Hv1;
      [simpl in E; discriminate|].
    specialize (Hfree _ eq_refl eq_refl). discriminate.
  - destruct (ensureLoop segments EmptyString (vault app)) as [[u|e1] v1] eqn:Eloop;
      [|simpl in E; discriminate].
    simpl in Es; subst v1. unfold create in E |- *.
    destruct (getAbstractFileByPath (withFolders (vault app) created) path) eqn:Hv1;
      [simpl in E; discriminate|].
    split; [reflexivity|]. split; [intros p Hp'; apply (Hok eq_refl p Hp')|].
    split; [simpl in E; inversion E; reflexivity|].
    exists created. split; [exact Hv1 | reflexivity].
Qed.

(** X11: [note.create] succeeds only for a call that is in order.  When it
    answers, the trimmed path and heading were not empty, the normalised
    path ends in [.md], nothing was at that path, and every intermediate
    folder was missing or a folder; the answer names the normalised path,
    its base name as title, and the vault's clock as mtime. *)
Theorem rpcNoteCreate_success_only_if `{Host} (params : JSValue) (graphVersion : JSNumber)
    (app : App) (r : RpcResult) :
  fst (rpcNoteCreate params graphVersion app) = Ok r ->
  let path := normalizePath (rawPathOf params) in
  rawPathOf params <> EmptyString
  /\ headingOf params <> EmptyString
  /\ JSString.endsWith (JSString.toLowerCase path) ".md" = true
  /\ getAbstractFileByPath (vault app) path = None
  /\ (forall p, p ∈ intermediateFolders path ->
                getAbstractFileByPath (vault app) p = None
                \/ exists d, getAbstractFileByPath (vault app) p = Some (AFolder d))
  /\ r = Created {| created_path := path; created_title := basenameOf path;
                    created_mtime := clock (vault app) |}.
Proof.
  intros E. cbv zeta.
  destruct (rpcNoteCreate_ok_inv params graphVersion app r E) as (Hp & Hh & He & Hn & Hf & Hr & _).
  auto 10.
Qed.

Lemma rpcNoteCreate_success_only_if_witness :
  exists r, fst (rpcNoteCreate spacedNote (ofZ 0) emptyApp) = Ok r
            /\ r = Created {| created_path := "a/b/c.md"; created_title := "c";
                              created_mtime := 0%Z |}.
Proof.
  destruct (fst (rpcNoteCreate spacedNote (ofZ 0) emptyApp)) as [r|e] eqn:E;
    [|vm_compute in E; discriminate].
  exists r. split; [reflexivity|].
  exact (proj2 (proj2 (proj2 (proj2 (proj2
           (rpcNoteCreate_success_only_if spacedNote (ofZ 0) emptyApp r E)))))).
Defined.

(* ------------------------------------------------------------------ *)
(** ** [search.query]: letter case *)

Lemma length_toLowerCase (s : string) :
  String.length (JSString.toLowerCase s) = String.length s.
Proof. induction s as [|c s IH]; simpl; [reflexivity | now rewrite IH]. Qed.

Lemma searchLoop_lower (q q' : string) (limit : JSNumber) (files : list TFile)
    (results : list SearchResult) (v : Vault) :
  JSString.toLowerCase q = JSString.toLowerCase q' ->
  searchLoop q limit files results v = searchLoop q' limit files results v.
Proof.
  intros E.
  assert (String.length q = String.length q') as El
      by now rewrite <- (length_toLowerCase q), E, length_toLowerCase.
  revert results v. induction files as [|f rest IH]; intros results v; [reflexivity|].
  rewrite !searchLoop_cons, E. destruct (ge _ _); [reflexivity|].
  destruct (JSString.indexOf _ _) as [idx|]; [|apply IH].
  unfold snippetOf. rewrite El. apply IH.
Qed.

(** X12: [search.query] ignores letter case in the query (for text of code
    units below 256): two calls whose queries differ only by case (and have
    the same limit) read the same files and return the same results; only
    the echoed [query] differs. *)
Theorem rpcSearchQuery_ignores_case `{Host} (params params' : JSValue)
    (graphVersion graphVersion' : JSNumber) (app : App) (r : SearchResponse) :
  JSString.toLowerCase (queryOf params) = JSString.toLowerCase (queryOf params') ->
  get (recordOf params) "limit" = get (recordOf params') "limit" ->
  fst (rpcSearchQuery params graphVersion app) = Ok (Search r) ->
  rpcSearchQuery params' graphVersion' app
  = (Ok (Search {| response_query := queryOf params';
                   response_results := response_results r |}),
     snd (rpcSearchQuery params graphVersion app)).
Proof.
  intros Eq El. unfold rpcSearchQuery. fold (queryOf params) (queryOf params').
  rewrite <- El.
  destruct (JSString.nonEmpty (queryOf params)) eqn:Hq; [|discriminate].
  assert (JSString.nonEmpty (queryOf params') = true) as ->.
  { destruct (queryOf params'); [|reflexivity].
    destruct (queryOf params); [discriminate | simpl in Eq; discriminate]. }
  simpl negb. cbv iota.
  destruct (Number _) as [n|e]; [|discriminate]. cbv zeta.
  rewrite <- (searchLoop_lower (queryOf params) (queryOf params') _ _ _ _ Eq).
  destruct (searchLoop _ _ _ _ _) as [results v']. simpl.
  intros E. inversion E. reflexivity.
Qed.

Lemma rpcSearchQuery_ignores_case_witness :
  rpcSearchQuery (JObj [("q", JStr "FOO")]) (ofZ 0) (appOf (notesWithFoo 2))
  = (Ok (Search {| response_query := "FOO";
                   response_results :=
                     [{| result_path := "n0.md"; result_title := "n0"; result_snippet := "foo" |};
                      {| result_path := "n1.md"; result_title := "n1"; result_snippet := "foo" |}] |}),
     snd (rpcSearchQuery (JObj [("q", JStr "foo")]) (ofZ 0) (appOf (notesWithFoo 2)))).
Proof.
  apply (rpcSearchQuery_ignores_case (JObj [("q", JStr "foo")]) (JObj [("q", JStr "FOO")])
           (ofZ 0) (ofZ 0) (appOf (notesWithFoo 2))
           {| response_query := "foo";
              response_results :=
                [{| result_path := "n0.md"; result_title := "n0"; result_snippet := "foo" |};
                 {| result_path := "n1.md"; result_title := "n1"; result_snippet := "foo" |}] |});
    reflexivity.
Defined.

(* ------------------------------------------------------------------ *)
(** ** From one method to the next *)

Lemma assoc_NoDup_elem {A} (k : string) (x : A) (l : list (string * A)) :
  NoDup (map fst l) -> (k, x) ∈ l -> assoc k l = Some x.
Proof.
  induction l as [|[k' y] l IH]; intros Hnd Hin; [inversion Hin|].
  simpl in Hnd. apply NoDup_cons in Hnd as [Hk Hnd]. simpl.
  apply elem_of_cons in Hin as [E|Hin].
  - inversion E; subst. now rewrite String.eqb_refl.
  - destruct (String.eqb k k') eqn:E; [|now apply IH].
    apply String.eqb_eq in E. subst k'. exfalso. apply Hk.
    apply list_elem_of_fmap. now exists (k, x).
Qed.

Lemma getMarkdownFiles_lookup (v : Vault) (f : TFile) :
  wellFormed v -> f ∈ getMarkdownFiles v ->
  getAbstractFileByPath v (path f) = Some (AFile f).
Proof.
  intros [Hnd Hpaths] Hin. unfold getMarkdownFiles in Hin.
  apply list_elem_of_In, in_flat_map in Hin as ([k x] & Hk & Hf). simpl in Hf.
  destruct x as [g|d|o]; try contradiction.
  destruct (String.eqb (extension g) "md"); [|contradiction].
  destruct Hf as [->|[]].
  apply list_elem_of_In in Hk. rewrite Forall_forall in Hpaths.
  pose proof (Hpaths _ Hk) as Hp. simpl in Hp. subst k.
  now apply assoc_NoDup_elem.
Qed.

(** X13: what [graph.getSnapshot] lists, [note.getPreview] finds.  In a vault
    that keeps each file under its own path, the id of every node of a
    snapshot (if not empty) is a path [note.getPreview] answers for, with
    the same path, title, mtime and tags as the node. *)
Theorem snapshot_node_has_preview `{Host} (params : JSValue)
    (graphVersion graphVersion' v : JSNumber) (app : App)
    (nodes : list GraphNode) (edges : list GraphEdge) (n : GraphNode) :
  wellFormed (vault app) ->
  fst (rpcGraphGetSnapshot params graphVersion app) = Ok (Snapshot v nodes edges) ->
  n ∈ nodes ->
  node_id n <> EmptyString ->
  exists excerpt,
    fst (rpcNoteGetPreview (pathParams (node_id n)) graphVersion' app)
    = Ok (Preview {| preview_path := node_path n; preview_title := node_title n;
                     preview_mtime := node_mtime n; preview_tags := node_tags n;
                     preview_excerpt := excerpt |}).
Proof.
  intros Hwf. unfold rpcGraphGetSnapshot. destruct (Number _) as [V|e]; [|discriminate].
  destruct (ge V (ofZ 0) && ge V graphVersion); [discriminate|]. simpl.
  intros E Hin Hid. inversion E; subst v nodes edges. clear E.
  apply list_elem_of_fmap in Hin as (f & -> & Hf). simpl in Hid |- *.
  pose proof (getMarkdownFiles_lookup (vault app) f Hwf Hf) as Hlook.
  unfold rpcNoteGetPreview, pathParams. simpl recordOf.
  change (get [("path", JStr (path f))] "path") with (JStr (path f)). simpl stringOr.
  apply nonEmpty_true in Hid. rewrite Hid, Hlook. simpl.
  eexists. reflexivity.
Qed.

Lemma snapshot_node_has_preview_witness :
  exists excerpt,
    fst (rpcNoteGetPreview (pathParams "a.md") (ofZ 7) linkedApp)
    = Ok (Preview {| preview_path := "a.md"; preview_title := "a"; preview_mtime := 0%Z;
                     preview_tags := ["x"]; preview_excerpt := excerpt |}).
Proof.
  assert (wellFormed (vault linkedApp)) as Hwf.
  { split; [|repeat constructor].
    apply NoDup_ListNoDup. repeat constructor; simpl; intuition discriminate. }
  apply (snapshot_node_has_preview JNull (ofZ 3) (ofZ 7) (ofZ 3) linkedApp
           (map (nodeOf (metadataCache linkedApp)) (getMarkdownFiles (vault linkedApp)))
           (edgesOf (resolvedLinks (metadataCache linkedApp)))
           (nodeOf (metadataCache linkedApp) (noteAt "a.md")) Hwf).
  - reflexivity.
  - apply elem_of_cons. left. reflexivity.
  - discriminate.
Defined.

(** X14: what [note.create] wrote, [note.getPreview] reads back.  After a
    call of [note.create] that answered, [note.getPreview] for the path in
    the answer succeeds and returns that path, the same title and mtime,
    and as excerpt the first 30 lines of ["# "], the trimmed heading, a
    blank line, the body without its trailing white space, and a line
    feed. *)
Theorem create_then_preview `{Host} (params : JSValue) (graphVersion graphVersion' : JSNumber)
    (app : App) (c : CreateNoteResponse) :
  fst (rpcNoteCreate params graphVersion app) = Ok (Created c) ->
  exists tags,
    fst (rpcNoteGetPreview (pathParams (created_path c)) graphVersion'
           (snd (rpcNoteCreate params graphVersion app)))
    = Ok (Preview {| preview_path := created_path c; preview_title := created_title c;
                     preview_mtime := created_mtime c; preview_tags := tags;
                     preview_excerpt :=
                       excerptOf ("# " +:+ headingOf params +:+ newline +:+ newline
                                  +:+ JSString.trimEnd (bodyOf params) +:+ newline) |}).
Proof.
  intros E.
  destruct (rpcNoteCreate_ok_inv params graphVersion app _ E)
    as (_ & _ & He & _ & _ & Hr & created & Hv1 & ->).
  cbv zeta in *. set (path := normalizePath (rawPathOf params)) in *.
  inversion Hr; subst c. simpl created_path. simpl created_title. simpl created_mtime.
  assert (JSString.nonEmpty path = true) as Hne.
  { apply nonEmpty_true. intros Ep. rewrite Ep in He. discriminate. }
  unfold rpcNoteGetPreview, pathParams. simpl recordOf.
  change (get [("path", JStr path)] "path") with (JStr path). simpl stringOr.
  rewrite Hne. simpl negb. cbv iota. simpl vault.
  match goal with
  | |- context [getAbstractFileByPath ?w path] =>
      rewrite (lookup_snoc w (withFolders (vault app) created) path path _ eq_refl)
  end.
  rewrite Hv1, String.eqb_refl.
  unfold cachedRead. simpl. rewrite String.eqb_refl. simpl.
  eexists. reflexivity.
Qed.

Lemma create_then_preview_witness :
  exists tags,
    fst (rpcNoteGetPreview (pathParams "a/b/c.md") (ofZ 1)
           (snd (rpcNoteCreate spacedNote (ofZ 0) emptyApp)))
    = Ok (Preview {| preview_path := "a/b/c.md"; preview_title := "c";
                     preview_mtime := 0%Z; preview_tags := tags;
                     preview_excerpt := "# H" +:+ newline +:+ newline +:+ "text" +:+ newline |}).
Proof.
  apply (create_then_preview spacedNote (ofZ 0) (ofZ 1) emptyApp
           {| created_path := "a/b/c.md"; created_title := "c"; created_mtime := 0%Z |}).
  reflexivity.
Defined.

(* ------------------------------------------------------------------ *)
(** ** The registry *)

Lemma registerRpcMethods_lookup `{Host} (server : gmap string Handler) (name : string) :
  registerRpcMethods server !! name
  = if decide (name = "createNote") then Some rpcNoteCreate
    else if decide (name = "note.create") then Some rpcNoteCreate
    else if decide (name = "search.query") then Some rpcSearchQuery
    else if decide (name = "note.getPreview") then Some rpcNoteGetPreview
    else if decide (name = "graph.getSnapshot") then Some rpcGraphGetSnapshot
    else server !! name.
Proof.
  unfold registerRpcMethods, addMethod. rewrite !lookup_insert.
  repeat (match goal with
          | |- context [decide (?a = ?b)] => destruct (decide (a = b)); subst
          end; try congruence; try reflexivity).
Qed.

(** X15: [registerRpcMethods] registers five names and no other:
    [graph.getSnapshot], [note.getPreview] and [search.query] with their
    handlers, [note.create] and [createNote] with the same one.  A method
    registered before under another name is left alone, one under one of
    the five names is replaced, and registering twice is registering
    once. *)
Theorem registerRpcMethods_names `{Host} (server : gmap string Handler) :
  (forall name, name ∈ rpcMethodNames <-> is_Some (registerRpcMethods ∅ !! name))
  /\ (forall name, name ∉ rpcMethodNames -> registerRpcMethods server !! name = server !! name)
  /\ registerRpcMethods server !! "graph.getSnapshot" = Some rpcGraphGetSnapshot
  /\ registerRpcMethods server !! "note.getPreview" = Some rpcNoteGetPreview
  /\ registerRpcMethods server !! "search.query" = Some rpcSearchQuery
  /\ registerRpcMethods server !! "note.create" = Some rpcNoteCreate
  /\ registerRpcMethods server !! "createNote" = Some rpcNoteCreate
  /\ registerRpcMethods (registerRpcMethods server) = registerRpcMethods server.
Proof.
  assert (forall name, name ∈ rpcMethodNames <->
            name = "graph.getSnapshot" \/ name = "note.getPreview" \/ name = "search.query"
            \/ name = "note.create" \/ name = "createNote") as Hnames.
  { intros name. unfold rpcMethodNames. rewrite !elem_of_cons, elem_of_nil. tauto. }
  split; [|split; [|split; [|split; [|split; [|split; [|split]]]]]];
    try (rewrite registerRpcMethods_lookup; reflexivity).
  - intros name. rewrite Hnames, registerRpcMethods_lookup.
    repeat (destruct (decide _) as [->|?]; [split; [eauto | tauto]|]).
    rewrite lookup_empty. split; [tauto | intros [x Hx]; discriminate].
  - intros name Hn. rewrite Hnames in Hn. rewrite registerRpcMethods_lookup.
    repeat (destruct (decide _) as [->|?]; [tauto|]). reflexivity.
  - apply map_eq. intros name. rewrite !registerRpcMethods_lookup.
    repeat (destruct (decide _); [reflexivity|]). reflexivity.
Qed.

(* ------------------------------------------------------------------ *)
(** ** [stop] *)

Lemma socketClose_twice (s : WebSocket) : socketClose (socketClose s) = socketClose s.
Proof. unfold socketClose. destruct s as [[] ?]; reflexivity. Qed.

(** The loop of [stop] over the live sockets. *)
Lemma stop_loop (live : list nat) (env : Env) :
  let env1 :=
    fold_left (fun e ws =>
                 {| sockets := alter socketClose ws (sockets e);
                    sessions := alter (rejectAllPendingRequests "Connection closed.") ws
                                  (sessions e);
                    listeners := listeners e; notices := notices e; app := app e |})
              live env in
  listeners env1 = listeners env /\ notices env1 = notices env /\ app env1 = app env
  /\ (forall w, sockets env1 !! w
                = if bool_decide (w ∈ live) then socketClose <$> sockets env !! w
                  else sockets env !! w)
  /\ (forall w, sessions env1 !! w
                = if bool_decide (w ∈ live)
                  then rejectAllPendingRequests "Connection closed." <$> sessions env !! w
                  else sessions env !! w).
Proof.
  cbv zeta. revert env. induction live as [|x live IH]; intros env.
  - simpl. repeat split; reflexivity.
  - simpl fold_left.
    destruct (IH {| sockets := alter socketClose x (sockets env);
                    sessions := alter (rejectAllPendingRequests "Connection closed.") x
                                  (sessions env);
                    listeners := listeners env; notices := notices env; app := app env |})
      as (Hl & Hn & Ha & Hs & Hss).
    simpl in Hl, Hn, Ha, Hs, Hss.
    split; [exact Hl|]. split; [exact Hn|]. split; [exact Ha|]. split.
    + intros w. rewrite Hs, lookup_alter.
      destruct (decide (x = w)) as [->|Hne].
      * rewrite (bool_decide_eq_true_2 (w ∈ w :: live)) by (apply elem_of_cons; now left).
        destruct (bool_decide (w ∈ live)); [|reflexivity].
        destruct (sockets env !! w); simpl; [now rewrite socketClose_twice | reflexivity].
      * assert (bool_decide (w ∈ x :: live) = bool_decide (w ∈ live)) as ->.
        { apply bool_decide_ext. rewrite elem_of_cons. split; [intros [?|?]; congruence | tauto]. }
        reflexivity.
    + intros w. rewrite Hss, lookup_alter.
      destruct (decide (x = w)) as [->|Hne].
      * rewrite (bool_decide_eq_true_2 (w ∈ w :: live)) by (apply elem_of_cons; now left).
        destruct (bool_decide (w ∈ live)); [|reflexivity].
        destruct (sessions env !! w); simpl; [now rewrite rejectAll_drained | reflexivity].
      * assert (bool_decide (w ∈ x :: live) = bool_decide (w ∈ live)) as ->.
        { apply bool_decide_ext. rewrite elem_of_cons. split; [intros [?|?]; congruence | tauto]. }
        reflexivity.
Qed.

Lemma stop_listeners (srv : WsRpcServer) (env : Env) :
  listeners (snd (stop srv env))
  = match wss srv with
    | Some i => alter closeListener i (listeners env)
    | None => listeners env
    end.
Proof.
  unfold stop. simpl. destruct (stop_loop (clients srv) env) as (Hl & _). cbv zeta in Hl.
  now rewrite Hl.
Qed.

(** X16: [stop] hangs up on every live socket and sends nothing.  After it
    the server holds no client and no listener; each live socket has had
    [close()] called (so none is open any more) and each live session its
    pending calls rejected with "Connection closed."; no socket has been
    sent a frame, the sockets and sessions that were not live are as they
    were, and so are the application and the notices; the listener the
    server held is closed and no other listener is touched.  A second
    [stop] changes nothing more, and a [notifyAll] after it reaches no
    one. *)
Theorem stop_closes_everything `{Host} (srv : WsRpcServer) (env : Env) :
  let r := stop srv env in
  clients (fst r) = [] /\ wss (fst r) = None
  /\ (forall w, sockets (snd r) !! w
                = if bool_decide (w ∈ clients srv) then socketClose <$> sockets env !! w
                  else sockets env !! w)
  /\ (forall w s, w ∈ clients srv -> sockets (snd r) !! w = Some s ->
                  readyState s = CLOSING \/ readyState s = CLOSED)
  /\ (forall w s', sockets (snd r) !! w = Some s' ->
                   exists s, sockets env !! w = Some s /\ sent s' = sent s)
  /\ (forall w, sessions (snd r) !! w
                = if bool_decide (w ∈ clients srv)
                  then rejectAllPendingRequests "Connection closed." <$> sessions env !! w
                  else sessions env !! w)
  /\ (forall i, listeningAt (snd r) i <-> listeningAt env i /\ wss srv <> Some i)
  /\ app (snd r) = app env /\ notices (snd r) = notices env
  /\ stop (fst r) (snd r) = r
  /\ (forall method params, notifyAll method params (fst r) (snd r) = snd r).
Proof.
  cbv zeta. pose proof (stop_listeners srv env) as Hlisten. revert Hlisten.
  unfold stop. destruct (stop_loop (clients srv) env) as (Hl & Hn & Ha & Hs & Hss).
  cbv zeta in Hl, Hn, Ha, Hs, Hss. simpl. intros Hlisten.
  split; [reflexivity|]. split; [reflexivity|]. split; [exact Hs|]. split; [|split].
  - intros w s Hin. rewrite Hs, (bool_decide_eq_true_2 _ Hin).
    destruct (sockets env !! w) as [s0|]; [|discriminate]. simpl. intros [= <-].
    unfold socketClose. destruct (readyState s0) eqn:Er; simpl; auto.
  - intros w s'. rewrite Hs.
    destruct (sockets env !! w) as [s0|]; [|now destruct (bool_decide _)].
    destruct (bool_decide _); simpl; intros [= <-]; exists s0; split; try reflexivity.
    unfold socketClose. now destruct (readyState s0).
  - split; [exact Hss|]. split; [|split; [exact Ha|split; [exact Hn|split; [reflexivity|]]]].
    + intros i. unfold listeningAt. simpl. rewrite Hl.
      destruct (wss srv) as [k|].
      * split.
        -- intros (l & El & Hon). rewrite list_lookup_alter in El.
           destruct (decide (k = i)) as [->|Hne].
           ++ destruct (listeners env !! i); [|discriminate]. simpl in El.
              inversion El; subst l. discriminate.
           ++ split; [eauto | congruence].
        -- intros [(l & El & Hon) Hne]. exists l. split; [|exact Hon].
           rewrite list_lookup_alter_ne by congruence. exact El.
      * split; [intros Hi; split; [exact Hi | discriminate] | tauto].
    + intros method params. unfold notifyAll, withSockets. reflexivity.
Qed.

(* ------------------------------------------------------------------ *)
(** ** The listener, over any run *)

Lemma onMessage_server `{Host} (ws : nat) (raw : RawData) (graphVersion : Z)
    (srv : WsRpcServer) (env : Env) :
  fst (onMessage ws raw graphVersion srv env) = srv
  /\ listeners (snd (onMessage ws raw graphVersion srv env)) = listeners env.
Proof.
  unfold onMessage. destruct (negb _); [now split|].
  destruct (JSON_parse _); [|now split].
  destruct (sessions env !! ws); [|now split].
  destruct (receiveAndSend _ _ _ _ _ _) as [[s' socks'] app']. now split.
Qed.

Lemma serverStep_listener `{Host} (ev : ServerEvent) (srv : WsRpcServer) (env : Env) :
  (forall i, wss srv = Some i <-> listeningAt env i) ->
  forall i, wss (fst (serverStep ev (srv, env))) = Some i
            <-> listeningAt (snd (serverStep ev (srv, env))) i.
Proof.
  intros Hinv i.
  destruct ev as [| |method params|ws v|ws code reason|ws raw v];
    unfold serverStep; cbn [fst snd].
  - unfold start. destruct (wss srv) as [k|] eqn:Ek; cbn [fst snd];
      [rewrite Ek; apply Hinv|]. simpl.
    unfold listeningAt. simpl. split.
    + intros E. inversion E; subst i. eexists.
      rewrite lookup_app_r, Nat.sub_diag by lia. simpl. split; reflexivity.
    + intros (l & El & Hon). destruct (decide (i < length (listeners env))) as [Hlt|Hge].
      * rewrite lookup_app_l in El by assumption.
        assert (listeningAt env i) as Hi by (exists l; now split).
        apply Hinv in Hi. discriminate.
      * destruct (decide (i = length (listeners env))) as [->|Hne]; [reflexivity|].
        rewrite lookup_app_r in El by lia.
        destruct (i - length (listeners env)) as [|[|n]] eqn:En; simpl in El;
          [lia | discriminate | discriminate].
  - pose proof (stop_listeners srv env) as Hl. unfold listeningAt. rewrite Hl.
    unfold stop. simpl wss. split; [discriminate|].
    intros (l & El & Hon). exfalso. destruct (wss srv) as [k|] eqn:Ek.
    + rewrite list_lookup_alter in El. destruct (decide (k = i)) as [->|Hne].
      * destruct (listeners env !! i); [|discriminate]. simpl in El.
        inversion El; subst l. discriminate.
      * assert (listeningAt env i) as Hi by (exists l; now split).
        apply Hinv in Hi. congruence.
    + assert (listeningAt env i) as Hi by (exists l; now split).
      apply Hinv in Hi. discriminate.
  - apply Hinv.
  - apply Hinv.
  - apply Hinv.
  - destruct (onMessage_server ws raw v srv env) as [-> El].
    unfold listeningAt. rewrite El. apply Hinv.
Qed.

(** X17: the server listens on one listener at most.  Start a run where the
    server holds a listener exactly when that listener is listening (as a
    new server does, no listener listening); then after any sequence of
    [start], [stop], [notifyAll], connections, closes and messages the same
    is true: the listener the server holds is listening, no other listener
    is, and a stopped server listens on none. *)
Theorem server_single_listener `{Host} (evs : list ServerEvent) (srv : WsRpcServer)
    (env : Env) :
  (forall i, wss srv = Some i <-> listeningAt env i) ->
  let st := serverRun evs (srv, env) in
  (forall i, wss (fst st) = Some i <-> listeningAt (snd st) i)
  /\ (forall i j, listeningAt (snd st) i -> listeningAt (snd st) j -> i = j)
  /\ (wss (fst st) = None -> forall i, ~ listeningAt (snd st) i).
Proof.
  intros Hinv. cbv zeta.
  assert (forall i, wss (fst (serverRun evs (srv, env))) = Some i
                    <-> listeningAt (snd (serverRun evs (srv, env))) i) as Hrun.
  { unfold serverRun. revert srv env Hinv. induction evs as [|ev evs IH]; intros srv env Hinv.
    - exact Hinv.
    - simpl fold_left. pose proof (serverStep_listener ev srv env Hinv) as Hstep.
      destruct (serverStep ev (srv, env)) as [srv' env']. now apply IH. }
  split; [exact Hrun|]. split.
  - intros i j Hi Hj. apply Hrun in Hi, Hj. congruence.
  - intros Hnone i Hi. apply Hrun in Hi. congruence.
Qed.

Lemma server_single_listener_witness :
  (forall i, wss newServer = Some i <-> listeningAt emptyEnv i)
  /\ wss (fst (serverRun [EvStart; EvStart; EvStop; EvStart] (newServer, emptyEnv))) = Some 1
  /\ forall i, listeningAt (snd (serverRun [EvStart; EvStart; EvStop; EvStart]
                                   (newServer, emptyEnv))) i -> i = 1.
Proof.
  assert (forall i, wss newServer = Some i <-> listeningAt emptyEnv i) as Hinit.
  { intros i. split; [discriminate|]. intros (l & El & _). discriminate. }
  split; [exact Hinit|]. split; [reflexivity|].
  intros i Hi.
  destruct (server_single_listener [EvStart; EvStart; EvStop; EvStart] newServer emptyEnv Hinit)
    as (Hrun & _ & _).
  apply Hrun in Hi. simpl in Hi. now inversion Hi.
Defined.

(* ------------------------------------------------------------------ *)
(** ** Vault events, one after the other *)

Lemma bump_lookup `{Host} (p : Plugin) (env : Env) (w : nat) :
  NoDup (liveSessions p) ->
  sockets (snd (bumpGraphVersion p env)) !! w
  = match sockets env !! w with
    | Some s =>
        if bool_decide (w ∈ liveSessions p) && isOpen s
        then Some (socketSend (NotificationFrame "graph.changed"
                                 (versionParams (plusOne (graphVersion p)))) s)
        else Some s
    | None => None
    end.
Proof.
  intros Hnd. unfold bumpGraphVersion, liveSessions in *. simpl.
  destruct (rpcServer p) as [srv|].
  - unfold notifyAll, withSockets. simpl. now apply notifyAll_lookup.
  - destruct (sockets env !! w); [|reflexivity].
    now rewrite (bool_decide_eq_false_2 (w ∈ [])) by apply not_elem_of_nil.
Qed.

Lemma changedFrames_S (v : Z) (n : nat) :
  changedFrames v (S n)
  = NotificationFrame "graph.changed" (versionParams (v + 1)) :: changedFrames (v + 1) n.
Proof.
  unfold changedFrames. change (seq 1 (S n)) with (1 :: seq 2 n). rewrite map_cons.
  f_equal. rewrite <- seq_shift, map_map. apply map_ext. intros k.
  now replace (v + Z.of_nat (S k))%Z with (v + 1 + Z.of_nat k)%Z by lia.
Qed.

(** X18: while the version stays within 2^53 (up to there a number holds
    every integer), [es] vault events in a row raise the version by the
    number of events and leave the live sessions as they are; every live
    session whose socket is open is sent one [graph.changed] notification
    per event, carrying the versions [v + 1], [v + 2], ... in that order,
    and nothing else; a socket that is not open or not live is sent
    nothing. *)
Theorem vault_events_in_order `{Host} (es : list VaultEvent) (p : Plugin) (env : Env) :
  NoDup (liveSessions p) ->
  (- 2 ^ 53 <= graphVersion p)%Z ->
  (graphVersion p + Z.of_nat (length es) <= 2 ^ 53)%Z ->
  let r := onVaultEvents es p env in
  graphVersion (fst r) = (graphVersion p + Z.of_nat (length es))%Z
  /\ liveSessions (fst r) = liveSessions p
  /\ (forall ws s,
        ws ∈ liveSessions p -> sockets env !! ws = Some s -> isOpen s = true ->
        sockets (snd r) !! ws
        = Some {| readyState := OPEN;
                  sent := sent s ++ changedFrames (graphVersion p) (length es) |})
  /\ (forall ws s,
        sockets env !! ws = Some s -> ws ∉ liveSessions p \/ isOpen s = false ->
        sockets (snd r) !! ws = Some s).
Proof.
  cbv zeta. unfold onVaultEvents. revert p env.
  induction es as [|e es IH]; intros p env Hnd Hlo Hhi.
  - simpl. split; [lia|]. split; [reflexivity|]. split.
    + intros ws s _ Hs Ho. rewrite Hs. f_equal. destruct s as [st sn]. simpl.
      unfold changedFrames. simpl. rewrite app_nil_r.
      unfold isOpen in Ho. simpl in Ho. now destruct st.
    + intros ws s Hs _. exact Hs.
  - simpl fold_left. simpl length in Hhi.
    assert (onVaultEvent e p env = bumpGraphVersion p env) as -> by (destruct e; reflexivity).
    pose proof (fun w => bump_lookup p env w Hnd) as Hb.
    assert (plusOne (graphVersion p) = (graphVersion p + 1)%Z) as Hone
        by (apply plusOne_exact; lia).
    rewrite Hone in Hb.
    assert (graphVersion (fst (bumpGraphVersion p env)) = (graphVersion p + 1)%Z) as Hv
        by exact Hone.
    assert (liveSessions (fst (bumpGraphVersion p env)) = liveSessions p) as Hlive
        by reflexivity.
    destruct (bumpGraphVersion p env) as [p1 env1]. simpl fst in *. simpl snd in *.
    rewrite <- Hlive in Hnd.
    destruct (IH p1 env1 Hnd) as (IHv & IHl & IHo & IHc); [lia | lia|].
    rewrite Hlive in IHl, IHo, IHc. rewrite Hv in IHv, IHo.
    split; [rewrite IHv; simpl length; lia|]. split; [exact IHl|]. split.
    + intros ws s Hin Hs Ho.
      rewrite (IHo ws (socketSend (NotificationFrame "graph.changed"
                                     (versionParams (graphVersion p + 1))) s) Hin).
      * f_equal. simpl length. rewrite changedFrames_S. simpl. now rewrite <- app_assoc.
      * rewrite Hb, Hs, Ho. now rewrite (bool_decide_eq_true_2 _ Hin).
      * exact Ho.
    + intros ws s Hs Hc. apply IHc; [|exact Hc].
      rewrite Hb, Hs. destruct Hc as [Hn|Hc].
      * now rewrite (bool_decide_eq_false_2 _ Hn).
      * rewrite Hc. now rewrite andb_false_r.
Qed.

Lemma vault_events_in_order_witness :
  NoDup (liveSessions (pluginWith 3 [0; 1]))
  /\ (- 2 ^ 53 <= graphVersion (pluginWith 3 [0%nat; 1%nat]))%Z
  /\ (graphVersion (pluginWith 3 [0%nat; 1%nat])
        + Z.of_nat (length [Modify; Rename; Delete]) <= 2 ^ 53)%Z
  /\ graphVersion (fst (onVaultEvents [Modify; Rename; Delete] (pluginWith 3 [0; 1])
                          (envWith {[ 0 := openSocket; 1 := closingSocket ]} ∅))) = 6%Z
  /\ sockets (snd (onVaultEvents [Modify; Rename; Delete] (pluginWith 3 [0; 1])
                     (envWith {[ 0 := openSocket; 1 := closingSocket ]} ∅))) !! 0
     = Some {| readyState := OPEN;
               sent := [NotificationFrame "graph.changed" (versionParams 4);
                        NotificationFrame "graph.changed" (versionParams 5);
                        NotificationFrame "graph.changed" (versionParams 6)] |}.
Proof.
  assert (NoDup (liveSessions (pluginWith 3 [0; 1]))) as Hnd.
  { apply NoDup_ListNoDup. repeat constructor; simpl; intuition discriminate. }
  assert (- 2 ^ 53 <= graphVersion (pluginWith 3 [0%nat; 1%nat]))%Z as Hlo
      by (unfold pluginWith; simpl graphVersion; lia).
  assert (graphVersion (pluginWith 3 [0%nat; 1%nat])
          + Z.of_nat (length [Modify; Rename; Delete]) <= 2 ^ 53)%Z as Hhi
      by (unfold pluginWith; simpl graphVersion; simpl length; lia).
  split; [exact Hnd|]. split; [exact Hlo|]. split; [exact Hhi|].
  destruct (vault_events_in_order [Modify; Rename; Delete] (pluginWith 3 [0; 1])
              (envWith {[ 0 := openSocket; 1 := closingSocket ]} ∅) Hnd Hlo Hhi)
    as (Hv & _ & Hopen & _).
  split; [exact Hv|].
  assert (sockets (envWith {[ 0 := openSocket; 1 := closingSocket ]} ∅) !! 0 = Some openSocket)
    as Hs by reflexivity.
  apply (Hopen 0 openSocket); [|exact Hs | reflexivity].
  apply elem_of_cons. now left.
Defined.

(* ------------------------------------------------------------------ *)
(** ** [search.query]: what a result is *)

Lemma substring_nil (n m : nat) : substring n m EmptyString = EmptyString.
Proof. destruct n, m; reflexivity. Qed.

Lemma substring_split (s : string) (n a b : nat) :
  substring n (a + b) s = substring n a s +:+ substring (n + a) b s.
Proof.
  revert n a b. induction s as [|c s IH]; intros n a b.
  - now rewrite !substring_nil.
  - destruct n as [|n].
    + destruct a as [|a]; [reflexivity|].
      change (substring 0 (S a + b) (String c s)) with (String c (substring 0 (a + b) s)).
      change (substring 0 (S a) (String c s)) with (String c (substring 0 a s)).
      change (substring (0 + S a) b (String c s)) with (substring (0 + a) b s).
      now rewrite IH, append_cons.
    + change (substring (S n) (a + b) (String c s)) with (substring n (a + b) s).
      change (substring (S n) a (String c s)) with (substring n a s).
      change (substring (S n + a) b (String c s)) with (substring (n + a) b s).
      apply IH.
Qed.

Lemma substring_whole (s : string) : substring 0 (String.length s) s = s.
Proof. induction s as [|c s IH]; simpl; [reflexivity | now rewrite IH]. Qed.

Lemma length_substring_rest (n m : nat) (s : string) :
  String.length (substring n m s) <= String.length s - n.
Proof.
  revert n m. induction s as [|c s IH]; intros n m.
  - rewrite substring_nil. simpl. lia.
  - destruct n as [|n].
    + destruct m as [|m]; simpl; [lia|]. specialize (IH 0 m). lia.
    + simpl. apply IH.
Qed.

Lemma length_substring_exact (n m : nat) (s : string) :
  n + m <= String.length s -> String.length (substring n m s) = m.
Proof.
  revert n m. induction s as [|c s IH]; intros n m Hle.
  - simpl in Hle. rewrite substring_nil. simpl. lia.
  - destruct n as [|n].
    + destruct m as [|m]; simpl; [reflexivity|]. rewrite IH; [reflexivity | simpl in Hle; lia].
    + simpl. apply IH. simpl in Hle. lia.
Qed.

Lemma toLowerCase_substring (n m : nat) (s : string) :
  JSString.toLowerCase (substring n m s) = substring n m (JSString.toLowerCase s).
Proof.
  revert n m. induction s as [|c s IH]; intros n m.
  - destruct n, m; reflexivity.
  - destruct n as [|n].
    + destruct m as [|m]; simpl; [reflexivity | now rewrite IH].
    + simpl. apply IH.
Qed.

Lemma toLowerCase_append (a b : string) :
  JSString.toLowerCase (a +:+ b) = JSString.toLowerCase a +:+ JSString.toLowerCase b.
Proof.
  induction a as [|c a IH]; [reflexivity|].
  rewrite append_cons. simpl JSString.toLowerCase. now rewrite IH, append_cons.
Qed.

Lemma substring_middle (a b c : string) :
  substring (String.length a) (String.length b) (a +:+ b +:+ c) = b.
Proof.
  induction a as [|x a IH].
  - rewrite append_nil. simpl String.length. induction b as [|y b IHb].
    + rewrite append_nil. now destruct c.
    + rewrite append_cons. simpl. now rewrite IHb.
  - rewrite append_cons. simpl. exact IH.
Qed.

(** A result is the window around the first place the query occurs. *)
Lemma matchOf_window (q : string) (v : Vault) (f : TFile) (x : SearchResult) :
  q <> EmptyString ->
  matchOf q v f = Some x ->
  result_path x = path f /\ result_title x = basename f
  /\ exists pre before m after post,
       noteText v f = pre +:+ before +:+ m +:+ after +:+ post
       /\ JSString.toLowerCase m = JSString.toLowerCase q
       /\ (forall pre', occurs q (noteText v f) pre' ->
             String.length (pre +:+ before) <= String.length pre')
       /\ String.length before = Nat.min 80 (String.length (pre +:+ before))
       /\ String.length after = Nat.min 80 (String.length (after +:+ post))
       /\ result_snippet x = JSString.collapseWhiteSpace (before +:+ m +:+ after).
Proof.
  intros Hq. unfold matchOf, JSString.indexOf. set (text := noteText v f).
  destruct (index 0 (JSString.toLowerCase q) (JSString.toLowerCase text)) as [idx|] eqn:Ei;
    [|discriminate].
  intros [= <-]. cbn [result_path result_title result_snippet].
  split; [reflexivity|]. split; [reflexivity|].
  pose proof (index_correct1 _ _ _ _ Ei) as Hat.
  pose proof (index_correct2 _ _ _ _ Ei) as Hfirst.
  rewrite length_toLowerCase in Hat, Hfirst.
  set (ql := String.length q) in *. set (L := String.length text).
  assert (0 < ql) as Hql by (subst ql; destruct q; [congruence | simpl; lia]).
  assert (idx + ql <= L) as Hfit.
  { pose proof (length_substring_rest idx ql (JSString.toLowerCase text)) as Hr.
    rewrite Hat, !length_toLowerCase in Hr. fold ql L in Hr. lia. }
  set (start := Nat.max 0 (idx - 80)). set (stop := Nat.min L (idx + ql + 80)).
  exists (substring 0 start text), (substring start (idx - start) text),
         (substring idx ql text), (substring (idx + ql) (stop - (idx + ql)) text),
         (substring stop (L - stop) text).
  assert (start <= idx) as Hs by (subst start; lia).
  assert (idx + ql <= stop <= L) as Hst by (subst stop; lia).
  assert (String.length (substring 0 start text +:+ substring start (idx - start) text) = idx)
    as Hidx.
  { rewrite length_append, !length_substring_exact by (fold L; lia). lia. }
  split; [|split; [|split; [|split; [|split]]]].
  - rewrite <- (substring_whole text) at 1. fold L.
    replace L with (start + ((idx - start) + (ql + ((stop - (idx + ql)) + (L - stop)))))
      at 1 by lia.
    rewrite !substring_split. simpl Nat.add.
    replace (start + (idx - start)) with idx by lia.
    replace (idx + ql + (stop - (idx + ql))) with stop by lia.
    reflexivity.
  - now rewrite toLowerCase_substring.
  - rewrite Hidx. intros pre' (m' & post' & Et & Em).
    destruct (Nat.le_gt_cases idx (String.length pre')) as [Hle|Hlt]; [exact Hle|].
    exfalso. apply (Hfirst (String.length pre')); [lia | exact Hlt|].
    assert (String.length m' = ql) as Hm.
    { subst ql. now rewrite <- (length_toLowerCase m'), Em, length_toLowerCase. }
    rewrite <- Hm, <- Em, Et, !toLowerCase_append.
    rewrite <- (length_toLowerCase pre'), <- (length_toLowerCase m').
    apply substring_middle.
  - rewrite Hidx, length_substring_exact by (fold L; lia). subst start. lia.
  - rewrite length_append, !length_substring_exact by (fold L; lia). subst stop. lia.
  - unfold snippetOf, JSString.slice. fold text L ql start stop. f_equal.
    replace (stop - start) with ((idx - start) + (ql + (stop - (idx + ql)))) by lia.
    rewrite !substring_split.
    replace (start + (idx - start)) with idx by lia. reflexivity.
Qed.

(** A file in which the query occurs gives a result. *)
Lemma matchOf_occurs (q : string) (v : Vault) (f : TFile) (pre : string) :
  q <> EmptyString ->
  occurs q (noteText v f) pre ->
  exists x, matchOf q v f = Some x /\ result_path x = path f.
Proof.
  intros Hq (m & post & Et & Em). unfold matchOf, JSString.indexOf.
  destruct (index 0 (JSString.toLowerCase q) (JSString.toLowerCase (noteText v f)))
    as [idx|] eqn:Ei; [eexists; split; reflexivity|].
  exfalso. apply (index_correct3 _ (String.length pre) _ _ Ei).
  - destruct q; [congruence | discriminate].
  - lia.
  - rewrite <- Em, Et, !toLowerCase_append.
    rewrite <- (length_toLowerCase pre). apply substring_middle.
Qed.

(** X19: what [search.query] finds (for text of code units below 256, where
    lower-casing keeps every position).  Each result names a markdown file
    of the vault whose text holds the query, up to letter case; its snippet
    is the window around the first such place: the match with the 80
    characters before it and the 80 after it, or as many as there are,
    every run of white space collapsed to one space.  And when fewer
    results come back than the limit allows, no file was missed: every
    markdown file whose text holds the query is among the results. *)
Theorem rpcSearchQuery_finds `{Host} (params : JSValue) (graphVersion : JSNumber)
    (app : App) (r : SearchResponse) :
  fst (rpcSearchQuery params graphVersion app) = Ok (Search r) ->
  let q := queryOf params in
  let v := vault app in
  Forall (fun x =>
            exists f pre before m after post,
              f ∈ getMarkdownFiles v
              /\ result_path x = path f /\ result_title x = basename f
              /\ noteText v f = pre +:+ before +:+ m +:+ after +:+ post
              /\ JSString.toLowerCase m = JSString.toLowerCase q
              /\ (forall pre', occurs q (noteText v f) pre' ->
                    String.length (pre +:+ before) <= String.length pre')
              /\ String.length before = Nat.min 80 (String.length (pre +:+ before))
              /\ String.length after = Nat.min 80 (String.length (after +:+ post))
              /\ result_snippet x = JSString.collapseWhiteSpace (before +:+ m +:+ after))
         (response_results r)
  /\ (forall n, limitOf params = Ok n ->
        ge (ofNat (length (response_results r))) (Math_min n (ofZ 200)) = false ->
        forall f pre, f ∈ getMarkdownFiles v -> occurs q (noteText v f) pre ->
          exists x, x ∈ response_results r /\ result_path x = path f).
Proof.
  intros Hr. cbv zeta.
  assert (queryOf params <> EmptyString) as Hq.
  { revert Hr. unfold rpcSearchQuery. fold (queryOf params).
    destruct (queryOf params); [discriminate | discriminate]. }
  destruct (rpcSearchQuery_ok_inv params graphVersion app r Hr) as (n & Hn & ->).
  simpl response_results.
  destruct (searchLoop_result (queryOf params) (Math_min n (ofZ 200))
              (getMarkdownFiles (vault app)) [] (vault app)) as (k & Hk & Eq & _ & Hstop).
  rewrite Eq. cbn [fst]. rewrite app_nil_l. rewrite app_nil_l in Hstop. split.
  - apply Forall_forall. intros x Hx.
    apply list_elem_of_omap in Hx as (f & Hf & Hm).
    destruct (matchOf_window _ _ _ _ Hq Hm)
      as (Hp & Ht & pre & before & m & after & post & Hrest).
    exists f, pre, before, m, after, post.
    split; [|split; [exact Hp | split; [exact Ht | exact Hrest]]].
    apply list_elem_of_In. apply list_elem_of_In in Hf.
    apply list_elem_of_In, elem_of_take in Hf as (i & Hi & _).
    apply list_elem_of_In. now apply list_elem_of_lookup_2 in Hi.
  - intros n' Hn' Hbelow f pre Hf Hocc. rewrite Hn in Hn'. inversion Hn'; subst n'.
    assert (~ k < length (getMarkdownFiles (vault app))) as Hall.
    { intros Hlt. rewrite (Hstop Hlt) in Hbelow. discriminate. }
    rewrite take_ge in * by lia.
    destruct (matchOf_occurs _ (vault app) f pre Hq Hocc) as (x & Hx & Hp).
    exists x. split; [|exact Hp]. apply list_elem_of_omap. now exists f.
Qed.

Lemma rpcSearchQuery_finds_witness :
  exists r,
    fst (rpcSearchQuery (JObj [("q", JStr "FOO")]) (ofZ 0) (appOf (notesWithFoo 2)))
    = Ok (Search r)
    /\ exists x, x ∈ response_results r /\ result_path x = "n1.md".
Proof.
  destruct (fst (rpcSearchQuery (JObj [("q", JStr "FOO")]) (ofZ 0) (appOf (notesWithFoo 2))))
    as [[| | |r|]|] eqn:E; try (vm_compute in E; discriminate).
  exists r. split; [reflexivity|].
  destruct (rpcSearchQuery_finds (JObj [("q", JStr "FOO")]) (ofZ 0) (appOf (notesWithFoo 2)) r E)
    as [_ Hcomplete].
  apply (Hcomplete (ofZ 50) eq_refl) with (f := noteAt "n1.md") (pre := EmptyString).
  - vm_compute in E. inversion E. reflexivity.
  - apply elem_of_cons. right. apply elem_of_cons. now left.
  - exists "foo", EmptyString. split; reflexivity.
Defined.

(* ------------------------------------------------------------------ *)
(** ** The plugin, from [onload] to [onunload] *)

Lemma elem_of_mapSet (x ws : nat) (keys : list nat) :
  x ∈ mapSet ws keys <-> x = ws \/ x ∈ keys.
Proof.
  unfold mapSet. destruct (existsb (Nat.eqb ws) keys) eqn:E.
  - split; [tauto|]. intros [->|Hx]; [|exact Hx].
    apply existsb_exists in E as (y & Hy & Ey). apply Nat.eqb_eq in Ey. subst y.
    now apply list_elem_of_In.
  - rewrite elem_of_app, list_elem_of_singleton. tauto.
Qed.

(** While the plugin is loaded its server stays as [onload] started it:
    the events change neither the listener it holds nor the listeners. *)
Lemma pluginRun_loaded `{Host} (evs : list PluginEvent) (p : Plugin) (env : Env)
    (srv : WsRpcServer) :
  rpcServer p = Some srv ->
  onClientConnected (options srv) = true ->
  (- 2 ^ 53 <= graphVersion p)%Z ->
  (graphVersion p + Z.of_nat (vaultEventsIn evs) <= 2 ^ 53)%Z ->
  exists srv',
    rpcServer (fst (pluginRun evs (p, env))) = Some srv'
    /\ wss srv' = wss srv
    /\ listeners (snd (pluginRun evs (p, env))) = listeners env
    /\ graphVersion (fst (pluginRun evs (p, env)))
       = (graphVersion p + Z.of_nat (vaultEventsIn evs))%Z
    /\ notices (snd (pluginRun evs (p, env))) = notices env + length (connectionsIn evs)
    /\ (forall ws, ws ∈ clients srv \/ ws ∈ connectionsIn evs -> ws ∈ clients srv').
Proof.
  unfold pluginRun. revert p env srv.
  induction evs as [|ev evs IH]; intros p env srv Hsrv Hcb Hlo Hhi.
  - exists srv. simpl. repeat split; try assumption; try lia.
    + unfold vaultEventsIn. simpl. lia.
    + intros ws [Hin|Hin]; [exact Hin | inversion Hin].
  - simpl fold_left. destruct ev as [e|ws].
    + change (pluginStep (PVault e) (p, env)) with (onVaultEvent e p env).
      assert (onVaultEvent e p env = bumpGraphVersion p env) as -> by (destruct e; reflexivity).
      assert (rpcServer (fst (bumpGraphVersion p env)) = Some srv) as H1 by exact Hsrv.
      assert (listeners (snd (bumpGraphVersion p env)) = listeners env) as H2
          by (unfold bumpGraphVersion; simpl; now rewrite Hsrv).
      assert (notices (snd (bumpGraphVersion p env)) = notices env) as H3
          by (unfold bumpGraphVersion; simpl; now rewrite Hsrv).
      assert (S (vaultEventsIn evs) = vaultEventsIn (PVault e :: evs)) as Hcount by reflexivity.
      assert (graphVersion (fst (bumpGraphVersion p env)) = (graphVersion p + 1)%Z) as H4
          by (apply plusOne_exact; lia).
      destruct (bumpGraphVersion p env) as [p1 env1]. cbn [fst snd] in H1, H2, H3, H4.
      destruct (IH p1 env1 srv H1 Hcb) as (srv' & E1 & E2 & E3 & E4 & E5 & E6); [lia | lia|].
      exists srv'. split; [exact E1|]. split; [exact E2|].
      split; [now rewrite E3, H2|].
      split; [rewrite E4, H4; lia|].
      split; [now rewrite E5, H3|].
      intros ws Hws. apply E6. exact Hws.
    + change (pluginStep (PConnect ws) (p, env)) with (onClientSocket ws p env).
      assert (onClientSocket ws p env
              = ({| graphVersion := graphVersion p;
                    rpcServer := Some (withClients srv (mapSet ws (clients srv))) |},
                 snd (onConnection ws (graphVersion p) srv env))) as ->
          by (unfold onClientSocket; now rewrite Hsrv).
      assert (listeners (snd (onConnection ws (graphVersion p) srv env)) = listeners env)
        as H2 by reflexivity.
      assert (notices (snd (onConnection ws (graphVersion p) srv env)) = S (notices env))
        as H3 by (unfold onConnection; simpl; now rewrite Hcb).
      destruct (IH {| graphVersion := graphVersion p;
                      rpcServer := Some (withClients srv (mapSet ws (clients srv))) |}
                  (snd (onConnection ws (graphVersion p) srv env))
                  (withClients srv (mapSet ws (clients srv))) eq_refl Hcb Hlo Hhi)
        as (srv' & E1 & E2 & E3 & E4 & E5 & E6).
      exists srv'. split; [exact E1|]. split; [exact E2|].
      split; [now rewrite E3, H2|].
      split; [exact E4|].
      split; [rewrite E5, H3; simpl; lia|].
      intros x [Hx|Hx]; apply E6.
      * left. simpl. apply elem_of_mapSet. now right.
      * simpl in Hx. apply elem_of_cons in Hx as [->|Hx]; [|now right].
        left. simpl. apply elem_of_mapSet. now left.
Qed.

(** X20: the plugin from [onload] to [onunload].  Load the plugin where no
    listener is listening, let any sequence of vault events and client
    connections happen, and unload it: the plugin holds no server, no
    listener is left listening, every socket that connected has had
    [close()] called, one notice was shown per connection, and (while the
    version stays within 2^53) the version has grown by the number of vault
    events. *)
Theorem plugin_lifecycle `{Host} (evs : list PluginEvent) (p : Plugin) (env : Env) :
  (forall i, ~ listeningAt env i) ->
  (- 2 ^ 53 <= graphVersion p)%Z ->
  (graphVersion p + Z.of_nat (vaultEventsIn evs) <= 2 ^ 53)%Z ->
  let loaded := onload p env in
  let final := onunload (fst (pluginRun evs loaded)) (snd (pluginRun evs loaded)) in
  listeningAt (snd loaded) (length (listeners env))
  /\ rpcServer (fst final) = None
  /\ (forall i, ~ listeningAt (snd final) i)
  /\ (forall ws s, ws ∈ connectionsIn evs -> sockets (snd final) !! ws = Some s ->
                   readyState s = CLOSING \/ readyState s = CLOSED)
  /\ notices (snd final) = notices env + length (connectionsIn evs)
  /\ graphVersion (fst final) = (graphVersion p + Z.of_nat (vaultEventsIn evs))%Z.
Proof.
  intros Hnone Hlo Hhi. cbv zeta.
  assert (listeners (snd (onload p env))
          = listeners env ++ [{| listen_host := "0.0.0.0"; listen_port := 8787;
                                 listening := true |}]) as Hl by reflexivity.
  split.
  { unfold listeningAt. rewrite Hl. eexists.
    rewrite lookup_app_r, Nat.sub_diag by lia. split; reflexivity. }
  destruct (pluginRun_loaded evs (fst (onload p env)) (snd (onload p env)) (fst (start newServer env)))
    as (srv' & E1 & E2 & E3 & E4 & E5 & E6);
    [reflexivity | reflexivity | exact Hlo | exact Hhi|].
  rewrite <- surjective_pairing in *.
  unfold onunload. rewrite E1. cbn [fst snd].
  pose proof (stop_listeners srv' (snd (pluginRun evs (onload p env)))) as Hstop.
  rewrite E2, E3, Hl in Hstop. simpl wss in Hstop.
  destruct (stop_loop (clients srv') (snd (pluginRun evs (onload p env))))
    as (_ & Hn & _ & Hs & _). cbv zeta in Hn, Hs.
  split; [reflexivity|]. split; [|split; [|split]].
  - intros i (l & El & Hon). rewrite Hstop, list_lookup_alter in El.
    destruct (decide (length (listeners env) = i)) as [<-|Hne].
    + rewrite lookup_app_r, Nat.sub_diag in El by lia. simpl in El.
      inversion El; subst l. discriminate.
    + destruct (decide (i < length (listeners env))) as [Hlt|Hge].
      * rewrite lookup_app_l in El by assumption. apply (Hnone i). now exists l.
      * rewrite lookup_app_r in El by lia.
        destruct (i - length (listeners env)) as [|n] eqn:En; [lia|]. discriminate.
  - intros ws s Hin. unfold stop. simpl sockets. rewrite Hs.
    rewrite bool_decide_eq_true_2 by (apply E6; now right).
    destruct (sockets _ !! ws) as [s0|]; [|discriminate]. simpl. intros [= <-].
    unfold socketClose. destruct (readyState s0) eqn:Er; simpl; auto.
  - unfold stop. simpl notices. rewrite Hn, E5. reflexivity.
  - simpl graphVersion. rewrite E4. reflexivity.
Qed.

Lemma plugin_lifecycle_witness :
  (forall i, ~ listeningAt oneSocketEnv i)
  /\ (- 2 ^ 53 <= graphVersion {| graphVersion := 0; rpcServer := None |})%Z
  /\ (graphVersion {| graphVersion := 0; rpcServer := None |}
        + Z.of_nat (vaultEventsIn [PConnect 0; PVault Modify; PVault Rename]) <= 2 ^ 53)%Z
  /\ sockets
       (snd (onunload
               (fst (pluginRun [PConnect 0; PVault Modify; PVault Rename]
                       (onload {| graphVersion := 0; rpcServer := None |} oneSocketEnv)))
               (snd (pluginRun [PConnect 0; PVault Modify; PVault Rename]
                       (onload {| graphVersion := 0; rpcServer := None |} oneSocketEnv)))))
       !! 0
     = Some {| readyState := CLOSING;
               sent := [NotificationFrame "hello" (versionParams 0);
                        NotificationFrame "graph.changed" (versionParams 1);
                        NotificationFrame "graph.changed" (versionParams 2)] |}
  /\ notices
       (snd (onunload
               (fst (pluginRun [PConnect 0; PVault Modify; PVault Rename]
                       (onload {| graphVersion := 0; rpcServer := None |} oneSocketEnv)))
               (snd (pluginRun [PConnect 0; PVault Modify; PVault Rename]
                       (onload {| graphVersion := 0; rpcServer := None |} oneSocketEnv)))))
     = 1
  /\ graphVersion
       (fst (onunload
               (fst (pluginRun [PConnect 0; PVault Modify; PVault Rename]
                       (onload {| graphVersion := 0; rpcServer := None |} oneSocketEnv)))
               (snd (pluginRun [PConnect 0; PVault Modify; PVault Rename]
                       (onload {| graphVersion := 0; rpcServer := None |} oneSocketEnv)))))
     = 2%Z.
Proof.
  assert (forall i, ~ listeningAt oneSocketEnv i) as Hnone.
  { intros i (l & El & _). discriminate. }
  assert (- 2 ^ 53 <= graphVersion {| graphVersion := 0; rpcServer := None |})%Z as Hlo
      by (simpl graphVersion; lia).
  assert (graphVersion {| graphVersion := 0; rpcServer := None |}
          + Z.of_nat (vaultEventsIn [PConnect 0; PVault Modify; PVault Rename]) <= 2 ^ 53)%Z
    as Hhi by (simpl graphVersion; unfold vaultEventsIn; simpl length; lia).
  split; [exact Hnone|]. split; [exact Hlo|]. split; [exact Hhi|].
  destruct (plugin_lifecycle [PConnect 0; PVault Modify; PVault Rename]
              {| graphVersion := 0; rpcServer := None |} oneSocketEnv Hnone Hlo Hhi)
    as (_ & _ & _ & Hclosed & Hn & Hv).
  split; [reflexivity|]. split; [exact Hn | exact Hv].
Defined.
